(** * Layer and history engine of the image text composer

    A shallow embedding of the editor's state container
    ([src/components/TextEditor.tsx]), with its custom fonts, and of the
    canvas ([KonvaCanvas]): the per-character warp placement
    ([renderWarpedText]), the spacing hints and the size of the stage.

    Conventions of the embedding.
    - A JavaScript [number] that holds a coordinate, an angle or a size is
      a real number [R]: arithmetic is exact, there is no NaN and no
      rounding.  Counters and indexes ([currentStep], array indexes) are
      [nat]; [Date.now()] is an [N] handed to the handler that reads the
      clock; pixel dimensions of the image are [Z].
    - A React state variable is a field of [EditorState]; a handler is a
      function on [EditorState] that applies the [set...] calls of the
      source in their order.  Every handler reads the values of the render
      it was created in, which is the state it is applied to.
    - A handler that can throw, or store [undefined] where a layer
      collection is expected, returns [option], with [None] for these
      runs.
    - A string is a sequence of 8-bit characters; [toLowerCase] is that of
      the letters A to Z. *)

From Stdlib Require Import List String Ascii Bool Arith ZArith NArith Lia.
From Stdlib Require Import Reals Lra Permutation Sorted.
From Stdlib Require Import DecimalString DecimalPos DecimalN.
Import ListNotations.

Open Scope string_scope.
Open Scope list_scope.

(** ** Data model *)

(** SVG path data.  The source keeps [warpPath] as the text of the path
    ([M x y A r r 0 f 1 x y ...]); the embedding keeps the commands, with
    the empty path for the empty string. *)
Inductive PathCmd : Type :=
| MoveTo (px py : R)
| LineTo (px py : R)
| QuadTo (cx cy px py : R)
| CubicTo (c1x c1y c2x c2y px py : R)
| ArcTo (rx ry rot : R) (largeArc sweep : bool) (px py : R)
| ClosePath.

Definition SvgPath : Type := list PathCmd.

Module CustomFont.

Record t : Type := mk {
  name : string;
  url : string;
  type : string
}.

End CustomFont.

Module TextShadow.

Record t : Type := mk {
  color : string;
  blur : R;
  offsetX : R;
  offsetY : R
}.

Definition set_color (v : string) (s : t) : t :=
  let 'mk color blur offsetX offsetY := s in
  mk v blur offsetX offsetY.

Definition set_blur (v : R) (s : t) : t :=
  let 'mk color blur offsetX offsetY := s in
  mk color v offsetX offsetY.

Definition set_offsetX (v : R) (s : t) : t :=
  let 'mk color blur offsetX offsetY := s in
  mk color blur v offsetY.

Definition set_offsetY (v : R) (s : t) : t :=
  let 'mk color blur offsetX offsetY := s in
  mk color blur offsetX v.
End TextShadow.

(** [interface TextStyle]: the typography of a layer, and the template the
    next layer is created from. *)
Module TextStyle.

Record t : Type := mk {
  fontSize : R;
  fontFamily : string;
  fontWeight : string;
  fill : string;
  stroke : string;
  strokeWidth : R;
  textAlign : string;
  fontStyle : string;
  opacity : R;
  lineHeight : R;
  letterSpacing : R;
  textDecoration : string;
  textShadow : TextShadow.t;
  paragraphWidth : R
}.

Definition set_fontSize (v : R) (s : t) : t :=
  let 'mk fontSize fontFamily fontWeight fill stroke strokeWidth textAlign
     fontStyle opacity lineHeight letterSpacing textDecoration textShadow
     paragraphWidth := s in
  mk v fontFamily fontWeight fill stroke strokeWidth textAlign fontStyle
     opacity lineHeight letterSpacing textDecoration textShadow paragraphWidth.

Definition set_fontFamily (v : string) (s : t) : t :=
  let 'mk fontSize fontFamily fontWeight fill stroke strokeWidth textAlign
     fontStyle opacity lineHeight letterSpacing textDecoration textShadow
     paragraphWidth := s in
  mk fontSize v fontWeight fill stroke strokeWidth textAlign fontStyle opacity
     lineHeight letterSpacing textDecoration textShadow paragraphWidth.

Definition set_fontWeight (v : string) (s : t) : t :=
  let 'mk fontSize fontFamily fontWeight fill stroke strokeWidth textAlign
     fontStyle opacity lineHeight letterSpacing textDecoration textShadow
     paragraphWidth := s in
  mk fontSize fontFamily v fill stroke strokeWidth textAlign fontStyle opacity
     lineHeight letterSpacing textDecoration textShadow paragraphWidth.

Definition set_fill (v : string) (s : t) : t :=
  let 'mk fontSize fontFamily fontWeight fill stroke strokeWidth textAlign
     fontStyle opacity lineHeight letterSpacing textDecoration textShadow
     paragraphWidth := s in
  mk fontSize fontFamily fontWeight v stroke strokeWidth textAlign fontStyle
     opacity lineHeight letterSpacing textDecoration textShadow paragraphWidth.

Definition set_stroke (v : string) (s : t) : t :=
  let 'mk fontSize fontFamily fontWeight fill stroke strokeWidth textAlign
     fontStyle opacity lineHeight letterSpacing textDecoration textShadow
     paragraphWidth := s in
  mk fontSize fontFamily fontWeight fill v strokeWidth textAlign fontStyle
     opacity lineHeight letterSpacing textDecoration textShadow paragraphWidth.

Definition set_strokeWidth (v : R) (s : t) : t :=
  let 'mk fontSize fontFamily fontWeight fill stroke strokeWidth textAlign
     fontStyle opacity lineHeight letterSpacing textDecoration textShadow
     paragraphWidth := s in
  mk fontSize fontFamily fontWeight fill stroke v textAlign fontStyle opacity
     lineHeight letterSpacing textDecoration textShadow paragraphWidth.

Definition set_textAlign (v : string) (s : t) : t :=
  let 'mk fontSize fontFamily fontWeight fill stroke strokeWidth textAlign
     fontStyle opacity lineHeight letterSpacing textDecoration textShadow
     paragraphWidth := s in
  mk fontSize fontFamily fontWeight fill stroke strokeWidth v fontStyle
     opacity lineHeight letterSpacing textDecoration textShadow paragraphWidth.

Definition set_fontStyle (v : string) (s : t) : t :=
  let 'mk fontSize fontFamily fontWeight fill stroke strokeWidth textAlign
     fontStyle opacity lineHeight letterSpacing textDecoration textShadow
     paragraphWidth := s in
  mk fontSize fontFamily fontWeight fill stroke strokeWidth textAlign v
     opacity lineHeight letterSpacing textDecoration textShadow paragraphWidth.

Definition set_opacity (v : R) (s : t) : t :=
  let 'mk fontSize fontFamily fontWeight fill stroke strokeWidth textAlign
     fontStyle opacity lineHeight letterSpacing textDecoration textShadow
     paragraphWidth := s in
  mk fontSize fontFamily fontWeight fill stroke strokeWidth textAlign
     fontStyle v lineHeight letterSpacing textDecoration textShadow
     paragraphWidth.

Definition set_lineHeight (v : R) (s : t) : t :=
  let 'mk fontSize fontFamily fontWeight fill stroke strokeWidth textAlign
     fontStyle opacity lineHeight letterSpacing textDecoration textShadow
     paragraphWidth := s in
  mk fontSize fontFamily fontWeight fill stroke strokeWidth textAlign
     fontStyle opacity v letterSpacing textDecoration textShadow
     paragraphWidth.

Definition set_letterSpacing (v : R) (s : t) : t :=
  let 'mk fontSize fontFamily fontWeight fill stroke strokeWidth textAlign
     fontStyle opacity lineHeight letterSpacing textDecoration textShadow
     paragraphWidth := s in
  mk fontSize fontFamily fontWeight fill stroke strokeWidth textAlign
     fontStyle opacity lineHeight v textDecoration textShadow paragraphWidth.

Definition set_textDecoration (v : string) (s : t) : t :=
  let 'mk fontSize fontFamily fontWeight fill stroke strokeWidth textAlign
     fontStyle opacity lineHeight letterSpacing textDecoration textShadow
     paragraphWidth := s in
  mk fontSize fontFamily fontWeight fill stroke strokeWidth textAlign
     fontStyle opacity lineHeight letterSpacing v textShadow paragraphWidth.

Definition set_textShadow (v : TextShadow.t) (s : t) : t :=
  let 'mk fontSize fontFamily fontWeight fill stroke strokeWidth textAlign
     fontStyle opacity lineHeight letterSpacing textDecoration textShadow
     paragraphWidth := s in
  mk fontSize fontFamily fontWeight fill stroke strokeWidth textAlign
     fontStyle opacity lineHeight letterSpacing textDecoration v
     paragraphWidth.

Definition set_paragraphWidth (v : R) (s : t) : t :=
  let 'mk fontSize fontFamily fontWeight fill stroke strokeWidth textAlign
     fontStyle opacity lineHeight letterSpacing textDecoration textShadow
     paragraphWidth := s in
  mk fontSize fontFamily fontWeight fill stroke strokeWidth textAlign
     fontStyle opacity lineHeight letterSpacing textDecoration textShadow v.
End TextStyle.

(** [interface TextLayer].  The fields that [TextLayer] shares with
    [TextStyle] (the source spreads [...textStyle] into a new layer and
    patches them by [keyof TextStyle]) are the [style] component. *)
Module TextLayer.

Record t : Type := mk {
  id : string;
  x : R;
  y : R;
  text : string;
  style : TextStyle.t;
  rotation : R;
  scaleX : R;
  scaleY : R;
  locked : bool;
  isWarped : bool;
  warpPath : SvgPath;
  warpPathType : string;
  warpRadius : R;
  warpAngle : R;
  warpSpacing : R;
  showSpacingHints : bool;
  spacingHintColor : string;
  spacingHintOpacity : R;
  customFonts : list CustomFont.t
}.

Definition set_id (v : string) (l : t) : t :=
  let 'mk id x y text style rotation scaleX scaleY locked isWarped warpPath
     warpPathType warpRadius warpAngle warpSpacing showSpacingHints
     spacingHintColor spacingHintOpacity customFonts := l in
  mk v x y text style rotation scaleX scaleY locked isWarped warpPath
     warpPathType warpRadius warpAngle warpSpacing showSpacingHints
     spacingHintColor spacingHintOpacity customFonts.

Definition set_x (v : R) (l : t) : t :=
  let 'mk id x y text style rotation scaleX scaleY locked isWarped warpPath
     warpPathType warpRadius warpAngle warpSpacing showSpacingHints
     spacingHintColor spacingHintOpacity customFonts := l in
  mk id v y text style rotation scaleX scaleY locked isWarped warpPath
     warpPathType warpRadius warpAngle warpSpacing showSpacingHints
     spacingHintColor spacingHintOpacity customFonts.

Definition set_y (v : R) (l : t) : t :=
  let 'mk id x y text style rotation scaleX scaleY locked isWarped warpPath
     warpPathType warpRadius warpAngle warpSpacing showSpacingHints
     spacingHintColor spacingHintOpacity customFonts := l in
  mk id x v text style rotation scaleX scaleY locked isWarped warpPath
     warpPathType warpRadius warpAngle warpSpacing showSpacingHints
     spacingHintColor spacingHintOpacity customFonts.

Definition set_text (v : string) (l : t) : t :=
  let 'mk id x y text style rotation scaleX scaleY locked isWarped warpPath
     warpPathType warpRadius warpAngle warpSpacing showSpacingHints
     spacingHintColor spacingHintOpacity customFonts := l in
  mk id x y v style rotation scaleX scaleY locked isWarped warpPath
     warpPathType warpRadius warpAngle warpSpacing showSpacingHints
     spacingHintColor spacingHintOpacity customFonts.

Definition set_style (v : TextStyle.t) (l : t) : t :=
  let 'mk id x y text style rotation scaleX scaleY locked isWarped warpPath
     warpPathType warpRadius warpAngle warpSpacing showSpacingHints
     spacingHintColor spacingHintOpacity customFonts := l in
  mk id x y text v rotation scaleX scaleY locked isWarped warpPath
     warpPathType warpRadius warpAngle warpSpacing showSpacingHints
     spacingHintColor spacingHintOpacity customFonts.

Definition set_rotation (v : R) (l : t) : t :=
  let 'mk id x y text style rotation scaleX scaleY locked isWarped warpPath
     warpPathType warpRadius warpAngle warpSpacing showSpacingHints
     spacingHintColor spacingHintOpacity customFonts := l in
  mk id x y text style v scaleX scaleY locked isWarped warpPath warpPathType
     warpRadius warpAngle warpSpacing showSpacingHints spacingHintColor
     spacingHintOpacity customFonts.

Definition set_scaleX (v : R) (l : t) : t :=
  let 'mk id x y text style rotation scaleX scaleY locked isWarped warpPath
     warpPathType warpRadius warpAngle warpSpacing showSpacingHints
     spacingHintColor spacingHintOpacity customFonts := l in
  mk id x y text style rotation v scaleY locked isWarped warpPath warpPathType
     warpRadius warpAngle warpSpacing showSpacingHints spacingHintColor
     spacingHintOpacity customFonts.

Definition set_scaleY (v : R) (l : t) : t :=
  let 'mk id x y text style rotation scaleX scaleY locked isWarped warpPath
     warpPathType warpRadius warpAngle warpSpacing showSpacingHints
     spacingHintColor spacingHintOpacity customFonts := l in
  mk id x y text style rotation scaleX v locked isWarped warpPath warpPathType
     warpRadius warpAngle warpSpacing showSpacingHints spacingHintColor
     spacingHintOpacity customFonts.

Definition set_locked (v : bool) (l : t) : t :=
  let 'mk id x y text style rotation scaleX scaleY locked isWarped warpPath
     warpPathType warpRadius warpAngle warpSpacing showSpacingHints
     spacingHintColor spacingHintOpacity customFonts := l in
  mk id x y text style rotation scaleX scaleY v isWarped warpPath warpPathType
     warpRadius warpAngle warpSpacing showSpacingHints spacingHintColor
     spacingHintOpacity customFonts.

Definition set_isWarped (v : bool) (l : t) : t :=
  let 'mk id x y text style rotation scaleX scaleY locked isWarped warpPath
     warpPathType warpRadius warpAngle warpSpacing showSpacingHints
     spacingHintColor spacingHintOpacity customFonts := l in
  mk id x y text style rotation scaleX scaleY locked v warpPath warpPathType
     warpRadius warpAngle warpSpacing showSpacingHints spacingHintColor
     spacingHintOpacity customFonts.

Definition set_warpPath (v : SvgPath) (l : t) : t :=
  let 'mk id x y text style rotation scaleX scaleY locked isWarped warpPath
     warpPathType warpRadius warpAngle warpSpacing showSpacingHints
     spacingHintColor spacingHintOpacity customFonts := l in
  mk id x y text style rotation scaleX scaleY locked isWarped v warpPathType
     warpRadius warpAngle warpSpacing showSpacingHints spacingHintColor
     spacingHintOpacity customFonts.

Definition set_warpPathType (v : string) (l : t) : t :=
  let 'mk id x y text style rotation scaleX scaleY locked isWarped warpPath
     warpPathType warpRadius warpAngle warpSpacing showSpacingHints
     spacingHintColor spacingHintOpacity customFonts := l in
  mk id x y text style rotation scaleX scaleY locked isWarped warpPath v
     warpRadius warpAngle warpSpacing showSpacingHints spacingHintColor
     spacingHintOpacity customFonts.

Definition set_warpRadius (v : R) (l : t) : t :=
  let 'mk id x y text style rotation scaleX scaleY locked isWarped warpPath
     warpPathType warpRadius warpAngle warpSpacing showSpacingHints
     spacingHintColor spacingHintOpacity customFonts := l in
  mk id x y text style rotation scaleX scaleY locked isWarped warpPath
     warpPathType v warpAngle warpSpacing showSpacingHints spacingHintColor
     spacingHintOpacity customFonts.

Definition set_warpAngle (v : R) (l : t) : t :=
  let 'mk id x y text style rotation scaleX scaleY locked isWarped warpPath
     warpPathType warpRadius warpAngle warpSpacing showSpacingHints
     spacingHintColor spacingHintOpacity customFonts := l in
  mk id x y text style rotation scaleX scaleY locked isWarped warpPath
     warpPathType warpRadius v warpSpacing showSpacingHints spacingHintColor
     spacingHintOpacity customFonts.

Definition set_warpSpacing (v : R) (l : t) : t :=
  let 'mk id x y text style rotation scaleX scaleY locked isWarped warpPath
     warpPathType warpRadius warpAngle warpSpacing showSpacingHints
     spacingHintColor spacingHintOpacity customFonts := l in
  mk id x y text style rotation scaleX scaleY locked isWarped warpPath
     warpPathType warpRadius warpAngle v showSpacingHints spacingHintColor
     spacingHintOpacity customFonts.

Definition set_showSpacingHints (v : bool) (l : t) : t :=
  let 'mk id x y text style rotation scaleX scaleY locked isWarped warpPath
     warpPathType warpRadius warpAngle warpSpacing showSpacingHints
     spacingHintColor spacingHintOpacity customFonts := l in
  mk id x y text style rotation scaleX scaleY locked isWarped warpPath
     warpPathType warpRadius warpAngle warpSpacing v spacingHintColor
     spacingHintOpacity customFonts.

Definition set_spacingHintColor (v : string) (l : t) : t :=
  let 'mk id x y text style rotation scaleX scaleY locked isWarped warpPath
     warpPathType warpRadius warpAngle warpSpacing showSpacingHints
     spacingHintColor spacingHintOpacity customFonts := l in
  mk id x y text style rotation scaleX scaleY locked isWarped warpPath
     warpPathType warpRadius warpAngle warpSpacing showSpacingHints v
     spacingHintOpacity customFonts.

Definition set_spacingHintOpacity (v : R) (l : t) : t :=
  let 'mk id x y text style rotation scaleX scaleY locked isWarped warpPath
     warpPathType warpRadius warpAngle warpSpacing showSpacingHints
     spacingHintColor spacingHintOpacity customFonts := l in
  mk id x y text style rotation scaleX scaleY locked isWarped warpPath
     warpPathType warpRadius warpAngle warpSpacing showSpacingHints
     spacingHintColor v customFonts.
End TextLayer.

(** ** JavaScript containers *)

(** [Set<string>]: the members in insertion order, each once. *)
Module JsSet.

Definition t : Type := list string.

Definition has (s : t) (v : string) : bool := existsb (String.eqb v) s.

Definition size (s : t) : nat := List.length s.

Definition add (v : string) (s : t) : t := if has s v then s else s ++ [v].

Definition delete (v : string) (s : t) : t :=
  filter (fun w => negb (String.eqb w v)) s.

(** [new Set(iterable)] *)
Definition ofList (l : list string) : t :=
  fold_left (fun acc v => add v acc) l [].

(** [Array.from(s)[0]] *)
Definition first (s : t) : option string := hd_error s.

End JsSet.

(** Arrays whose slots may hold [undefined], for the code that assigns by
    index. *)
Module JsArray.

Section Slots.
Context {A : Type}.

(** [a.findIndex(p)], with [-1] when no element satisfies [p]. *)
Fixpoint findIndexFrom (p : A -> bool) (a : list A) (i : Z) : Z :=
  match a with
  | [] => (-1)%Z
  | v :: rest => if p v then i else findIndexFrom p rest (i + 1)%Z
  end.

Definition findIndex (p : A -> bool) (a : list A) : Z := findIndexFrom p a 0%Z.

(** [[...a]] as an array of slots. *)
Definition slots (a : list A) : list (option A) := map Some a.

(** [a[i]]: [undefined] for a negative index or one past the end. *)
Definition get (a : list (option A)) (i : Z) : option A :=
  if (i <? 0)%Z then None
  else match nth_error a (Z.to_nat i) with
       | Some v => v
       | None => None
       end.

Fixpoint replace (a : list (option A)) (n : nat) (v : option A)
  : list (option A) :=
  match a, n with
  | [], _ => []
  | _ :: rest, O => v :: rest
  | w :: rest, S m => w :: replace rest m v
  end.

(** [a[i] = v]: a negative index names a property and leaves the elements
    alone; an index past the end grows the array with empty slots. *)
Definition set (a : list (option A)) (i : Z) (v : option A)
  : list (option A) :=
  if (i <? 0)%Z then a
  else let n := Z.to_nat i in
       if (n <? List.length a)%nat then replace a n v
       else a ++ repeat None (n - List.length a) ++ [v].

(** The array as a [TextLayer[]], when no slot holds [undefined]. *)
Fixpoint typed (a : list (option A)) : option (list A) :=
  match a with
  | [] => Some []
  | Some v :: rest =>
      match typed rest with
      | Some r => Some (v :: r)
      | None => None
      end
  | None :: _ => None
  end.

End Slots.

End JsArray.

(** ** Persistence record *)

(** The props of the editor: the identity of the image of the session. *)
Record Props : Type := mkProps {
  imageUrl : string;
  imageWidth : Z;
  imageHeight : Z
}.

(** The object that [JSON.parse] returns for a stored record.  The three
    fields that [loadFromLocalStorage] defaults with [||] may be absent. *)
Module SaveData.

Record t : Type := mk {
  textLayers : option (list TextLayer.t);
  history : option (list (list TextLayer.t));
  currentStep : option nat;
  imageUrl : string;
  imageWidth : Z;
  imageHeight : Z;
  timestamp : N;
  version : string
}.

End SaveData.

(** The text stored under the key ['imageTextComposer'], by what
    [JSON.parse] makes of it: [JSON.stringify] and [JSON.parse] are taken
    to be exact inverses on the records the editor writes.  [Malformed] is
    a non-empty text that [JSON.parse] rejects, or whose value carries no
    image identity; either way the load removes the item and returns
    [false]. *)
Inductive StoredItem : Type :=
| Malformed
| Parsed (d : SaveData.t).

(** ** Editor state *)

(** The state variables of [TextEditor] that the engine reads and writes,
    and, as its last field, the item of the browser's store under the key
    of the editor ([None] when there is none). *)
Record EditorState : Type := mkState {
  textLayers : list TextLayer.t;
  selectedIds : JsSet.t;
  textStyle : TextStyle.t;
  history : list (list TextLayer.t);
  currentStep : nat;
  isUndoRedoAction : bool;
  lastSaved : option N;
  localStorage : option StoredItem
}.

Definition setTextLayers (v : list TextLayer.t) (st : EditorState) :=
  mkState v (selectedIds st) (textStyle st) (history st) (currentStep st)
          (isUndoRedoAction st) (lastSaved st) (localStorage st).

Definition setSelectedIds (v : JsSet.t) (st : EditorState) :=
  mkState (textLayers st) v (textStyle st) (history st) (currentStep st)
          (isUndoRedoAction st) (lastSaved st) (localStorage st).

Definition setTextStyle (v : TextStyle.t) (st : EditorState) :=
  mkState (textLayers st) (selectedIds st) v (history st) (currentStep st)
          (isUndoRedoAction st) (lastSaved st) (localStorage st).

Definition setHistory (v : list (list TextLayer.t)) (st : EditorState) :=
  mkState (textLayers st) (selectedIds st) (textStyle st) v (currentStep st)
          (isUndoRedoAction st) (lastSaved st) (localStorage st).

Definition setCurrentStep (v : nat) (st : EditorState) :=
  mkState (textLayers st) (selectedIds st) (textStyle st) (history st) v
          (isUndoRedoAction st) (lastSaved st) (localStorage st).

Definition setIsUndoRedoAction (v : bool) (st : EditorState) :=
  mkState (textLayers st) (selectedIds st) (textStyle st) (history st)
          (currentStep st) v (lastSaved st) (localStorage st).

Definition setLastSaved (v : option N) (st : EditorState) :=
  mkState (textLayers st) (selectedIds st) (textStyle st) (history st)
          (currentStep st) (isUndoRedoAction st) v (localStorage st).

Definition setLocalStorage (v : option StoredItem) (st : EditorState) :=
  mkState (textLayers st) (selectedIds st) (textStyle st) (history st)
          (currentStep st) (isUndoRedoAction st) (lastSaved st) v.

(** The calls of a handler, in the order of the source. *)
Notation "st |> f" := (f st) (at level 45, left associativity, only parsing).

Definition defaultTextStyle : TextStyle.t :=
  TextStyle.mk 40 "Arial" "normal" "#ff0000" "#000000" 2 "left" "normal" 1
               1.2 0 "none" (TextShadow.mk "#000000" 0 0 0) 300.

(** The state of [useState] at mount, over a given storage. *)
Definition initialState (store : option StoredItem) : EditorState :=
  mkState [] [] defaultTextStyle [[]] 0 false None store.

(** Helper values of the render. *)
Definition selectedLayers (st : EditorState) : list TextLayer.t :=
  filter (fun layer => JsSet.has (selectedIds st) (TextLayer.id layer))
         (textLayers st).

Definition isMultiSelect (st : EditorState) : bool :=
  (1 <? JsSet.size (selectedIds st))%nat.

Definition hasSelection (st : EditorState) : bool :=
  (0 <? JsSet.size (selectedIds st))%nat.

Definition selectedText (st : EditorState) : option TextLayer.t :=
  match JsSet.first (selectedIds st) with
  | Some sid => find (fun layer => TextLayer.id layer =? sid) (textLayers st)
  | None => None
  end.

(** ** Selection *)

Definition addToSelection (id : string) (st : EditorState) : EditorState :=
  st |> setSelectedIds (JsSet.ofList (selectedIds st ++ [id])).

Definition removeFromSelection (id : string) (st : EditorState) : EditorState :=
  st |> setSelectedIds (JsSet.delete id (selectedIds st)).

Definition clearSelection (st : EditorState) : EditorState :=
  st |> setSelectedIds [].

Definition selectLayer (id : string) (multiSelect : bool) (st : EditorState)
  : EditorState :=
  if multiSelect then
    if JsSet.has (selectedIds st) id then removeFromSelection id st
    else addToSelection id st
  else st |> setSelectedIds [id].

(** The effect that keeps [selectedIds] inside the collection. *)
Definition reconcileSelection (st : EditorState) : EditorState :=
  let validIds := JsSet.ofList (map TextLayer.id (textLayers st)) in
  let newSelectedIds := filter (JsSet.has validIds) (selectedIds st) in
  if (JsSet.size newSelectedIds =? JsSet.size (selectedIds st))%nat then st
  else st |> setSelectedIds newSelectedIds.

(** ** History *)

Definition addToHistory (newLayers : list TextLayer.t) (st : EditorState)
  : EditorState :=
  if isUndoRedoAction st then st |> setIsUndoRedoAction false
  else
    let newHistory := firstn (currentStep st + 1) (history st) ++ [newLayers] in
    (* Keep only last 20 steps *)
    let newHistory :=
      if (20 <? List.length newHistory)%nat then tl newHistory
      else newHistory in
    st |> setHistory newHistory
       |> setCurrentStep (Nat.min (currentStep st + 1) 19).

Definition canUndo (st : EditorState) : bool := (0 <? currentStep st)%nat.

Definition canRedo (st : EditorState) : bool :=
  (currentStep st <? List.length (history st) - 1)%nat.

(** [history[newStep]] is [undefined] past the end of the array. *)
Definition undo (st : EditorState) : option EditorState :=
  if (0 <? currentStep st)%nat then
    let newStep := currentStep st - 1 in
    match nth_error (history st) newStep with
    | Some snapshot =>
        Some (st |> setIsUndoRedoAction true
                 |> setCurrentStep newStep
                 |> setTextLayers snapshot
                 |> setSelectedIds [])
    | None => None
    end
  else Some st.

Definition redo (st : EditorState) : option EditorState :=
  if (currentStep st <? List.length (history st) - 1)%nat then
    let newStep := currentStep st + 1 in
    match nth_error (history st) newStep with
    | Some snapshot =>
        Some (st |> setIsUndoRedoAction true
                 |> setCurrentStep newStep
                 |> setTextLayers snapshot
                 |> setSelectedIds [])
    | None => None
    end
  else Some st.

(** ** Layer store *)

(** [`text-${Date.now()}`] *)
Definition freshId (now : N) : string :=
  ("text-" ++ NilZero.string_of_uint (N.to_uint now))%string.

(** [layer.id === selectedId], where [selectedId] is [undefined] for an
    empty set. *)
Definition idIs (selectedId : option string) (layer : TextLayer.t) : bool :=
  match selectedId with
  | Some sid => TextLayer.id layer =? sid
  | None => false
  end.

(** [textLayers.map(layer => selectedIds.has(layer.id) ? f(layer) : layer)] *)
Definition mapSelected (f : TextLayer.t -> TextLayer.t) (st : EditorState)
  : list TextLayer.t :=
  map (fun layer =>
         if JsSet.has (selectedIds st) (TextLayer.id layer) then f layer
         else layer)
      (textLayers st).

Definition addText (now : N) (st : EditorState) : EditorState :=
  let newText :=
    TextLayer.mk (freshId now) 50 50 "Double click to edit" (textStyle st)
                 0 1 1 false
                 false [] "arc" 100 180 1
                 false "#3B82F6" 0.6
                 [] in
  let newLayers := textLayers st ++ [newText] in
  st |> setTextLayers newLayers
     |> addToHistory newLayers
     |> setSelectedIds [TextLayer.id newText].

(** [{ ...style, [property]: value }] for [property: keyof TextStyle], one
    constructor per key and type of value the controls pass. *)
Module StylePatch.

Inductive t : Type :=
| fontSize (v : R)
| fontFamily (v : string)
| fontWeight (v : string)
| fill (v : string)
| stroke (v : string)
| strokeWidth (v : R)
| textAlign (v : string)
| fontStyle (v : string)
| opacity (v : R)
| lineHeight (v : R)
| letterSpacing (v : R)
| textDecoration (v : string)
| paragraphWidth (v : R).

Definition apply (p : t) (s : TextStyle.t) : TextStyle.t :=
  match p with
  | fontSize v => TextStyle.set_fontSize v s
  | fontFamily v => TextStyle.set_fontFamily v s
  | fontWeight v => TextStyle.set_fontWeight v s
  | fill v => TextStyle.set_fill v s
  | stroke v => TextStyle.set_stroke v s
  | strokeWidth v => TextStyle.set_strokeWidth v s
  | textAlign v => TextStyle.set_textAlign v s
  | fontStyle v => TextStyle.set_fontStyle v s
  | opacity v => TextStyle.set_opacity v s
  | lineHeight v => TextStyle.set_lineHeight v s
  | letterSpacing v => TextStyle.set_letterSpacing v s
  | textDecoration v => TextStyle.set_textDecoration v s
  | paragraphWidth v => TextStyle.set_paragraphWidth v s
  end.

End StylePatch.

(** [{ ...textShadow, [property]: value }] *)
Module ShadowPatch.

Inductive t : Type :=
| color (v : string)
| blur (v : R)
| offsetX (v : R)
| offsetY (v : R).

Definition apply (p : t) (s : TextShadow.t) : TextShadow.t :=
  match p with
  | color v => TextShadow.set_color v s
  | blur v => TextShadow.set_blur v s
  | offsetX v => TextShadow.set_offsetX v s
  | offsetY v => TextShadow.set_offsetY v s
  end.

End ShadowPatch.

Definition updateTextStyle (p : StylePatch.t) (st : EditorState) : EditorState :=
  let st1 :=
    if hasSelection st then
      let newLayers :=
        mapSelected (fun layer =>
          TextLayer.set_style (StylePatch.apply p (TextLayer.style layer)) layer)
          st in
      st |> setTextLayers newLayers |> addToHistory newLayers
    else st in
  (* Update text style for new layers *)
  st1 |> setTextStyle (StylePatch.apply p (textStyle st1)).

Definition updateTextShadow (p : ShadowPatch.t) (st : EditorState) : EditorState :=
  let patch (s : TextStyle.t) :=
    TextStyle.set_textShadow (ShadowPatch.apply p (TextStyle.textShadow s)) s in
  let st1 := st |> setTextStyle (patch (textStyle st)) in
  if hasSelection st then
    let newLayers :=
      mapSelected (fun layer =>
        TextLayer.set_style (patch (TextLayer.style layer)) layer) st in
    st1 |> setTextLayers newLayers |> addToHistory newLayers
  else st1.

(** The [onChange] handlers of the controls for the text, the position,
    the rotation and the scale of the selection. *)
Module FieldPatch.

Inductive t : Type :=
| text (v : string)
| x (v : R)
| y (v : R)
| rotation (v : R)
| scaleX (v : R)
| scaleY (v : R).

Definition apply (p : t) (layer : TextLayer.t) : TextLayer.t :=
  match p with
  | text v => TextLayer.set_text v layer
  | x v => TextLayer.set_x v layer
  | y v => TextLayer.set_y v layer
  | rotation v => TextLayer.set_rotation v layer
  | scaleX v => TextLayer.set_scaleX v layer
  | scaleY v => TextLayer.set_scaleY v layer
  end.

End FieldPatch.

Definition onChangeField (p : FieldPatch.t) (st : EditorState) : EditorState :=
  if hasSelection st then
    let newLayers := mapSelected (FieldPatch.apply p) st in
    st |> setTextLayers newLayers |> addToHistory newLayers
  else st.

Definition deleteText (st : EditorState) : EditorState :=
  if hasSelection st then
    let newLayers :=
      filter (fun layer =>
                negb (JsSet.has (selectedIds st) (TextLayer.id layer)))
             (textLayers st) in
    st |> setTextLayers newLayers
       |> addToHistory newLayers
       |> setSelectedIds []
  else st.

(** *** Layer management *)

Definition moveLayerUp (st : EditorState) : option EditorState :=
  if hasSelection st && (JsSet.size (selectedIds st) =? 1)%nat then
    let selectedId := JsSet.first (selectedIds st) in
    let currentIndex := JsArray.findIndex (idIs selectedId) (textLayers st) in
    if (currentIndex >? 0)%Z then
      let newLayers := JsArray.slots (textLayers st) in
      let temp := JsArray.get newLayers currentIndex in
      let newLayers :=
        JsArray.set newLayers currentIndex
                    (JsArray.get newLayers (currentIndex - 1)%Z) in
      let newLayers := JsArray.set newLayers (currentIndex - 1)%Z temp in
      match JsArray.typed newLayers with
      | Some newLayers =>
          Some (st |> setTextLayers newLayers |> addToHistory newLayers)
      | None => None
      end
    else Some st
  else Some st.

Definition moveLayerDown (st : EditorState) : option EditorState :=
  if hasSelection st && (JsSet.size (selectedIds st) =? 1)%nat then
    let selectedId := JsSet.first (selectedIds st) in
    let currentIndex := JsArray.findIndex (idIs selectedId) (textLayers st) in
    if (currentIndex <? Z.of_nat (List.length (textLayers st)) - 1)%Z then
      let newLayers := JsArray.slots (textLayers st) in
      let temp := JsArray.get newLayers currentIndex in
      let newLayers :=
        JsArray.set newLayers currentIndex
                    (JsArray.get newLayers (currentIndex + 1)%Z) in
      let newLayers := JsArray.set newLayers (currentIndex + 1)%Z temp in
      match JsArray.typed newLayers with
      | Some newLayers =>
          Some (st |> setTextLayers newLayers |> addToHistory newLayers)
      | None => None
      end
    else Some st
  else Some st.

Definition bringToFront (st : EditorState) : EditorState :=
  if hasSelection st && (JsSet.size (selectedIds st) =? 1)%nat then
    let selectedId := JsSet.first (selectedIds st) in
    match find (idIs selectedId) (textLayers st) with
    | Some selectedLayer =>
        let otherLayers :=
          filter (fun layer => negb (idIs selectedId layer)) (textLayers st) in
        let newLayers := otherLayers ++ [selectedLayer] in
        st |> setTextLayers newLayers |> addToHistory newLayers
    | None => st
    end
  else st.

Definition sendToBack (st : EditorState) : EditorState :=
  if hasSelection st && (JsSet.size (selectedIds st) =? 1)%nat then
    let selectedId := JsSet.first (selectedIds st) in
    match find (idIs selectedId) (textLayers st) with
    | Some selectedLayer =>
        let otherLayers :=
          filter (fun layer => negb (idIs selectedId layer)) (textLayers st) in
        let newLayers := selectedLayer :: otherLayers in
        st |> setTextLayers newLayers |> addToHistory newLayers
    | None => st
    end
  else st.

(** Lock/Unlock layer(s) - supports single and group selection *)
Definition toggleLock (st : EditorState) : EditorState :=
  if hasSelection st then
    let selectedLayers :=
      filter (fun layer => JsSet.has (selectedIds st) (TextLayer.id layer))
             (textLayers st) in
    if (0 <? List.length selectedLayers)%nat then
      (* If all selected layers are locked, unlock them all;
         if any selected layer is unlocked, lock them all *)
      let allLocked := forallb TextLayer.locked selectedLayers in
      let newLockState := negb allLocked in
      let newLayers := mapSelected (TextLayer.set_locked newLockState) st in
      st |> setTextLayers newLayers |> addToHistory newLayers
    else st
  else st.

Definition duplicateLayer (now : N) (st : EditorState) : EditorState :=
  if hasSelection st && (JsSet.size (selectedIds st) =? 1)%nat then
    let selectedId := JsSet.first (selectedIds st) in
    match find (idIs selectedId) (textLayers st) with
    | Some selectedLayer =>
        let duplicatedLayer :=
          selectedLayer
            |> TextLayer.set_id (freshId now)
            |> TextLayer.set_x (TextLayer.x selectedLayer + 20)
            |> TextLayer.set_y (TextLayer.y selectedLayer + 20)
            |> TextLayer.set_locked false in
        let newLayers := textLayers st ++ [duplicatedLayer] in
        st |> setTextLayers newLayers
           |> addToHistory newLayers
           |> setSelectedIds [TextLayer.id duplicatedLayer]
    | None => st
    end
  else st.

(** *** Warp *)

Section WarpPaths.
Local Open Scope R_scope.

(** [(angle * Math.PI) / 180] *)
Definition toRadians (angle : R) : R := (angle * PI) / 180.

(** [angle > 180 ? 1 : 0] *)
Definition largeArcFlag (angle : R) : bool :=
  if Rlt_dec 180 angle then true else false.

(** The path written by [toggleWarp] when a layer has none, and by
    [setWarpPath('arc')]. *)
Definition arcPath (centerX centerY radius angle : R) : SvgPath :=
  let angleRad := toRadians angle in
  let startAngle := - angleRad / 2 in
  let endAngle := angleRad / 2 in
  let startX := centerX + radius * cos startAngle in
  let startY := centerY + radius * sin startAngle in
  let endX := centerX + radius * cos endAngle in
  let endY := centerY + radius * sin endAngle in
  [MoveTo startX startY;
   ArcTo radius radius 0 (largeArcFlag angle) true endX endY].

Inductive PathType : Type :=
| arc | circle | wave | spiral | zigzag | heart | star | custom.

Definition pathTypeName (pathType : PathType) : string :=
  match pathType with
  | arc => "arc"
  | circle => "circle"
  | wave => "wave"
  | spiral => "spiral"
  | zigzag => "zigzag"
  | heart => "heart"
  | star => "star"
  | custom => "custom"
  end.

(** [i % 2 === 0] *)
Definition isEven (i : nat) : bool := Nat.even i.

Definition warpPathFor (pathType : PathType)
                       (centerX centerY radius angle : R) : SvgPath :=
  let angleRad := toRadians angle in
  let startAngle := - angleRad / 2 in
  let endAngle := angleRad / 2 in
  let startX := centerX + radius * cos startAngle in
  let startY := centerY + radius * sin startAngle in
  let endX := centerX + radius * cos endAngle in
  let endY := centerY + radius * sin endAngle in
  match pathType with
  | arc =>
      [MoveTo startX startY;
       ArcTo radius radius 0 (largeArcFlag angle) true endX endY]
  | circle =>
      [MoveTo (centerX - radius) centerY;
       ArcTo radius radius 0 true true (centerX - radius) centerY]
  | wave =>
      let waveCount := Z.max 1 (Zfloor (angle / 60)) in
      let waveRadius := radius * 0.3 in
      MoveTo startX startY ::
      map (fun i =>
             let waveX :=
               centerX + (INR i - IZR waveCount / 2)
                         * (radius * 2 / IZR waveCount) in
             let waveY :=
               centerY + (if isEven i then - waveRadius else waveRadius) in
             QuadTo waveX waveY (waveX + radius * 2 / IZR waveCount) centerY)
          (seq 0 (Z.to_nat waveCount))
  | spiral =>
      let spiralTurns := 3 in
      let spiralRadius := radius * 0.8 in
      MoveTo centerX centerY ::
      map (fun k =>
             let i := INR (10 * k) in
             let angle := (i * PI) / 180 in
             let currentRadius := (spiralRadius * i) / (360 * spiralTurns) in
             LineTo (centerX + currentRadius * cos angle)
                    (centerY + currentRadius * sin angle))
          (seq 0 (36 * 3 + 1))
  | zigzag =>
      let zigzagCount := Z.max 2 (Zfloor (angle / 45)) in
      let zigzagHeight := radius * 0.4 in
      MoveTo startX startY ::
      map (fun i =>
             let progress := INR i / IZR zigzagCount in
             LineTo (startX + progress * (endX - startX))
                    (centerY + (if isEven i then zigzagHeight
                                else - zigzagHeight)))
          (seq 1 (Z.to_nat zigzagCount))
      ++ [LineTo endX endY]
  | heart =>
      let heartScale := radius / 50 in
      [MoveTo centerX (centerY - 20 * heartScale);
       CubicTo (centerX - 30 * heartScale) (centerY - 40 * heartScale)
               (centerX - 50 * heartScale) (centerY - 10 * heartScale)
               (centerX - 50 * heartScale) (centerY + 10 * heartScale);
       CubicTo (centerX - 50 * heartScale) (centerY + 30 * heartScale)
               (centerX - 20 * heartScale) (centerY + 50 * heartScale)
               centerX (centerY + 30 * heartScale);
       CubicTo (centerX + 20 * heartScale) (centerY + 50 * heartScale)
               (centerX + 50 * heartScale) (centerY + 30 * heartScale)
               (centerX + 50 * heartScale) (centerY + 10 * heartScale);
       CubicTo (centerX + 50 * heartScale) (centerY - 10 * heartScale)
               (centerX + 30 * heartScale) (centerY - 40 * heartScale)
               centerX (centerY - 20 * heartScale)]
  | star =>
      let starPoints := 5 in
      let outerRadius := radius in
      let innerRadius := radius * 0.4 in
      map (fun i =>
             let angle := (INR i * PI) / starPoints in
             let currentRadius :=
               if isEven i then outerRadius else innerRadius in
             let px := centerX + currentRadius * cos angle in
             let py := centerY + currentRadius * sin angle in
             if (i =? 0)%nat then MoveTo px py else LineTo px py)
          (seq 0 (5 * 2))
      ++ [ClosePath]
  | custom =>
      [MoveTo startX startY;
       CubicTo (centerX - radius * 0.5) (centerY - radius * 0.8)
               (centerX + radius * 0.5) (centerY + radius * 0.8)
               endX endY]
  end.

End WarpPaths.

(** [!selectedLayer.warpPath]: the empty string is falsy. *)
Definition noPath (p : SvgPath) : bool :=
  match p with
  | [] => true
  | _ :: _ => false
  end.

Definition toggleWarp (st : EditorState) : EditorState :=
  if hasSelection st && (JsSet.size (selectedIds st) =? 1)%nat then
    let selectedId := JsSet.first (selectedIds st) in
    match find (idIs selectedId) (textLayers st) with
    | Some selectedLayer =>
        let isCurrentlyWarped := TextLayer.isWarped selectedLayer in
        let newLayer :=
          TextLayer.set_isWarped (negb isCurrentlyWarped) selectedLayer in
        (* If enabling warp and no path is set, set a default arc path *)
        let newLayer :=
          if negb isCurrentlyWarped && noPath (TextLayer.warpPath selectedLayer)
          then
            let defaultPath :=
              arcPath (TextLayer.x selectedLayer) (TextLayer.y selectedLayer)
                      (TextLayer.warpRadius selectedLayer)
                      (TextLayer.warpAngle selectedLayer) in
            TextLayer.set_warpPath defaultPath newLayer
          else newLayer in
        let newLayers :=
          map (fun layer => if idIs selectedId layer then newLayer else layer)
              (textLayers st) in
        st |> setTextLayers newLayers |> addToHistory newLayers
    | None => st
    end
  else st.

Inductive WarpProperty : Type := warpRadius | warpAngle | warpSpacing.

Definition updateWarpProperty (property : WarpProperty) (value : R)
                              (st : EditorState) : EditorState :=
  if hasSelection st then
    let newLayers :=
      mapSelected (match property with
                   | warpRadius => TextLayer.set_warpRadius value
                   | warpAngle => TextLayer.set_warpAngle value
                   | warpSpacing => TextLayer.set_warpSpacing value
                   end) st in
    st |> setTextLayers newLayers |> addToHistory newLayers
  else st.

Definition setWarpPath (pathType : PathType) (st : EditorState) : EditorState :=
  if hasSelection st && (JsSet.size (selectedIds st) =? 1)%nat then
    let selectedId := JsSet.first (selectedIds st) in
    match find (idIs selectedId) (textLayers st) with
    | Some selectedLayer =>
        let path :=
          warpPathFor pathType
                      (TextLayer.x selectedLayer) (TextLayer.y selectedLayer)
                      (TextLayer.warpRadius selectedLayer)
                      (TextLayer.warpAngle selectedLayer) in
        let newLayers :=
          map (fun layer =>
                 if idIs selectedId layer then
                   layer |> TextLayer.set_warpPath path
                         |> TextLayer.set_warpPathType (pathTypeName pathType)
                 else layer)
              (textLayers st) in
        st |> setTextLayers newLayers |> addToHistory newLayers
    | None => st
    end
  else st.

(** *** Smart spacing *)

Definition toggleSpacingHints (st : EditorState) : EditorState :=
  if hasSelection st then
    let newLayers :=
      mapSelected (fun layer =>
        TextLayer.set_showSpacingHints
          (negb (TextLayer.showSpacingHints layer)) layer) st in
    st |> setTextLayers newLayers |> addToHistory newLayers
  else st.

Definition updateSpacingHintColor (color : string) (st : EditorState)
  : EditorState :=
  if hasSelection st then
    let newLayers := mapSelected (TextLayer.set_spacingHintColor color) st in
    st |> setTextLayers newLayers |> addToHistory newLayers
  else st.

Definition updateSpacingHintOpacity (opacity : R) (st : EditorState)
  : EditorState :=
  if hasSelection st then
    let newLayers := mapSelected (TextLayer.set_spacingHintOpacity opacity) st in
    st |> setTextLayers newLayers |> addToHistory newLayers
  else st.

(** [a.sort((a, b) => key(a) - key(b))]: a stable sort by [key]. *)
Fixpoint insertBy (key : TextLayer.t -> R) (a : TextLayer.t)
                  (sorted : list TextLayer.t) : list TextLayer.t :=
  match sorted with
  | [] => [a]
  | b :: rest =>
      if Rle_dec (key a) (key b) then a :: b :: rest
      else b :: insertBy key a rest
  end.

Definition sortBy (key : TextLayer.t -> R) (a : list TextLayer.t)
  : list TextLayer.t :=
  fold_right (insertBy key) [] a.

(** [reduce((sum, layer) => sum + key(layer), 0)] *)
Definition sumBy (key : TextLayer.t -> R) (a : list TextLayer.t) : R :=
  fold_left (fun sum layer => (sum + key layer)%R) a 0%R.

(** The two distribute handlers, by the coordinate they spread.  With no
    selected layer in the collection [sortedLayers[0]] is [undefined] and
    reading its coordinate throws; with a single one the spacing is [0/0],
    which is not a real number. *)
Definition distributeBy (key : TextLayer.t -> R)
                        (setKey : R -> TextLayer.t -> TextLayer.t)
                        (st : EditorState) : option EditorState :=
  if (3 <=? JsSet.size (selectedIds st))%nat then
    let selectedLayers :=
      filter (fun layer => JsSet.has (selectedIds st) (TextLayer.id layer))
             (textLayers st) in
    let sortedLayers := sortBy key selectedLayers in
    match hd_error sortedLayers,
          nth_error sortedLayers (List.length sortedLayers - 1) with
    | Some firstLayer, Some lastLayer =>
        if (List.length sortedLayers =? 1)%nat then None
        else
          let totalDistance := (key lastLayer - key firstLayer)%R in
          let spacing :=
            (totalDistance / (INR (List.length sortedLayers) - 1))%R in
          let newLayers :=
            mapSelected (fun layer =>
              let layerIndex :=
                JsArray.findIndex
                  (fun l => TextLayer.id l =? TextLayer.id layer)
                  sortedLayers in
              setKey (key firstLayer + IZR layerIndex * spacing)%R layer) st in
          Some (st |> setTextLayers newLayers |> addToHistory newLayers)
    | _, _ => None
    end
  else Some st.

Definition distributeLayersEvenly : EditorState -> option EditorState :=
  distributeBy TextLayer.x TextLayer.set_x.

Definition distributeLayersVertically : EditorState -> option EditorState :=
  distributeBy TextLayer.y TextLayer.set_y.

Definition alignLayersVertically (st : EditorState) : EditorState :=
  if (2 <=? JsSet.size (selectedIds st))%nat then
    let selectedLayers :=
      filter (fun layer => JsSet.has (selectedIds st) (TextLayer.id layer))
             (textLayers st) in
    let centerY :=
      (sumBy TextLayer.y selectedLayers / INR (List.length selectedLayers))%R in
    let newLayers := mapSelected (TextLayer.set_y centerY) st in
    st |> setTextLayers newLayers |> addToHistory newLayers
  else st.

Definition alignLayersHorizontally (st : EditorState) : EditorState :=
  if (2 <=? JsSet.size (selectedIds st))%nat then
    let selectedLayers :=
      filter (fun layer => JsSet.has (selectedIds st) (TextLayer.id layer))
             (textLayers st) in
    let centerX :=
      (sumBy TextLayer.x selectedLayers / INR (List.length selectedLayers))%R in
    let newLayers := mapSelected (TextLayer.set_x centerX) st in
    st |> setTextLayers newLayers |> addToHistory newLayers
  else st.

(** *** Canvas gestures ([KonvaCanvas]) *)

(** [onClick] and [onTap] of a layer on the canvas. *)
Definition canvasClick (textLayer : TextLayer.t) (isMultiSelect : bool)
                       (st : EditorState) : EditorState :=
  if negb (TextLayer.locked textLayer) then
    if isMultiSelect then
      if JsSet.has (selectedIds st) (TextLayer.id textLayer)
      then st |> setSelectedIds
                   (JsSet.delete (TextLayer.id textLayer) (selectedIds st))
      else st |> setSelectedIds
                   (JsSet.add (TextLayer.id textLayer) (selectedIds st))
    else st |> setSelectedIds [TextLayer.id textLayer]
  else st.

(** [onDragEnd]: the node reports its new position; no snapshot is
    recorded. *)
Definition onDragEnd (textLayer : TextLayer.t) (nodeX nodeY : R)
                     (st : EditorState) : EditorState :=
  st |> setTextLayers
          (map (fun layer =>
                  if TextLayer.id layer =? TextLayer.id textLayer
                  then layer |> TextLayer.set_x nodeX |> TextLayer.set_y nodeY
                  else layer)
               (textLayers st)).

(** [onTransformEnd] *)
Definition onTransformEnd (textLayer : TextLayer.t)
                          (nodeX nodeY nodeRotation nodeScaleX nodeScaleY : R)
                          (st : EditorState) : EditorState :=
  st |> setTextLayers
          (map (fun layer =>
                  if TextLayer.id layer =? TextLayer.id textLayer
                  then layer |> TextLayer.set_x nodeX
                             |> TextLayer.set_y nodeY
                             |> TextLayer.set_rotation nodeRotation
                             |> TextLayer.set_scaleX nodeScaleX
                             |> TextLayer.set_scaleY nodeScaleY
                  else layer)
               (textLayers st)).

(** ** Persistence *)

(** The argument of [saveToLocalStorage]. *)
Record SaveRequest : Type := mkSaveRequest {
  req_textLayers : list TextLayer.t;
  req_history : list (list TextLayer.t);
  req_currentStep : nat;
  req_imageUrl : string;
  req_imageWidth : Z;
  req_imageHeight : Z
}.

(** [saveToLocalStorage(data)].  [writable] tells whether
    [localStorage.setItem] accepts the write or throws; [stamp] and [now]
    are the two readings of the clock. *)
Definition saveToLocalStorage (writable : bool) (stamp now : N)
                              (data : SaveRequest) (st : EditorState)
  : EditorState :=
  let saveData :=
    SaveData.mk (Some (req_textLayers data)) (Some (req_history data))
                (Some (req_currentStep data))
                (req_imageUrl data) (req_imageWidth data)
                (req_imageHeight data)
                stamp "1.0" in
  if writable then
    st |> setLocalStorage (Some (Parsed saveData))
       |> setLastSaved (Some now)
  else st.

(** [value || fallback] for a field that may be absent. *)
Definition orElse {A : Type} (value : option A) (fallback : A) : A :=
  match value with
  | Some v => v
  | None => fallback
  end.

(** [loadFromLocalStorage()], with its return value. *)
Definition loadFromLocalStorage (props : Props) (st : EditorState)
  : bool * EditorState :=
  match localStorage st with
  | Some (Parsed parsed) =>
      (* Check if saved data matches current image *)
      if (SaveData.imageUrl parsed =? imageUrl props)
         && (SaveData.imageWidth parsed =? imageWidth props)%Z
         && (SaveData.imageHeight parsed =? imageHeight props)%Z
      then
        (true,
         st |> setTextLayers (orElse (SaveData.textLayers parsed) [])
            |> setHistory (orElse (SaveData.history parsed) [[]])
            |> setCurrentStep (orElse (SaveData.currentStep parsed) 0)
            |> setLastSaved (Some (SaveData.timestamp parsed)))
      else (false, st |> setLocalStorage None)
  | Some Malformed => (false, st |> setLocalStorage None)
  | None => (false, st)
  end.

(** The request that [triggerAutosave] and [manualSave] build from the
    state and the props of the render. *)
Definition currentSaveRequest (props : Props) (st : EditorState) : SaveRequest :=
  mkSaveRequest (textLayers st) (history st) (currentStep st)
                (imageUrl props) (imageWidth props) (imageHeight props).

Definition manualSave (writable : bool) (stamp now : N) (props : Props)
                      (st : EditorState) : EditorState :=
  saveToLocalStorage writable stamp now (currentSaveRequest props st) st.

Definition clearSavedData (st : EditorState) : EditorState :=
  st |> setLocalStorage None |> setLastSaved None.

Definition resetDesign (st : EditorState) : EditorState :=
  st |> setLocalStorage None
     |> setTextLayers []
     |> setSelectedIds []
     |> setTextStyle defaultTextStyle
     |> setHistory [[]]
     |> setCurrentStep 0
     |> setLastSaved None
     |> setIsUndoRedoAction false.

(** ** Warped text ([renderWarpedText]) *)

Section Geometry.
Local Open Scope R_scope.

(** [{ x, y, rotation }] *)
Record Placement : Type := mkPlacement {
  px : R;
  py : R;
  protation : R
}.

(** [a % b] on numbers: the remainder of the truncated quotient. *)
Definition jsRem (a b : R) : R :=
  let q := a / b in
  a - b * IZR (if Rle_dec 0 q then Zfloor q else Zceil q).

(** [Math.atan2(y, x)] *)
Definition atan2 (y x : R) : R :=
  if Rlt_dec 0 x then atan (y / x)
  else if Rlt_dec x 0 then
    if Rle_dec 0 y then atan (y / x) + PI else atan (y / x) - PI
  else if Rlt_dec 0 y then PI / 2
  else if Rlt_dec y 0 then - PI / 2
  else 0.

(** The arc formula, at a progress in [[0, 1]] along the text. *)
Definition arcPlacement (centerX centerY radius angle progress : R)
  : Placement :=
  let angleRad := (angle * PI) / 180 in
  let currentAngle := - angleRad / 2 + (progress * angleRad) in
  mkPlacement (centerX + radius * cos currentAngle)
              (centerY + radius * sin currentAngle)
              ((currentAngle * 180) / PI + 90).

Definition placementAt (pathType : string)
                       (centerX centerY radius angle progress : R)
  : Placement :=
  if pathType =? "arc" then
    arcPlacement centerX centerY radius angle progress
  else if pathType =? "circle" then
    let circleAngle := progress * 2 * PI in
    mkPlacement (centerX + radius * cos circleAngle)
                (centerY + radius * sin circleAngle)
                ((circleAngle * 180) / PI + 90)
  else if pathType =? "wave" then
    let waveCount := IZR (Z.max 1 (Zfloor (angle / 60))) in
    let waveProgress := progress * waveCount in
    let waveIndex := IZR (Zfloor waveProgress) in
    let waveFraction := waveProgress - waveIndex in
    let waveX :=
      centerX + (waveIndex - waveCount / 2) * (radius * 2 / waveCount) in
    let nextWaveX :=
      centerX + (waveIndex + 1 - waveCount / 2) * (radius * 2 / waveCount) in
    let waveRadius := radius * 0.3 in
    mkPlacement (waveX + waveFraction * (nextWaveX - waveX))
                (centerY + sin (waveFraction * PI) * waveRadius)
                (cos (waveFraction * PI) * 45)
  else if pathType =? "spiral" then
    let spiralTurns := 3 in
    let spiralProgress := progress * spiralTurns * 2 * PI in
    let spiralRadius := radius * 0.8 * progress in
    mkPlacement (centerX + spiralRadius * cos spiralProgress)
                (centerY + spiralRadius * sin spiralProgress)
                ((spiralProgress * 180) / PI + 90)
  else if pathType =? "zigzag" then
    let zigzagCount := IZR (Z.max 2 (Zfloor (angle / 45))) in
    let zigzagProgress := progress * zigzagCount in
    let zigzagIndex := Zfloor zigzagProgress in
    let zigzagFraction := zigzagProgress - IZR zigzagIndex in
    let startX := centerX - radius in
    let endX := centerX + radius in
    let zigzagHeight := radius * 0.4 in
    mkPlacement (startX + progress * (endX - startX))
                (centerY
                 + (if Z.even zigzagIndex then - zigzagHeight
                    else zigzagHeight) * (1 - zigzagFraction))
                0
  else if pathType =? "heart" then
    let heartAngle := progress * 2 * PI in
    let heartScale := radius / 50 in
    let heartX := 16 * (sin heartAngle) ^ 3 in
    let heartY :=
      - (13 * cos heartAngle - 5 * cos (2 * heartAngle)
         - 2 * cos (3 * heartAngle) - cos (4 * heartAngle)) in
    mkPlacement (centerX + heartX * heartScale)
                (centerY + heartY * heartScale)
                (atan2 (cos heartAngle) (- sin heartAngle) * 180 / PI)
  else if pathType =? "star" then
    let starPoints := 5 in
    let starAngle := progress * 2 * PI in
    let starIndex := Zfloor (starAngle / (2 * PI / starPoints)) in
    let starFraction :=
      jsRem starAngle (2 * PI / starPoints) / (2 * PI / starPoints) in
    let outerRadius := radius in
    let innerRadius := radius * 0.4 in
    let currentRadius :=
      if Z.even starIndex then outerRadius else innerRadius in
    let nextRadius :=
      if Z.even starIndex then innerRadius else outerRadius in
    let angle1 := IZR starIndex * (2 * PI / starPoints) in
    let angle2 := (IZR starIndex + 1) * (2 * PI / starPoints) in
    let radius1 := currentRadius in
    let radius2 := nextRadius in
    let interpolatedRadius := radius1 + starFraction * (radius2 - radius1) in
    let interpolatedAngle := angle1 + starFraction * (angle2 - angle1) in
    mkPlacement (centerX + interpolatedRadius * cos interpolatedAngle)
                (centerY + interpolatedRadius * sin interpolatedAngle)
                ((interpolatedAngle * 180) / PI + 90)
  else
    (* Default to arc calculation for custom and other paths *)
    arcPlacement centerX centerY radius angle progress.

(** [index / Math.max(totalChars - 1, 1)] *)
Definition progressOf (index totalChars : nat) : R :=
  INR index / Rmax (INR totalChars - 1) 1.

Definition getPositionAndRotation (textLayer : TextLayer.t)
                                  (index totalChars : nat) : Placement :=
  let progress := progressOf index totalChars in
  (* Use the stored path type for accurate rendering *)
  let pathType :=
    if TextLayer.warpPathType textLayer =? ""
    then "arc"%string else TextLayer.warpPathType textLayer in
  placementAt pathType
              (TextLayer.x textLayer) (TextLayer.y textLayer)
              (TextLayer.warpRadius textLayer) (TextLayer.warpAngle textLayer)
              progress.

(** The characters of a warped layer with their placements; [None] is the
    [null] of a layer that is not warped or has no path. *)
Definition renderWarpedText (textLayer : TextLayer.t)
  : option (list (ascii * Placement)) :=
  if negb (TextLayer.isWarped textLayer) || noPath (TextLayer.warpPath textLayer)
  then None
  else
    let chars := list_ascii_of_string (TextLayer.text textLayer) in
    Some (map (fun ic =>
                 (snd ic,
                  getPositionAndRotation textLayer (fst ic) (List.length chars)))
              (combine (seq 0 (List.length chars)) chars)).

End Geometry.

(** ** The stage and the spacing hints ([KonvaCanvas]) *)

Section Stage.
Local Open Scope R_scope.

Definition maxWidth : R := 800.
Definition maxHeight : R := 600.

(** The canvas size that fits the image: the scale is
    [Math.min(maxWidth / imageWidth, maxHeight / imageHeight)]. *)
Definition scale (props : Props) : R :=
  let scaleX := maxWidth / IZR (imageWidth props) in
  let scaleY := maxHeight / IZR (imageHeight props) in
  Rmin scaleX scaleY.

Definition canvasWidth (props : Props) : R :=
  IZR (imageWidth props) * scale props.

Definition canvasHeight (props : Props) : R :=
  IZR (imageHeight props) * scale props.

(** The two shapes of a spacing hint.  The label of a [HintText] is the
    number in front of [px]. *)
Inductive HintElement : Type :=
| HintLine (points : list R) (stroke : string) (opacity : R)
| HintText (x y : R) (label : Z) (fill : string) (opacity : R).

(** [Math.round]: the nearest integer, a half going up. *)
Definition round (v : R) : Z := Zfloor (v + 1 / 2).

(** [currentLayer.spacingHintColor || '#3B82F6'] *)
Definition hintColor (layer : TextLayer.t) : string :=
  if TextLayer.spacingHintColor layer =? ""
  then "#3B82F6"%string else TextLayer.spacingHintColor layer.

(** [currentLayer.spacingHintOpacity || 0.6] *)
Definition hintOpacity (layer : TextLayer.t) : R :=
  if Req_dec_T (TextLayer.spacingHintOpacity layer) 0
  then 0.6 else TextLayer.spacingHintOpacity layer.

(** The pairs [(a[i], a[i + 1])] for [i] from [0] to [a.length - 2]. *)
Definition neighbours (a : list TextLayer.t) : list (TextLayer.t * TextLayer.t) :=
  combine a (tl a).

Definition horizontalHint (pair : TextLayer.t * TextLayer.t)
  : list HintElement :=
  let currentLayer := fst pair in
  let nextLayer := snd pair in
  let spacing := TextLayer.x nextLayer - TextLayer.x currentLayer in
  let centerX := TextLayer.x currentLayer + spacing / 2 in
  let centerY := (TextLayer.y currentLayer + TextLayer.y nextLayer) / 2 in
  [HintLine [centerX - 20; centerY; centerX + 20; centerY]
            (hintColor currentLayer) (hintOpacity currentLayer);
   HintText centerX (centerY - 15) (round spacing)
            (hintColor currentLayer) (hintOpacity currentLayer)].

Definition verticalHint (pair : TextLayer.t * TextLayer.t)
  : list HintElement :=
  let currentLayer := fst pair in
  let nextLayer := snd pair in
  let spacing := TextLayer.y nextLayer - TextLayer.y currentLayer in
  let centerX := (TextLayer.x currentLayer + TextLayer.x nextLayer) / 2 in
  let centerY := TextLayer.y currentLayer + spacing / 2 in
  [HintLine [centerX; centerY - 20; centerX; centerY + 20]
            (hintColor currentLayer) (hintOpacity currentLayer);
   HintText (centerX + 15) centerY (round spacing)
            (hintColor currentLayer) (hintOpacity currentLayer)].

(** [renderSpacingHints()]; [None] is its [null]. *)
Definition renderSpacingHints (textLayers : list TextLayer.t)
  : option (list HintElement) :=
  let layersWithHints := filter TextLayer.showSpacingHints textLayers in
  if (List.length layersWithHints <? 2)%nat then None
  else
    (* Sort layers by x position for horizontal spacing hints *)
    let sortedByX := sortBy TextLayer.x layersWithHints in
    (* Sort layers by y position for vertical spacing hints *)
    let sortedByY := sortBy TextLayer.y layersWithHints in
    Some (flat_map horizontalHint (neighbours sortedByX)
          ++ flat_map verticalHint (neighbours sortedByY)).

End Stage.

(** ** Custom fonts ([uploadCustomFont], [removeCustomFont]) *)

(** The [File] that the font input hands over. *)
Module File.

Record t : Type := mk {
  name : string;
  type : string;
  size : N
}.

End File.

(** [toLowerCase] on the letters A to Z; the other characters of a file
    name are taken as they are. *)
Definition toLowerCaseChar (c : ascii) : ascii :=
  let n := nat_of_ascii c in
  if ((65 <=? n) && (n <=? 90))%nat then ascii_of_nat (n + 32) else c.

Fixpoint toLowerCase (s : string) : string :=
  match s with
  | EmptyString => EmptyString
  | String c rest => String (toLowerCaseChar c) (toLowerCase rest)
  end.

(** [s.split(separator)] for a separator of one character. *)
Fixpoint split (separator : ascii) (s : string) : list string :=
  match s with
  | EmptyString => [EmptyString]
  | String c rest =>
      if (c =? separator)%char then EmptyString :: split separator rest
      else match split separator rest with
           | segment :: segments => String c segment :: segments
           | [] => [String c EmptyString]
           end
  end.

(** [a.pop()]: the last element, [undefined] for an empty array. *)
Fixpoint pop (a : list string) : option string :=
  match a with
  | [] => None
  | [v] => Some v
  | _ :: rest => pop rest
  end.

(** [a.includes(v)] *)
Definition includes (a : list string) (v : string) : bool :=
  existsb (String.eqb v) a.

(** [v || fallback] on strings: [undefined] and the empty string are
    falsy. *)
Definition orString (v : option string) (fallback : string) : string :=
  match v with
  | Some EmptyString | None => fallback
  | Some w => w
  end.

(** [[^/.]+$] to the end of [s], the [+] apart. *)
Fixpoint noSlashOrDot (s : string) : bool :=
  match s with
  | EmptyString => true
  | String c rest =>
      negb (c =? "/")%char && negb (c =? ".")%char && noSlashOrDot rest
  end.

(** Whether [/\.[^/.]+$/] matches at the start of [s]. *)
Definition matchesExtension (s : string) : bool :=
  match s with
  | String c (String _ _ as tail) => (c =? ".")%char && noSlashOrDot tail
  | _ => false
  end.

(** [name.replace(/\.[^/.]+$/, '')]: the first place where the pattern
    matches, from the left, is cut off with all that follows. *)
Fixpoint removeExtension (s : string) : string :=
  match s with
  | EmptyString => EmptyString
  | String c rest =>
      if matchesExtension (String c rest) then EmptyString
      else String c (removeExtension rest)
  end.

Definition validTypes : list string :=
  ["font/ttf"; "font/otf"; "font/woff"; "font/woff2";
   "application/x-font-ttf"; "application/x-font-otf"].

(** What becomes of the [FontFace] made from the file. *)
Inductive FontFaceResult : Type :=
| Loads
| LoadFails (message : string)
| ConstructorThrows.

(** How the promise of [uploadCustomFont] settles. *)
Inductive Upload : Type :=
| Rejected (message : string)
| Resolved (newFont : CustomFont.t).

(** [uploadCustomFont(file)] on the [customFonts] of the editor.  [read]
    is the data URL that the [FileReader] delivers, [None] when it fails;
    [fontFace] tells what the browser makes of the font. *)
Definition uploadCustomFont (file : File.t) (read : option string)
                            (fontFace : FontFaceResult)
                            (customFonts : list CustomFont.t)
  : Upload * list CustomFont.t :=
  (* Validate file type *)
  let fileExtension := pop (split "." (toLowerCase (File.name file))) in
  let isValidType :=
    includes validTypes (File.type file)
    || includes ["ttf"; "otf"; "woff"; "woff2"] (orString fileExtension "") in
  if negb isValidType then
    (Rejected
       "Invalid font file type. Please upload TTF, OTF, WOFF, or WOFF2 files.",
     customFonts)
  (* Validate file size (max 10MB) *)
  else if (10 * 1024 * 1024 <? File.size file)%N then
    (Rejected "Font file too large. Maximum size is 10MB.", customFonts)
  else
    match read with
    | None => (Rejected "Failed to read font file.", customFonts)
    | Some fontUrl =>
        let fontName := removeExtension (File.name file) in
        let fontType := orString fileExtension "ttf" in
        match fontFace with
        | Loads =>
            let newFont := CustomFont.mk fontName fontUrl fontType in
            (Resolved newFont, customFonts ++ [newFont])
        | LoadFails message =>
            (Rejected ("Failed to load font: " ++ message), customFonts)
        | ConstructorThrows =>
            (Rejected "Failed to process font file.", customFonts)
        end
    end.

(** [removeCustomFont(fontName)] on the [customFonts] of the editor. *)
Definition removeCustomFont (fontName : string)
                            (customFonts : list CustomFont.t)
  : list CustomFont.t :=
  filter (fun font => negb (CustomFont.name font =? fontName)) customFonts.

(** ** Sessions: the handlers as events *)

(** The handlers that hand a new collection to [addToHistory]. *)
Inductive Mutation : Type :=
| AddText (now : N)
| UpdateTextStyle (p : StylePatch.t)
| UpdateTextShadow (p : ShadowPatch.t)
| ChangeField (p : FieldPatch.t)
| DeleteText
| MoveLayerUp
| MoveLayerDown
| BringToFront
| SendToBack
| ToggleLock
| DuplicateLayer (now : N)
| ToggleWarp
| UpdateWarpProperty (property : WarpProperty) (value : R)
| SetWarpPath (pathType : PathType)
| ToggleSpacingHints
| UpdateSpacingHintColor (color : string)
| UpdateSpacingHintOpacity (opacity : R)
| DistributeLayersEvenly
| DistributeLayersVertically
| AlignLayersVertically
| AlignLayersHorizontally.

Definition perform (m : Mutation) (st : EditorState) : option EditorState :=
  match m with
  | AddText now => Some (addText now st)
  | UpdateTextStyle p => Some (updateTextStyle p st)
  | UpdateTextShadow p => Some (updateTextShadow p st)
  | ChangeField p => Some (onChangeField p st)
  | DeleteText => Some (deleteText st)
  | MoveLayerUp => moveLayerUp st
  | MoveLayerDown => moveLayerDown st
  | BringToFront => Some (bringToFront st)
  | SendToBack => Some (sendToBack st)
  | ToggleLock => Some (toggleLock st)
  | DuplicateLayer now => Some (duplicateLayer now st)
  | ToggleWarp => Some (toggleWarp st)
  | UpdateWarpProperty property value =>
      Some (updateWarpProperty property value st)
  | SetWarpPath pathType => Some (setWarpPath pathType st)
  | ToggleSpacingHints => Some (toggleSpacingHints st)
  | UpdateSpacingHintColor color => Some (updateSpacingHintColor color st)
  | UpdateSpacingHintOpacity opacity =>
      Some (updateSpacingHintOpacity opacity st)
  | DistributeLayersEvenly => distributeLayersEvenly st
  | DistributeLayersVertically => distributeLayersVertically st
  | AlignLayersVertically => Some (alignLayersVertically st)
  | AlignLayersHorizontally => Some (alignLayersHorizontally st)
  end.

(** The guard of each handler: whether, run from [st], it reaches its call
    of [addToHistory]. *)
Definition singleSelection (st : EditorState) : bool :=
  hasSelection st && (JsSet.size (selectedIds st) =? 1)%nat.

Definition selectionFound (st : EditorState) : bool :=
  match find (idIs (JsSet.first (selectedIds st))) (textLayers st) with
  | Some _ => true
  | None => false
  end.

Definition selectionIndex (st : EditorState) : Z :=
  JsArray.findIndex (idIs (JsSet.first (selectedIds st))) (textLayers st).

Definition records (m : Mutation) (st : EditorState) : bool :=
  match m with
  | AddText _ => true
  | UpdateTextStyle _ | UpdateTextShadow _ | ChangeField _ | DeleteText
  | UpdateWarpProperty _ _ | ToggleSpacingHints
  | UpdateSpacingHintColor _ | UpdateSpacingHintOpacity _ =>
      hasSelection st
  | MoveLayerUp => singleSelection st && (selectionIndex st >? 0)%Z
  | MoveLayerDown =>
      singleSelection st
      && (selectionIndex st <? Z.of_nat (List.length (textLayers st)) - 1)%Z
  | BringToFront | SendToBack | DuplicateLayer _ | ToggleWarp
  | SetWarpPath _ =>
      singleSelection st && selectionFound st
  | ToggleLock =>
      hasSelection st && (0 <? List.length (selectedLayers st))%nat
  | DistributeLayersEvenly | DistributeLayersVertically =>
      (3 <=? JsSet.size (selectedIds st))%nat
  | AlignLayersVertically | AlignLayersHorizontally =>
      (2 <=? JsSet.size (selectedIds st))%nat
  end.

(** The gestures that only move the selection. *)
Inductive Gesture : Type :=
| SelectLayer (id : string) (multiSelect : bool)
| ClearSelection
| CanvasClick (textLayer : TextLayer.t) (isMultiSelect : bool).

Definition gesture (g : Gesture) (st : EditorState) : EditorState :=
  match g with
  | SelectLayer id multiSelect => selectLayer id multiSelect st
  | ClearSelection => clearSelection st
  | CanvasClick textLayer isMultiSelect =>
      canvasClick textLayer isMultiSelect st
  end.

Inductive Action : Type :=
| Mutate (m : Mutation)
| Pick (g : Gesture).

(** One event: the handler, then the effect of the render that follows,
    which drops the selected ids that left the collection. *)
Definition act (a : Action) (st : EditorState) : option EditorState :=
  match a with
  | Mutate m => option_map reconcileSelection (perform m st)
  | Pick g => Some (reconcileSelection (gesture g st))
  end.

Fixpoint run (actions : list Action) (st : EditorState) : option EditorState :=
  match actions with
  | [] => Some st
  | a :: rest =>
      match act a st with
      | Some st' => run rest st'
      | None => None
      end
  end.

(** The number of mutating operations of a run. *)
Fixpoint mutations (actions : list Action) : nat :=
  match actions with
  | [] => 0
  | Mutate _ :: rest => S (mutations rest)
  | Pick _ :: rest => mutations rest
  end.

(** Every mutating operation of the run reaches [addToHistory]. *)
Fixpoint allRecord (actions : list Action) (st : EditorState) : bool :=
  match actions with
  | [] => true
  | a :: rest =>
      (match a with
       | Mutate m => records m st
       | Pick _ => true
       end)
      && match act a st with
         | Some st' => allRecord rest st'
         | None => false
         end
  end.

(** [n] presses of undo. *)
Fixpoint undoTimes (n : nat) (st : EditorState) : option EditorState :=
  match n with
  | O => Some st
  | S k =>
      match undo st with
      | Some st' => undoTimes k st'
      | None => None
      end
  end.

(** A run, then as many presses of undo as it has mutating operations. *)
Definition thenUndo (actions : list Action) (st : EditorState)
  : option EditorState :=
  match run actions st with
  | Some st' => undoTimes (mutations actions) st'
  | None => None
  end.

(** The bounds that the history keeps: at most twenty snapshots, and a
    cursor inside them. *)
Definition historyBounded (st : EditorState) : Prop :=
  List.length (history st) <= 20 /\ currentStep st < List.length (history st).

(** The cursor addresses the live collection, and no replay is pending. *)
Definition settled (st : EditorState) : Prop :=
  isUndoRedoAction st = false /\
  nth_error (history st) (currentStep st) = Some (textLayers st).

(** The point at [degrees] on the circle of [radius] around the anchor. *)
Definition pointAtAngle (centerX centerY radius degrees : R) : R * R :=
  ((centerX + radius * cos (degrees * PI / 180))%R,
   (centerY + radius * sin (degrees * PI / 180))%R).

Definition position (p : Placement) : R * R := (px p, py p).

(** The arithmetic mean of a list of coordinates. *)
Definition mean (values : list R) : R :=
  (fold_right Rplus 0 values / INR (List.length values))%R.

(** Everything that happens to the editor and its store: the actions
    above, undo and redo, the canvas gestures that write positions, the
    reset, a save (by the button or by the autosave timer, which build the
    same request), and the mount of a new editor over the store, which
    starts from the state of [useState] and, when it is given an image
    url, loads. *)
Inductive Event : Type :=
| Do (a : Action)
| Undo
| Redo
| DragEnd (textLayer : TextLayer.t) (nodeX nodeY : R)
| TransformEnd (textLayer : TextLayer.t)
               (nodeX nodeY nodeRotation nodeScaleX nodeScaleY : R)
| Reset
| Save (writable : bool) (stamp now : N) (props : Props)
| ClearSaved
| Mount (props : Props).

Definition handle (e : Event) (st : EditorState) : option EditorState :=
  match e with
  | Do a => act a st
  | Undo => option_map reconcileSelection (undo st)
  | Redo => option_map reconcileSelection (redo st)
  | DragEnd textLayer nodeX nodeY =>
      Some (reconcileSelection (onDragEnd textLayer nodeX nodeY st))
  | TransformEnd textLayer nodeX nodeY nodeRotation nodeScaleX nodeScaleY =>
      Some (reconcileSelection
              (onTransformEnd textLayer nodeX nodeY nodeRotation
                              nodeScaleX nodeScaleY st))
  | Reset => Some (resetDesign st)
  | Save writable stamp now props =>
      Some (manualSave writable stamp now props st)
  | ClearSaved => Some (clearSavedData st)
  | Mount props =>
      (* Load saved data on component mount: [if (isClient && imageUrl)] *)
      let mounted := initialState (localStorage st) in
      if imageUrl props =? "" then Some mounted
      else Some (snd (loadFromLocalStorage props mounted))
  end.

Fixpoint session (events : list Event) (st : EditorState)
  : option EditorState :=
  match events with
  | [] => Some st
  | e :: rest =>
      match handle e st with
      | Some st' => session rest st'
      | None => None
      end
  end.

(** The bounds on the history of a stored record, as the load reads
    it. *)
Definition storeBounded (store : option StoredItem) : Prop :=
  match store with
  | Some (Parsed d) =>
      List.length (orElse (SaveData.history d) [[]]) <= 20 /\
      orElse (SaveData.currentStep d) 0
      < List.length (orElse (SaveData.history d) [[]])
  | _ => True
  end.

(** ** Predicates of the properties *)

(** The part of the state that [addToHistory], [undo] and [redo] own. *)
Definition historyView (st : EditorState)
  : list (list TextLayer.t) * nat * bool :=
  (history st, currentStep st, isUndoRedoAction st).

(** [st'] is [st] after one call of [addToHistory] with the collection
    that [st'] shows. *)
Definition recorded (st st' : EditorState) : Prop :=
  historyView st' = historyView (addToHistory (textLayers st') st).

(** Gestures on the selection, each followed by the effect of its
    render. *)
Definition picks (gestures : list Gesture) (st : EditorState) : EditorState :=
  fold_left (fun s g => reconcileSelection (gesture g s)) gestures
            (reconcileSelection st).

(** The image identity of a save request is that of the session. *)
Definition sameImage (data : SaveRequest) (props : Props) : Prop :=
  req_imageUrl data = imageUrl props /\
  req_imageWidth data = imageWidth props /\
  req_imageHeight data = imageHeight props.

(** The record [d] with its version set to [v]. *)
Definition withVersion (v : string) (d : SaveData.t) : SaveData.t :=
  SaveData.mk (SaveData.textLayers d) (SaveData.history d)
              (SaveData.currentStep d) (SaveData.imageUrl d)
              (SaveData.imageWidth d) (SaveData.imageHeight d)
              (SaveData.timestamp d) v.

(** What a clone keeps of its source: every field but the id, the
    position and the lock. *)
Definition sameContent (a b : TextLayer.t) : Prop :=
  TextLayer.text a = TextLayer.text b /\
  TextLayer.style a = TextLayer.style b /\
  TextLayer.rotation a = TextLayer.rotation b /\
  TextLayer.scaleX a = TextLayer.scaleX b /\
  TextLayer.scaleY a = TextLayer.scaleY b /\
  TextLayer.isWarped a = TextLayer.isWarped b /\
  TextLayer.warpPath a = TextLayer.warpPath b /\
  TextLayer.warpPathType a = TextLayer.warpPathType b /\
  TextLayer.warpRadius a = TextLayer.warpRadius b /\
  TextLayer.warpAngle a = TextLayer.warpAngle b /\
  TextLayer.warpSpacing a = TextLayer.warpSpacing b /\
  TextLayer.showSpacingHints a = TextLayer.showSpacingHints b /\
  TextLayer.spacingHintColor a = TextLayer.spacingHintColor b /\
  TextLayer.spacingHintOpacity a = TextLayer.spacingHintOpacity b /\
  TextLayer.customFonts a = TextLayer.customFonts b.

(** [b] on the selected layers, the others as they were. *)
Definition lockedTo (b : bool) (sel : JsSet.t) (layer layer' : TextLayer.t)
  : Prop :=
  if JsSet.has sel (TextLayer.id layer)
  then layer' = TextLayer.set_locked b layer
  else layer' = layer.

(** The coordinate written by [setKey] is [v] on the selected layers; the
    other layers are as they were. *)
Definition alignedTo (setKey : R -> TextLayer.t -> TextLayer.t) (v : R)
                     (sel : JsSet.t) (layer layer' : TextLayer.t) : Prop :=
  if JsSet.has sel (TextLayer.id layer)
  then layer' = setKey v layer
  else layer' = layer.

(** The selected layers stand, in the order of [sorted], at [start],
    [start + step], [start + 2 step], ...; the other layers are as they
    were. *)
Definition spreadTo (setKey : R -> TextLayer.t -> TextLayer.t)
                    (sorted : list TextLayer.t) (start step : R)
                    (sel : JsSet.t) (layer layer' : TextLayer.t) : Prop :=
  if JsSet.has sel (TextLayer.id layer)
  then exists (i : nat),
         nth_error sorted i = Some layer /\
         layer' = setKey (start + INR i * step)%R layer
  else layer' = layer.

(** The placement is no further than [radius] from the anchor on each
    axis. *)
Definition withinRadius (centerX centerY radius : R) (p : Placement) : Prop :=
  (Rabs (px p - centerX) <= Rabs radius)%R /\
  (Rabs (py p - centerY) <= Rabs radius)%R.

(** ** Sample states *)

(** An image and a request to save one layer for it. *)
Definition sampleProps : Props := mkProps "blob:photo" 800 600.

Definition sampleLayer : TextLayer.t :=
  TextLayer.mk "text-5" 50 50 "Double click to edit" defaultTextStyle
               0 1 1 false false [] "arc" 100 180 1 false "#3B82F6" 0.6 [].

Definition sampleRequest : SaveRequest :=
  mkSaveRequest [sampleLayer] [[]; [sampleLayer]] 1 "blob:photo" 800 600.

(** A record with another version string than the ["1.0"] that the editor
    writes. *)
Definition futureRecord : SaveData.t :=
  SaveData.mk (Some [sampleLayer]) (Some [[]; [sampleLayer]]) (Some 1)
              "blob:photo" 800 600 7 "2.0".

(** One layer, selected. *)
Definition oneLayerSelected : EditorState :=
  mkState [sampleLayer] ["text-5"] defaultTextStyle [[]; [sampleLayer]] 1
          false None None.

(** A second layer, locked, above the first, and selected. *)
Definition lockedLayer : TextLayer.t :=
  sampleLayer |> TextLayer.set_id "text-6" |> TextLayer.set_locked true.

Definition lockedLayerSelected : EditorState :=
  mkState [sampleLayer; lockedLayer] ["text-6"] defaultTextStyle
          [[]; [sampleLayer]; [sampleLayer; lockedLayer]] 2 false None None.

(** Three layers at y = 10, 20, 30 and at x = 10, 20, 30, all selected. *)
Definition layerAt (id : string) (x y : R) : TextLayer.t :=
  sampleLayer |> TextLayer.set_id id |> TextLayer.set_x x |> TextLayer.set_y y.

Definition threeLayers : list TextLayer.t :=
  [layerAt "text-1" 30 10; layerAt "text-2" 10 20; layerAt "text-3" 20 30].

Definition threeSelected : EditorState :=
  mkState threeLayers ["text-1"; "text-2"; "text-3"] defaultTextStyle
          [[]; threeLayers] 1 false None None.

(** A session of three recorded operations: add a layer, lock it,
    duplicate it. *)
Definition shortSession : list Action :=
  [Mutate (AddText 1); Mutate ToggleLock; Mutate (DuplicateLayer 2)].

(** Twenty-one layers added one after the other. *)
Definition twentyOneAdds : list Action :=
  map (fun n => Mutate (AddText (N.of_nat n))) (seq 1 21).

(** One layer added at mount, and the state that undo makes of it. *)
Definition oneLayerAdded : EditorState := addText 1 (initialState None).

Definition afterUndo : EditorState :=
  oneLayerAdded |> setIsUndoRedoAction true
                |> setCurrentStep 0
                |> setTextLayers []
                |> setSelectedIds [].

(** A history at its cap, with the cursor on its last snapshot. *)
Definition fullHistory : EditorState :=
  mkState [] [] defaultTextStyle (repeat [] 20) 19 false None None.

(** The state after an undo and an addition that the replay flag kept
    out of the history. *)
Definition afterUndoAndAdd : EditorState :=
  reconcileSelection (addText 2 afterUndo).

(** The selection is a set of ids of the collection. *)
Definition selectionValid (st : EditorState) : Prop :=
  NoDup (selectedIds st) /\
  forall id, In id (selectedIds st) ->
             In id (map TextLayer.id (textLayers st)).

(** A layer of three characters, warped along a circle. *)
Definition warpedLayer : TextLayer.t :=
  sampleLayer |> TextLayer.set_text "abc"
              |> TextLayer.set_isWarped true
              |> TextLayer.set_warpPath (warpPathFor circle 50 50 100 180)
              |> TextLayer.set_warpPathType "circle".

(** A mount over the design saved for another image. *)
Definition otherImage : Props := mkProps "blob:other" 800 600.

Definition mountedOverSaved : EditorState :=
  initialState (Some (Parsed futureRecord)).

(** A history of 21 snapshots with the cursor on the last one, as only a
    stored record that the editor did not write can give. *)
Definition cursorPastCap : EditorState :=
  mkState [sampleLayer] [] defaultTextStyle
          (repeat [] 20 ++ [[sampleLayer]]) 20 false None None.

(** * Properties *)

(** ** The definitions on small inputs *)

Example freshId_5 : freshId 5 = "text-5".
Proof. reflexivity. Qed.

Example set_keeps_first_insertion :
  JsSet.ofList ["a"; "b"; "a"; "c"] = ["a"; "b"; "c"].
Proof. reflexivity. Qed.

Example select_toggles :
  selectedIds (selectLayer "text-5" true oneLayerSelected) = [] /\
  selectedIds (selectLayer "text-6" true oneLayerSelected)
  = ["text-5"; "text-6"] /\
  selectedIds (selectLayer "text-6" false oneLayerSelected) = ["text-6"].
Proof. repeat split. Qed.

Example reconcile_drops_stale_id :
  selectedIds
    (reconcileSelection (setSelectedIds ["text-5"; "gone"] oneLayerSelected))
  = ["text-5"].
Proof. reflexivity. Qed.

Example findIndex_found_and_missing :
  JsArray.findIndex (String.eqb "b") ["a"; "b"; "c"] = 1%Z /\
  JsArray.findIndex (String.eqb "z") ["a"; "b"; "c"] = (-1)%Z.
Proof. split; reflexivity. Qed.

(** With a selected id that names no layer, [findIndex] is [-1], the
    guard [-1 < length - 1] of [moveLayerDown] passes, and the swap
    stores [undefined] at index 0. *)
Example moveLayerDown_stale_selection :
  moveLayerDown (setSelectedIds ["gone"] oneLayerSelected) = None /\
  moveLayerUp (setSelectedIds ["gone"] oneLayerSelected)
  = Some (setSelectedIds ["gone"] oneLayerSelected).
Proof. split; reflexivity. Qed.

Example history_after_three_operations :
  option_map (fun st => (List.length (history st), currentStep st))
             (run shortSession (initialState None)) = Some (4, 3).
Proof. reflexivity. Qed.

Example deleteText_clears_selection :
  textLayers (deleteText oneLayerSelected) = [] /\
  selectedIds (deleteText oneLayerSelected) = [].
Proof. split; reflexivity. Qed.

(** ** The history manager *)

Section History.

Variable newLayers : list TextLayer.t.
Variable st : EditorState.

Lemma addToHistory_replay :
  isUndoRedoAction st = true ->
  addToHistory newLayers st = setIsUndoRedoAction false st.
Proof. unfold addToHistory. intros ->. reflexivity. Qed.

Lemma addToHistory_textLayers :
  textLayers (addToHistory newLayers st) = textLayers st.
Proof. unfold addToHistory. destruct (isUndoRedoAction st); reflexivity. Qed.

Lemma addToHistory_selectedIds :
  selectedIds (addToHistory newLayers st) = selectedIds st.
Proof. unfold addToHistory. destruct (isUndoRedoAction st); reflexivity. Qed.

Lemma addToHistory_clears_flag :
  isUndoRedoAction (addToHistory newLayers st) = false.
Proof.
  unfold addToHistory. destruct (isUndoRedoAction st) eqn:E; simpl; auto.
Qed.

(** The truncated history with the new snapshot on top. *)
Lemma pushed_length :
  currentStep st < List.length (history st) ->
  List.length (firstn (currentStep st + 1) (history st) ++ [newLayers])
  = currentStep st + 2.
Proof.
  intros Hc. rewrite length_app, firstn_length_le; simpl; lia.
Qed.

Lemma addToHistory_push :
  isUndoRedoAction st = false ->
  currentStep st + 2 <= 20 ->
  currentStep st < List.length (history st) ->
  history (addToHistory newLayers st)
  = firstn (currentStep st + 1) (history st) ++ [newLayers]
  /\ currentStep (addToHistory newLayers st) = currentStep st + 1.
Proof.
  intros Hf Hcap Hc. unfold addToHistory. rewrite Hf. simpl.
  rewrite pushed_length by assumption.
  destruct (Nat.ltb_spec 20 (currentStep st + 2)); [lia|].
  split; [reflexivity | lia].
Qed.

Lemma addToHistory_evict :
  isUndoRedoAction st = false ->
  currentStep st = 19 ->
  List.length (history st) = 20 ->
  history (addToHistory newLayers st) = tl (history st) ++ [newLayers]
  /\ currentStep (addToHistory newLayers st) = 19.
Proof.
  intros Hf Hc Hl. unfold addToHistory. rewrite Hf. simpl.
  assert (Hfull : firstn (currentStep st + 1) (history st) = history st).
  { apply firstn_all2. lia. }
  rewrite Hfull, length_app, Hl, Hc. simpl.
  split; [|reflexivity].
  destruct (history st); [discriminate | reflexivity].
Qed.

End History.

(** C2.  A call of [addToHistory] from a state within the history bounds
    leaves at most 20 snapshots.  When the call records (no replay is
    pending), the cursor addresses the new snapshot, which is the last of
    the sequence; when the push onto the truncated sequence would make 21
    entries, the result is the old sequence without its oldest entry,
    in the same order, followed by the new snapshot; otherwise it is the
    sequence up to the cursor followed by the new snapshot. *)
Theorem addToHistory_cap :
  forall (newLayers : list TextLayer.t) (st : EditorState),
    historyBounded st ->
    let pushed := firstn (currentStep st + 1) (history st) ++ [newLayers] in
    let st' := addToHistory newLayers st in
    List.length (history st') <= 20 /\
    (isUndoRedoAction st = false ->
       nth_error (history st') (currentStep st') = Some newLayers /\
       S (currentStep st') = List.length (history st') /\
       (20 < List.length pushed ->
          exists oldest rest,
            history st = oldest :: rest /\
            history st' = rest ++ [newLayers]) /\
       (List.length pushed <= 20 -> history st' = pushed)).
Proof.
  intros newLayers st [Hlen Hcur] pushed st'.
  assert (Hp : List.length pushed = currentStep st + 2)
    by (apply pushed_length; assumption).
  destruct (isUndoRedoAction st) eqn:Hf.
  - split; [|discriminate].
    subst st'. rewrite addToHistory_replay by assumption. simpl. assumption.
  - destruct (Nat.eq_dec (currentStep st) 19) as [H19 | H19].
    + assert (Hl : List.length (history st) = 20) by lia.
      destruct (addToHistory_evict newLayers st Hf H19 Hl) as [Hh Hc].
      fold st' in Hh, Hc.
      destruct (history st) as [|oldest rest] eqn:Hhist; [discriminate|].
      simpl in Hl, Hh.
      assert (Hrest : List.length rest = 19) by lia.
      assert (Hlen' : List.length (history st') = 20).
      { rewrite Hh, length_app. simpl. lia. }
      split; [lia|]. intros _. repeat split.
      * rewrite Hc, Hh, nth_error_app2 by lia.
        rewrite Hrest. reflexivity.
      * lia.
      * intros _. exists oldest, rest. split; [reflexivity | exact Hh].
      * lia.
    + assert (Hcap : currentStep st + 2 <= 20) by lia.
      destruct (addToHistory_push newLayers st Hf Hcap Hcur) as [Hh Hc].
      fold st' pushed in Hh, Hc.
      split; [rewrite Hh; lia|]. intros _. repeat split.
      * rewrite Hc, Hh. unfold pushed.
        rewrite nth_error_app2; rewrite firstn_length_le by lia; [|lia].
        replace (currentStep st + 1 - (currentStep st + 1)) with 0 by lia.
        reflexivity.
      * rewrite Hc, Hh. lia.
      * lia.
      * intros _. exact Hh.
Qed.

(** ** What a handler does to the history *)

Lemma addToHistory_view :
  forall newLayers st1 st2,
    historyView st1 = historyView st2 ->
    historyView (addToHistory newLayers st1)
    = historyView (addToHistory newLayers st2).
Proof.
  unfold historyView, addToHistory. intros newLayers st1 st2 H.
  destruct st1, st2. simpl in *. injection H as -> -> ->.
  destruct isUndoRedoAction1; reflexivity.
Qed.

(** The shape shared by the handlers: install, record, then touch fields
    that the history does not read. *)
Lemma commit_recorded :
  forall newLayers st st0 st',
    historyView st0 = historyView st ->
    textLayers st' = newLayers ->
    historyView st' = historyView (addToHistory newLayers st0) ->
    recorded st st'.
Proof.
  intros newLayers st st0 st' H0 Hl Hv. unfold recorded. rewrite Hl, Hv.
  apply addToHistory_view. exact H0.
Qed.

Ltac commit :=
  eapply commit_recorded; cycle 2;
  [ reflexivity
  | reflexivity
  | simpl; rewrite ?addToHistory_textLayers; reflexivity ].

Ltac guards :=
  repeat match goal with
         | H : (_ && _)%bool = true |- _ => apply andb_true_iff in H; destruct H
         | H : ?b = _ |- context [?b] => rewrite H
         end.

Lemma perform_records :
  forall m st st',
    records m st = true ->
    perform m st = Some st' ->
    recorded st st'.
Proof.
  intros m st st' Hr Hp.
  destruct m; unfold records in Hr; unfold perform in Hp;
    unfold singleSelection, selectionFound, selectionIndex in Hr.
  - injection Hp as <-. unfold addText. commit.
  - injection Hp as <-. unfold updateTextStyle. rewrite Hr. commit.
  - injection Hp as <-. unfold updateTextShadow. rewrite Hr. commit.
  - injection Hp as <-. unfold onChangeField. rewrite Hr. commit.
  - injection Hp as <-. unfold deleteText. rewrite Hr. commit.
  - revert Hp. unfold moveLayerUp. guards.
    destruct (JsArray.typed _); [|discriminate].
    intros Hp. injection Hp as <-. commit.
  - revert Hp. unfold moveLayerDown. guards.
    destruct (JsArray.typed _); [|discriminate].
    intros Hp. injection Hp as <-. commit.
  - injection Hp as <-. unfold bringToFront. guards.
    destruct (find _ _); [commit | discriminate].
  - injection Hp as <-. unfold sendToBack. guards.
    destruct (find _ _); [commit | discriminate].
  - injection Hp as <-. unfold toggleLock. unfold selectedLayers in Hr. guards.
    commit.
  - injection Hp as <-. unfold duplicateLayer. guards.
    destruct (find _ _); [commit | discriminate].
  - injection Hp as <-. unfold toggleWarp. guards.
    destruct (find _ _); [commit | discriminate].
  - injection Hp as <-. unfold updateWarpProperty. rewrite Hr. commit.
  - injection Hp as <-. unfold setWarpPath. guards.
    destruct (find _ _); [commit | discriminate].
  - injection Hp as <-. unfold toggleSpacingHints. rewrite Hr. commit.
  - injection Hp as <-. unfold updateSpacingHintColor. rewrite Hr. commit.
  - injection Hp as <-. unfold updateSpacingHintOpacity. rewrite Hr. commit.
  - unfold distributeLayersEvenly, distributeBy in Hp. rewrite Hr in Hp.
    destruct (hd_error _); [|discriminate].
    destruct (nth_error _ _); [|discriminate].
    destruct (_ =? 1)%nat; [discriminate|].
    injection Hp as <-. commit.
  - unfold distributeLayersVertically, distributeBy in Hp. rewrite Hr in Hp.
    destruct (hd_error _); [|discriminate].
    destruct (nth_error _ _); [|discriminate].
    destruct (_ =? 1)%nat; [discriminate|].
    injection Hp as <-. commit.
  - injection Hp as <-. unfold alignLayersVertically. rewrite Hr. commit.
  - injection Hp as <-. unfold alignLayersHorizontally. rewrite Hr. commit.
Qed.

Lemma perform_skips :
  forall m st st',
    records m st = false ->
    perform m st = Some st' ->
    historyView st' = historyView st /\ textLayers st' = textLayers st.
Proof.
  intros m st st' Hr Hp.
  destruct m; unfold records in Hr; unfold perform in Hp;
    unfold singleSelection, selectionFound, selectionIndex, selectedLayers in Hr;
    try discriminate;
    try (injection Hp as <-);
    try (unfold updateTextStyle, updateTextShadow, onChangeField, deleteText,
           updateWarpProperty, toggleSpacingHints, updateSpacingHintColor,
           updateSpacingHintOpacity, alignLayersVertically,
           alignLayersHorizontally;
         rewrite Hr; split; reflexivity).
  - revert Hp. unfold moveLayerUp.
    destruct (hasSelection st && _)%bool eqn:Hg; simpl in Hr.
    + rewrite Hr. intros [= <-]. split; reflexivity.
    + intros [= <-]. split; reflexivity.
  - revert Hp. unfold moveLayerDown.
    destruct (hasSelection st && _)%bool eqn:Hg; simpl in Hr.
    + rewrite Hr. intros [= <-]. split; reflexivity.
    + intros [= <-]. split; reflexivity.
  - unfold bringToFront.
    destruct (hasSelection st && _)%bool eqn:Hg; simpl in Hr;
      [|split; reflexivity].
    destruct (find _ _); [discriminate | split; reflexivity].
  - unfold sendToBack.
    destruct (hasSelection st && _)%bool eqn:Hg; simpl in Hr;
      [|split; reflexivity].
    destruct (find _ _); [discriminate | split; reflexivity].
  - unfold toggleLock.
    destruct (hasSelection st) eqn:Hg; simpl in Hr; [|split; reflexivity].
    rewrite Hr. split; reflexivity.
  - unfold duplicateLayer.
    destruct (hasSelection st && _)%bool eqn:Hg; simpl in Hr;
      [|split; reflexivity].
    destruct (find _ _); [discriminate | split; reflexivity].
  - unfold toggleWarp.
    destruct (hasSelection st && _)%bool eqn:Hg; simpl in Hr;
      [|split; reflexivity].
    destruct (find _ _); [discriminate | split; reflexivity].
  - unfold setWarpPath.
    destruct (hasSelection st && _)%bool eqn:Hg; simpl in Hr;
      [|split; reflexivity].
    destruct (find _ _); [discriminate | split; reflexivity].
  - revert Hp. unfold distributeLayersEvenly, distributeBy. rewrite Hr.
    intros [= <-]. split; reflexivity.
  - revert Hp. unfold distributeLayersVertically, distributeBy. rewrite Hr.
    intros [= <-]. split; reflexivity.
Qed.

Lemma reconcileSelection_frame :
  forall st,
    historyView (reconcileSelection st) = historyView st /\
    textLayers (reconcileSelection st) = textLayers st.
Proof.
  intros st. unfold reconcileSelection.
  destruct (_ =? _)%nat; split; reflexivity.
Qed.

Lemma gesture_frame :
  forall g st,
    historyView (gesture g st) = historyView st /\
    textLayers (gesture g st) = textLayers st.
Proof.
  intros [id [|] | | layer [|]] st; simpl;
    unfold selectLayer, clearSelection, canvasClick,
           addToSelection, removeFromSelection;
    repeat match goal with
           | |- context [if ?b then _ else _] => destruct b
           end; split; reflexivity.
Qed.

Lemma recorded_reconcile :
  forall st st',
    recorded st st' -> recorded st (reconcileSelection st').
Proof.
  unfold recorded. intros st st' H.
  destruct (reconcileSelection_frame st') as [Hv Hl].
  rewrite Hv, Hl. exact H.
Qed.

(** ** Undo after a run of operations *)

(** One recorded operation from a cursor of at most 19: no replay is
    pending afterwards, the cursor is inside the history and at most 19 and
    addresses the new snapshot, which is the last one; and the snapshot that
    stood [d] below the cursor stands [d + 1] below it, for [d + 1 <= 19]:
    below the cap because the entries up to the cursor stay, at the cap
    because the eviction of the oldest entry shifts them all by one. *)
Lemma nth_error_tl :
  forall (A : Type) (l : list A) (i : nat),
    nth_error (tl l) i = nth_error l (S i).
Proof.
  intros A [|a l] i; [destruct i|]; reflexivity.
Qed.

Lemma addToHistory_shape :
  forall newLayers st,
    isUndoRedoAction st = false ->
    currentStep st < List.length (history st) ->
    currentStep st <= 19 ->
    (currentStep st <= 18 /\
     history (addToHistory newLayers st)
     = firstn (currentStep st + 1) (history st) ++ [newLayers] /\
     currentStep (addToHistory newLayers st) = currentStep st + 1)
    \/
    (currentStep st = 19 /\
     history (addToHistory newLayers st)
     = tl (firstn 20 (history st) ++ [newLayers]) /\
     currentStep (addToHistory newLayers st) = 19).
Proof.
  intros newLayers st Hf Hc Hcap.
  destruct (Nat.eq_dec (currentStep st) 19) as [H19 | H19].
  - right. split; [exact H19|]. unfold addToHistory. rewrite Hf.
    cbn [history currentStep setHistory setCurrentStep].
    rewrite pushed_length by assumption. rewrite H19. split; reflexivity.
  - left. split; [lia|]. apply addToHistory_push; [assumption | lia | assumption].
Qed.

Lemma recorded_keeps_below :
  forall st st' d start,
    recorded st st' ->
    isUndoRedoAction st = false ->
    currentStep st < List.length (history st) ->
    currentStep st <= 19 ->
    d <= currentStep st ->
    d + 1 <= 19 ->
    nth_error (history st) (currentStep st - d) = Some start ->
    isUndoRedoAction st' = false /\
    currentStep st' < List.length (history st') /\
    currentStep st' <= 19 /\
    d + 1 <= currentStep st' /\
    nth_error (history st') (currentStep st' - (d + 1)) = Some start.
Proof.
  unfold recorded, historyView. intros st st' d start H Hf Hc Hcap Hd Hd1 Hstart.
  injection H as Hh Hs Hflag.
  rewrite Hflag, Hh, Hs, addToHistory_clears_flag.
  split; [reflexivity|].
  assert (Hfirst : List.length (firstn (currentStep st + 1) (history st))
                   = currentStep st + 1)
    by (apply firstn_length_le; lia).
  destruct (addToHistory_shape (textLayers st') st Hf Hc Hcap)
    as [(Hlow & -> & ->) | (H19 & -> & ->)].
  - rewrite length_app, Hfirst. cbn [List.length].
    repeat split; try lia.
    replace (currentStep st + 1 - (d + 1)) with (currentStep st - d) by lia.
    rewrite nth_error_app1 by lia.
    rewrite nth_error_firstn.
    destruct (Nat.ltb_spec (currentStep st - d) (currentStep st + 1)); [|lia].
    exact Hstart.
  - rewrite H19 in *. change (19 + 1) with 20 in Hfirst.
    assert (Hlen : List.length (tl (firstn 20 (history st) ++ [textLayers st']))
                   = 20).
    { destruct (firstn 20 (history st)) as [|oldest rest] eqn:Hshape;
        [discriminate Hfirst|].
      cbn [app tl]. rewrite length_app. cbn [List.length] in *. lia. }
    rewrite Hlen. repeat split; try lia.
    rewrite nth_error_tl.
    replace (S (19 - (d + 1))) with (19 - d) by lia.
    rewrite nth_error_app1 by lia.
    rewrite nth_error_firstn.
    destruct (Nat.ltb_spec (19 - d) 20); [|lia].
    exact Hstart.
Qed.

(** A run of recorded operations keeps the snapshot of its start in the
    history, as many entries below the cursor as operations were made, as
    long as these are at most 19. *)
Lemma run_keeps_start :
  forall actions st d start,
    isUndoRedoAction st = false ->
    currentStep st < List.length (history st) ->
    currentStep st <= 19 ->
    d <= currentStep st ->
    nth_error (history st) (currentStep st - d) = Some start ->
    allRecord actions st = true ->
    d + mutations actions <= 19 ->
    exists st',
      run actions st = Some st' /\
      currentStep st' < List.length (history st') /\
      d + mutations actions <= currentStep st' /\
      nth_error (history st') (currentStep st' - (d + mutations actions))
      = Some start /\
      (mutations actions = 0 -> textLayers st' = textLayers st).
Proof.
  induction actions as [|a rest IH]; intros st d start Hf Hc Hcap Hd Hstart Hall Hn.
  - exists st. cbn [run mutations] in *. rewrite Nat.add_0_r.
    repeat split; auto.
  - cbn [allRecord] in Hall. apply andb_true_iff in Hall.
    destruct Hall as [Hrec Hrest].
    destruct (act a st) as [st1|] eqn:Hact; [|discriminate].
    destruct a as [m | g].
    + (* a mutating operation *)
      cbn [act] in Hact. cbn [mutations] in Hn.
      destruct (perform m st) as [st0|] eqn:Hp; [|discriminate].
      injection Hact as <-.
      pose proof (recorded_reconcile _ _ (perform_records _ _ _ Hrec Hp)) as Hr.
      destruct (recorded_keeps_below _ _ d start Hr Hf Hc Hcap Hd ltac:(lia)
                                     Hstart)
        as (Hf1 & Hc1 & Hcap1 & Hd1 & Hstart1).
      destruct (IH _ (d + 1) start Hf1 Hc1 Hcap1 Hd1 Hstart1 Hrest ltac:(lia))
        as (st' & Hrun & Hc' & Hd' & Hstart' & _).
      exists st'. cbn [run act mutations]. rewrite Hp. cbn [option_map].
      rewrite Hrun.
      replace (d + S (mutations rest)) with (d + 1 + mutations rest) by lia.
      repeat split; auto. intros H0. discriminate H0.
    + (* a gesture on the selection *)
      cbn [act] in Hact. cbn [mutations] in Hn. injection Hact as <-.
      destruct (gesture_frame g st) as [Hv Hl].
      destruct (reconcileSelection_frame (gesture g st)) as [Hv' Hl'].
      rewrite Hv in Hv'. unfold historyView in Hv'.
      injection Hv' as Hh1 Hc1 Hf1.
      destruct (IH (reconcileSelection (gesture g st)) d start)
        as (st' & Hrun & Hc' & Hd' & Hstart' & Hsame);
        try (rewrite ?Hh1, ?Hc1, ?Hf1; auto; lia).
      exists st'. cbn [run act mutations]. rewrite Hrun.
      repeat split; auto.
      intros H0. rewrite (Hsame H0), Hl', Hl. reflexivity.
Qed.

Lemma undoTimes_spec :
  forall n st,
    n <= currentStep st ->
    currentStep st < List.length (history st) ->
    exists st',
      undoTimes n st = Some st' /\
      history st' = history st /\
      currentStep st' = currentStep st - n /\
      (0 < n ->
       nth_error (history st) (currentStep st - n) = Some (textLayers st')) /\
      (n = 0 -> st' = st).
Proof.
  induction n as [|n IH]; intros st Hn Hc.
  - exists st. simpl. repeat split; auto; lia.
  - simpl. unfold undo.
    destruct (Nat.ltb_spec 0 (currentStep st)) as [Hpos|]; [|lia].
    destruct (nth_error (history st) (currentStep st - 1)) as [snapshot|] eqn:Hs.
    2:{ apply nth_error_None in Hs. lia. }
    set (st1 := st |> setIsUndoRedoAction true
                   |> setCurrentStep (currentStep st - 1)
                   |> setTextLayers snapshot
                   |> setSelectedIds []).
    destruct (IH st1) as (st' & Hrun & Hh & Hcur & Hnth & Hzero);
      try (subst st1; simpl; lia).
    exists st'. rewrite Hrun. subst st1. simpl in *.
    repeat split; auto; try lia.
    intros _. destruct n as [|n'].
    + rewrite (Hzero eq_refl). simpl. exact Hs.
    + replace (currentStep st - S (S n')) with (currentStep st - 1 - S n')
        by lia.
      apply Hnth. lia.
Qed.

(** C1, as amended.  From a state in which no replay is pending and the
    cursor addresses the live collection and is at most 19, a run whose N
    mutating operations each record a snapshot, followed by N undos,
    completes and shows the layer collection of the start, for every
    N <= 19: also when the run reaches the cap of 20 snapshots and the
    oldest ones are evicted. *)
Theorem undo_restores_collection :
  forall (actions : list Action) (st : EditorState),
    settled st ->
    currentStep st <= 19 ->
    allRecord actions st = true ->
    mutations actions <= 19 ->
    exists st'',
      thenUndo actions st = Some st'' /\
      textLayers st'' = textLayers st.
Proof.
  intros actions st [Hf Hnth] Hcap Hall Hn.
  assert (Hc : currentStep st < List.length (history st)).
  { apply nth_error_Some. rewrite Hnth. discriminate. }
  assert (Hstart : nth_error (history st) (currentStep st - 0)
                   = Some (textLayers st))
    by (rewrite Nat.sub_0_r; exact Hnth).
  destruct (run_keeps_start actions st 0 (textLayers st) Hf Hc Hcap
              ltac:(lia) Hstart Hall ltac:(lia))
    as (st' & Hrun & Hc' & Hd' & Hstart' & Hsame).
  cbn [Nat.add] in Hd', Hstart'.
  destruct (undoTimes_spec (mutations actions) st' Hd' Hc')
    as (st'' & Hundo & _ & _ & Hback & Hzero).
  exists st''. unfold thenUndo. rewrite Hrun. split; [exact Hundo|].
  destruct (mutations actions) as [|n] eqn:Hmut.
  - rewrite (Hzero eq_refl). apply Hsame. reflexivity.
  - specialize (Hback ltac:(lia)). congruence.
Qed.

Lemma undo_restores_collection_witness :
  settled fullHistory /\
  currentStep fullHistory <= 19 /\
  allRecord shortSession fullHistory = true /\
  mutations shortSession <= 19 /\
  exists st'',
    thenUndo shortSession fullHistory = Some st'' /\
    textLayers st'' = [].
Proof.
  assert (Hs : settled fullHistory) by (split; reflexivity).
  assert (Hc : currentStep fullHistory <= 19) by (simpl; lia).
  assert (Ha : allRecord shortSession fullHistory = true) by reflexivity.
  assert (Hn : mutations shortSession <= 19) by (simpl; lia).
  split; [exact Hs|]. split; [exact Hc|]. split; [exact Ha|].
  split; [exact Hn|].
  apply (undo_restores_collection shortSession fullHistory Hs Hc Ha Hn).
Defined.

(** C1, as stated, fails past the cap: from the state at mount, 21
    recorded additions followed by 21 undos leave two layers, not the
    empty collection of the start. *)
Lemma undo_after_21_adds :
  mutations twentyOneAdds = 21 /\
  allRecord twentyOneAdds (initialState None) = true /\
  option_map (fun st'' => List.length (textLayers st''))
             (thenUndo twentyOneAdds (initialState None)) = Some 2 /\
  ~ (exists st'',
        thenUndo twentyOneAdds (initialState None) = Some st'' /\
        textLayers st'' = textLayers (initialState None)).
Proof.
  assert (Hlen : option_map (fun st'' => List.length (textLayers st''))
                   (thenUndo twentyOneAdds (initialState None)) = Some 2)
    by (vm_compute; reflexivity).
  split; [reflexivity|]. split; [vm_compute; reflexivity|].
  split; [exact Hlen|].
  intros (st'' & Hrun & Hsame). rewrite Hrun in Hlen. simpl in Hlen.
  rewrite Hsame in Hlen. discriminate Hlen.
Qed.

(** The premise on the guards: an operation that finds its guard closed
    (here [deleteText] with nothing selected) leaves no snapshot, and the
    undo counted for it takes back the operation before. *)
Lemma undo_after_unrecorded_operation :
  settled (clearSelection oneLayerAdded) /\
  allRecord [Mutate DeleteText] (clearSelection oneLayerAdded) = false /\
  List.length (textLayers (clearSelection oneLayerAdded)) = 1 /\
  option_map textLayers
             (thenUndo [Mutate DeleteText] (clearSelection oneLayerAdded))
  = Some [].
Proof.
  split; [split; reflexivity|]. repeat split.
Qed.

(** The bound on N is tight: 20 recorded additions from the state at
    mount evict the empty snapshot of the start, and 20 undos leave one
    layer. *)
Lemma undo_after_20_adds :
  mutations (firstn 20 twentyOneAdds) = 20 /\
  allRecord (firstn 20 twentyOneAdds) (initialState None) = true /\
  option_map (fun st'' => List.length (textLayers st''))
             (thenUndo (firstn 20 twentyOneAdds) (initialState None)) = Some 1.
Proof.
  split; [reflexivity|]. split; vm_compute; reflexivity.
Qed.

(** The premise on the cursor: from a cursor above 19, which only a
    record that the editor did not write can give, the eviction and the
    cursor part ways, and one undo after one recorded addition shows
    another collection than that of the start. *)
Lemma undo_from_cursor_past_cap :
  settled cursorPastCap /\
  currentStep cursorPastCap = 20 /\
  allRecord [Mutate (AddText 1)] cursorPastCap = true /\
  option_map textLayers (thenUndo [Mutate (AddText 1)] cursorPastCap)
  = Some [] /\
  textLayers cursorPastCap = [sampleLayer].
Proof.
  split; [split; reflexivity|]. split; [reflexivity|].
  split; [reflexivity|]. split; reflexivity.
Qed.

(** ** The replay flag *)

Lemma picks_frame :
  forall gestures st,
    historyView (picks gestures st) = historyView st /\
    textLayers (picks gestures st) = textLayers st.
Proof.
  unfold picks. intros gestures st.
  destruct (reconcileSelection_frame st) as [Hv Hl].
  rewrite <- Hv, <- Hl. generalize (reconcileSelection st). clear.
  induction gestures as [|g rest IH]; intros s; simpl; [split; reflexivity|].
  destruct (IH (reconcileSelection (gesture g s))) as [Hv Hl].
  destruct (reconcileSelection_frame (gesture g s)) as [Hv1 Hl1].
  destruct (gesture_frame g s) as [Hv2 Hl2].
  rewrite Hv, Hl, Hv1, Hl1, Hv2, Hl2. split; reflexivity.
Qed.

Ltac branches :=
  repeat match goal with
         | |- context [if ?b then _ else _] => destruct b eqn:?
         | |- context [match ?x with Some _ => _ | None => _ end] =>
             destruct x eqn:?
         end.

(** The collection that a handler installs does not depend on the flag. *)
Lemma perform_layers_flag :
  forall m st b,
    option_map textLayers (perform m (setIsUndoRedoAction b st))
    = option_map textLayers (perform m st).
Proof.
  intros m st b.
  destruct m; unfold perform;
    unfold addText, updateTextStyle, updateTextShadow, onChangeField,
      deleteText, moveLayerUp, moveLayerDown, bringToFront, sendToBack,
      toggleLock, duplicateLayer, toggleWarp, updateWarpProperty, setWarpPath,
      toggleSpacingHints, updateSpacingHintColor, updateSpacingHintOpacity,
      distributeLayersEvenly, distributeLayersVertically, distributeBy,
      alignLayersVertically, alignLayersHorizontally, hasSelection,
      mapSelected;
    cbn [textLayers selectedIds textStyle setIsUndoRedoAction];
    branches;
    cbn [option_map textLayers setTextLayers setSelectedIds setTextStyle];
    rewrite ?addToHistory_textLayers;
    reflexivity.
Qed.

(** A recorded operation from a cursor of at most 19 leaves the cursor
    on its snapshot, the last of the history. *)
Lemma recorded_settles :
  forall st st',
    recorded st st' ->
    isUndoRedoAction st = false ->
    currentStep st < List.length (history st) ->
    currentStep st <= 19 ->
    isUndoRedoAction st' = false /\
    currentStep st' = Nat.min (currentStep st + 1) 19 /\
    nth_error (history st') (currentStep st') = Some (textLayers st') /\
    S (currentStep st') = List.length (history st').
Proof.
  unfold recorded, historyView. intros st st' H Hf Hc Hcap.
  injection H as Hh Hs Hflag.
  rewrite Hflag, Hh, Hs, addToHistory_clears_flag.
  split; [reflexivity|].
  assert (Hfirst : List.length (firstn (currentStep st + 1) (history st))
                   = currentStep st + 1)
    by (apply firstn_length_le; lia).
  destruct (addToHistory_shape (textLayers st') st Hf Hc Hcap)
    as [(Hlow & -> & ->) | (H19 & -> & ->)].
  - rewrite length_app, Hfirst. cbn [List.length].
    split; [lia|]. split; [|lia].
    rewrite nth_error_app2 by lia. rewrite Hfirst, Nat.sub_diag. reflexivity.
  - rewrite H19 in *. change (19 + 1) with 20 in Hfirst.
    destruct (firstn 20 (history st)) as [|oldest rest] eqn:Hshape;
      [discriminate Hfirst|].
    cbn [app tl]. cbn [List.length] in Hfirst.
    rewrite length_app. cbn [List.length].
    split; [reflexivity|]. split; [|lia].
    rewrite nth_error_app2 by lia.
    replace (19 - List.length rest) with 0 by lia. reflexivity.
Qed.

(** C10, as amended.  After an undo or a redo that takes effect (the
    cursor is above 0, or below the last snapshot), and whatever the
    selection gestures in between, the first operation that reaches
    [addToHistory] finds the replay flag set: it installs the collection
    that it would install with the flag clear, it leaves the history
    sequence and the cursor as the undo or redo left them, and it clears
    the flag.  An undo at cursor 0, or a redo at the last snapshot,
    changes nothing, the flag included: the operation that follows is
    swallowed in the same way when a replay was pending before, and when
    none was it is recorded: its snapshot is appended after the entries
    up to the cursor (the oldest entry leaving if that makes 21) and,
    from a cursor inside the history and at most 19, it is the last of the
    history and under the cursor. *)
Theorem replay_swallows_next_record :
  forall (st st1 : EditorState) (gestures : list Gesture)
         (m : Mutation) (st2 : EditorState),
    records m (picks gestures st1) = true ->
    perform m (picks gestures st1) = Some st2 ->
    ((canUndo st = true /\ undo st = Some st1)
     \/ (canRedo st = true /\ redo st = Some st1) ->
     isUndoRedoAction st1 = true /\
     history st2 = history st1 /\
     currentStep st2 = currentStep st1 /\
     isUndoRedoAction st2 = false /\
     option_map textLayers
       (perform m (setIsUndoRedoAction false (picks gestures st1)))
     = Some (textLayers st2))
    /\
    ((canUndo st = false /\ undo st = Some st1)
     \/ (canRedo st = false /\ redo st = Some st1) ->
     st1 = st /\
     (isUndoRedoAction st = true ->
      history st2 = history st /\
      currentStep st2 = currentStep st /\
      isUndoRedoAction st2 = false /\
      option_map textLayers
        (perform m (setIsUndoRedoAction false (picks gestures st1)))
      = Some (textLayers st2)) /\
     (isUndoRedoAction st = false ->
      isUndoRedoAction st2 = false /\
      currentStep st2 = Nat.min (currentStep st + 1) 19 /\
      history st2
      = (let newHistory :=
           firstn (currentStep st + 1) (history st) ++ [textLayers st2] in
         if (20 <? List.length newHistory)%nat then tl newHistory
         else newHistory) /\
      (currentStep st < List.length (history st) ->
       currentStep st <= 19 ->
       nth_error (history st2) (currentStep st2) = Some (textLayers st2) /\
       S (currentStep st2) = List.length (history st2)))).
Proof.
  intros st st1 gestures m st2 Hrec Hp.
  destruct (picks_frame gestures st1) as [Hv _].
  pose proof (perform_records _ _ _ Hrec Hp) as Hr.
  assert (Hswallow :
            isUndoRedoAction st1 = true ->
            history st2 = history st1 /\
            currentStep st2 = currentStep st1 /\
            isUndoRedoAction st2 = false /\
            option_map textLayers
              (perform m (setIsUndoRedoAction false (picks gestures st1)))
            = Some (textLayers st2)).
  { intros Hflag. unfold recorded in Hr.
    assert (Hflag' : isUndoRedoAction (picks gestures st1) = true).
    { unfold historyView in Hv. injection Hv as _ _ ->. exact Hflag. }
    rewrite (addToHistory_replay _ _ Hflag') in Hr.
    unfold historyView in Hr, Hv. simpl in Hr.
    injection Hr as Hh Hc Hf. injection Hv as Hh' Hc' _.
    repeat split; try congruence.
    rewrite perform_layers_flag, Hp. reflexivity. }
  split.
  - intros Hreplay.
    assert (Hflag : isUndoRedoAction st1 = true).
    { destruct Hreplay as [[Hcan Hu] | [Hcan Hredo]].
      - unfold canUndo in Hcan. unfold undo in Hu. rewrite Hcan in Hu.
        destruct (nth_error _ _); [|discriminate].
        injection Hu as <-. reflexivity.
      - unfold canRedo in Hcan. unfold redo in Hredo. rewrite Hcan in Hredo.
        destruct (nth_error _ _); [|discriminate].
        injection Hredo as <-. reflexivity. }
    split; [exact Hflag | exact (Hswallow Hflag)].
  - intros Hnothing.
    assert (Hsame : st1 = st).
    { destruct Hnothing as [[Hcan Hu] | [Hcan Hredo]].
      - unfold canUndo in Hcan. unfold undo in Hu. rewrite Hcan in Hu.
        injection Hu as <-. reflexivity.
      - unfold canRedo in Hcan. unfold redo in Hredo. rewrite Hcan in Hredo.
        injection Hredo as <-. reflexivity. }
    subst st1. split; [reflexivity|]. split; [exact Hswallow|].
    intros Hf.
    unfold historyView in Hv. injection Hv as Hh' Hc' Hf'.
    assert (Hshape := Hr). unfold recorded, historyView in Hshape.
    injection Hshape as Hh Hc Hflag.
    unfold addToHistory in Hh, Hc, Hflag. rewrite Hf', Hf in Hh, Hc, Hflag.
    cbn [history currentStep isUndoRedoAction setHistory setCurrentStep]
      in Hh, Hc, Hflag.
    rewrite Hh', Hc' in Hh. rewrite Hc' in Hc.
    split; [congruence|]. split; [exact Hc|]. split; [exact Hh|].
    intros Hinside Hcap.
    destruct (recorded_settles (picks gestures st) st2 Hr)
      as (_ & _ & Hnth & Hlast); try congruence.
    split; assumption.
Qed.

Lemma replay_swallows_next_record_witness :
  records (AddText 2) (picks [] afterUndo) = true /\
  canUndo oneLayerAdded = true /\
  undo oneLayerAdded = Some afterUndo /\
  history (addText 2 afterUndo) = history afterUndo /\
  currentStep (addText 2 afterUndo) = currentStep afterUndo /\
  canUndo afterUndo = false /\
  undo afterUndo = Some afterUndo /\
  isUndoRedoAction afterUndo = true /\
  isUndoRedoAction (addText 2 afterUndo) = false.
Proof.
  assert (Hrec : records (AddText 2) (picks [] afterUndo) = true)
    by reflexivity.
  assert (Hcan : canUndo oneLayerAdded = true) by reflexivity.
  assert (Hundo : undo oneLayerAdded = Some afterUndo) by reflexivity.
  assert (Hcan0 : canUndo afterUndo = false) by reflexivity.
  assert (Hundo0 : undo afterUndo = Some afterUndo) by reflexivity.
  assert (Hflag : isUndoRedoAction afterUndo = true) by reflexivity.
  destruct (replay_swallows_next_record
              oneLayerAdded afterUndo [] (AddText 2) (addText 2 afterUndo)
              Hrec eq_refl) as [Hreplay _].
  destruct (Hreplay (or_introl (conj Hcan Hundo))) as (_ & Hh & Hc & _).
  destruct (replay_swallows_next_record
              afterUndo afterUndo [] (AddText 2) (addText 2 afterUndo)
              Hrec eq_refl) as [_ Hnothing].
  destruct (Hnothing (or_introl (conj Hcan0 Hundo0))) as (_ & Hpending & _).
  destruct (Hpending Hflag) as (_ & _ & Hcleared & _).
  repeat split; assumption.
Defined.

(** C10, as stated, fails at the ends of the history: at mount, where no
    replay is pending, an undo at cursor 0 (and likewise a redo at the
    last snapshot) does nothing and sets no flag, and the operation that
    follows is recorded. *)
Lemma record_after_undo_at_start :
  undo (initialState None) = Some (initialState None) /\
  redo (initialState None) = Some (initialState None) /\
  isUndoRedoAction (initialState None) = false /\
  List.length (history (initialState None)) = 1 /\
  List.length (history (addText 1 (initialState None))) = 2 /\
  currentStep (addText 1 (initialState None)) = 1 /\
  history (addText 1 (initialState None)) <> history (initialState None).
Proof.
  repeat split. intros H. apply (f_equal (@List.length _)) in H.
  discriminate H.
Qed.

(** ** Persistence *)

Lemma identity_check_true :
  forall (d : SaveData.t) (props : Props),
    SaveData.imageUrl d = imageUrl props ->
    SaveData.imageWidth d = imageWidth props ->
    SaveData.imageHeight d = imageHeight props ->
    ((SaveData.imageUrl d =? imageUrl props)
     && (SaveData.imageWidth d =? imageWidth props)%Z
     && (SaveData.imageHeight d =? imageHeight props)%Z)%bool = true.
Proof.
  intros d props -> -> ->.
  rewrite String.eqb_refl, !Z.eqb_refl. reflexivity.
Qed.

Lemma identity_check_false :
  forall (d : SaveData.t) (props : Props),
    ~ (SaveData.imageUrl d = imageUrl props /\
       SaveData.imageWidth d = imageWidth props /\
       SaveData.imageHeight d = imageHeight props) ->
    ((SaveData.imageUrl d =? imageUrl props)
     && (SaveData.imageWidth d =? imageWidth props)%Z
     && (SaveData.imageHeight d =? imageHeight props)%Z)%bool = false.
Proof.
  intros d props Hne.
  destruct (String.eqb_spec (SaveData.imageUrl d) (imageUrl props));
    destruct (Z.eqb_spec (SaveData.imageWidth d) (imageWidth props));
    destruct (Z.eqb_spec (SaveData.imageHeight d) (imageHeight props));
    try reflexivity.
  exfalso. apply Hne. auto.
Qed.

(** C3.  A state saved by [saveToLocalStorage] (the store accepting the
    write) and read back by [loadFromLocalStorage] at the mount of a later
    session: when the image of that session has the url, width and height
    of the record, the load succeeds and shows the saved layer collection,
    history sequence and cursor; when it has not, the load fails, removes
    the record, and leaves the empty state of the mount. *)
Theorem save_load_roundtrip :
  forall (data : SaveRequest) (stamp now : N) (st : EditorState)
         (props : Props),
    let stored :=
      localStorage (saveToLocalStorage true stamp now data st) in
    (sameImage data props ->
       exists st',
         loadFromLocalStorage props (initialState stored) = (true, st') /\
         textLayers st' = req_textLayers data /\
         history st' = req_history data /\
         currentStep st' = req_currentStep data) /\
    (~ sameImage data props ->
       loadFromLocalStorage props (initialState stored)
       = (false, initialState None)).
Proof.
  intros data stamp now st props stored. subst stored.
  unfold saveToLocalStorage, loadFromLocalStorage, sameImage.
  cbn [localStorage setLocalStorage setLastSaved initialState].
  split.
  - intros (Hu & Hw & Hh).
    rewrite identity_check_true by assumption.
    eexists. split; [reflexivity|]. repeat split.
  - intros Hne.
    rewrite identity_check_false by exact Hne.
    reflexivity.
Qed.

Lemma save_load_roundtrip_witness :
  sameImage sampleRequest sampleProps /\
  ~ sameImage sampleRequest (mkProps "blob:other" 800 600) /\
  (exists st',
     loadFromLocalStorage sampleProps
       (initialState
          (localStorage
             (saveToLocalStorage true 7 8 sampleRequest (initialState None))))
     = (true, st') /\
     textLayers st' = [sampleLayer]) /\
  loadFromLocalStorage (mkProps "blob:other" 800 600)
    (initialState
       (localStorage
          (saveToLocalStorage true 7 8 sampleRequest (initialState None))))
  = (false, initialState None).
Proof.
  assert (Hsame : sameImage sampleRequest sampleProps)
    by (repeat split; reflexivity).
  assert (Hother : ~ sameImage sampleRequest (mkProps "blob:other" 800 600)).
  { intros (Hu & _). discriminate Hu. }
  split; [exact Hsame|]. split; [exact Hother|]. split.
  - destruct (save_load_roundtrip sampleRequest 7 8 (initialState None)
                sampleProps) as [Hmatch _].
    destruct (Hmatch Hsame) as (st' & Hload & Hl & _).
    exists st'. split; [exact Hload | exact Hl].
  - destruct (save_load_roundtrip sampleRequest 7 8 (initialState None)
                (mkProps "blob:other" 800 600)) as [_ Hmiss].
    exact (Hmiss Hother).
Defined.

(** C4, as stated, fails: a record of version ["2.0"] whose image identity
    matches is loaded, not discarded. *)
Lemma load_accepts_other_version :
  SaveData.version futureRecord <> "1.0" /\
  exists st',
    loadFromLocalStorage sampleProps (initialState (Some (Parsed futureRecord)))
    = (true, st') /\
    textLayers st' = [sampleLayer] /\
    localStorage st' = Some (Parsed futureRecord).
Proof.
  split; [discriminate|].
  eexists. split; [reflexivity|]. split; reflexivity.
Qed.

(** C4, as amended.  [loadFromLocalStorage] does not read the version: a
    stored record whose image identity matches is loaded whatever its
    version, with its layers, history and cursor (or their defaults), and
    stays in the store. *)
Theorem load_ignores_version :
  forall (v : string) (d : SaveData.t) (props : Props) (st : EditorState),
    SaveData.imageUrl d = imageUrl props ->
    SaveData.imageWidth d = imageWidth props ->
    SaveData.imageHeight d = imageHeight props ->
    localStorage st = Some (Parsed (withVersion v d)) ->
    exists st',
      loadFromLocalStorage props st = (true, st') /\
      textLayers st' = orElse (SaveData.textLayers d) [] /\
      history st' = orElse (SaveData.history d) [[]] /\
      currentStep st' = orElse (SaveData.currentStep d) 0 /\
      localStorage st' = Some (Parsed (withVersion v d)).
Proof.
  intros v d props st Hu Hw Hh Hstore.
  unfold loadFromLocalStorage. rewrite Hstore.
  rewrite (identity_check_true (withVersion v d) props Hu Hw Hh).
  eexists. split; [reflexivity|].
  cbn. rewrite Hstore. repeat split.
Qed.

Lemma load_ignores_version_witness :
  exists st',
    loadFromLocalStorage sampleProps
      (initialState (Some (Parsed (withVersion "0.9" futureRecord))))
    = (true, st') /\
    textLayers st' = [sampleLayer].
Proof.
  destruct (load_ignores_version "0.9" futureRecord sampleProps
              (initialState (Some (Parsed (withVersion "0.9" futureRecord))))
              eq_refl eq_refl eq_refl eq_refl)
    as (st' & Hload & Hl & _).
  exists st'. split; [exact Hload | exact Hl].
Defined.

(** ** The layer store *)

Module TextLayerFacts.

Import TextLayer.

Lemma id_set_locked : forall b l, id (set_locked b l) = id l.
Proof. intros b []; reflexivity. Qed.

Lemma locked_set_locked : forall b l, locked (set_locked b l) = b.
Proof. intros b []; reflexivity. Qed.

Lemma y_set_x : forall v l, y (set_x v l) = y l.
Proof. intros v []; reflexivity. Qed.



Lemma x_set_y : forall v l, x (set_y v l) = x l.
Proof. intros v []; reflexivity. Qed.

End TextLayerFacts.

(** Ids issued at different clock readings differ. *)
Lemma freshId_inj : forall a b : N, freshId a = freshId b -> a = b.
Proof.
  intros a b H. unfold freshId in H. simpl in H.
  injection H as H.
  assert (Hnn : forall n, N.to_uint n <> Decimal.Nil).
  { intros [|p]; simpl; [discriminate|].
    apply DecimalPos.Unsigned.to_uint_nonnil. }
  apply DecimalN.Unsigned.to_uint_inj.
  pose proof (NilZero.usu _ (Hnn a)) as Ha.
  pose proof (NilZero.usu _ (Hnn b)) as Hb.
  rewrite H in Ha. congruence.
Qed.

(** When every layer was named at an earlier reading of the clock, the
    id of the present reading is new. *)
Lemma later_reading_is_fresh :
  forall (now : N) (layers : list TextLayer.t),
    (forall layer, In layer layers ->
       exists t, TextLayer.id layer = freshId t /\ (t < now)%N) ->
    ~ In (freshId now) (map TextLayer.id layers).
Proof.
  intros now layers Hearlier Hin.
  apply in_map_iff in Hin. destruct Hin as (layer & Hid & Hl).
  destruct (Hearlier layer Hl) as (t & Ht & Hlt).
  rewrite Ht in Hid. apply freshId_inj in Hid. lia.
Qed.

(** C5, as amended.  With a single selected layer in the collection,
    [duplicateLayer] appends one clone: its id is [text-<now>]; its
    position is the source's plus 20 in x and in y; it is unlocked
    whatever the lock of the source; its other fields are the source's;
    and it is the only selected id.  The id of the clone differs from every
    id of the collection, the source's included, exactly when no layer
    carries [text-<now>] already, as is the case when every layer was
    named at an earlier reading of the clock. *)
Theorem duplicateLayer_clone :
  forall (now : N) (st : EditorState) (sid : string)
         (selectedLayer : TextLayer.t),
    selectedIds st = [sid] ->
    find (idIs (Some sid)) (textLayers st) = Some selectedLayer ->
    exists clone,
      textLayers (duplicateLayer now st) = textLayers st ++ [clone] /\
      TextLayer.id clone = freshId now /\
      TextLayer.x clone = (TextLayer.x selectedLayer + 20)%R /\
      TextLayer.y clone = (TextLayer.y selectedLayer + 20)%R /\
      TextLayer.locked clone = false /\
      sameContent clone selectedLayer /\
      selectedIds (duplicateLayer now st) = [TextLayer.id clone] /\
      ((forall layer, In layer (textLayers st) ->
                      TextLayer.id clone <> TextLayer.id layer)
       <-> ~ In (freshId now) (map TextLayer.id (textLayers st))) /\
      ((forall layer, In layer (textLayers st) ->
          exists t, TextLayer.id layer = freshId t /\ (t < now)%N) ->
       (forall layer, In layer (textLayers st) ->
                      TextLayer.id clone <> TextLayer.id layer) /\
       TextLayer.id clone <> TextLayer.id selectedLayer).
Proof.
  intros now st sid selectedLayer Hsel Hfind.
  unfold duplicateLayer, hasSelection. rewrite Hsel. cbn [JsSet.size JsSet.first
    List.length hd_error Nat.ltb Nat.leb Nat.eqb andb]. rewrite Hfind.
  eexists. split.
  { cbn [textLayers setSelectedIds setTextLayers].
    rewrite addToHistory_textLayers. reflexivity. }
  assert (Hdiffers :
            (forall layer, In layer (textLayers st) ->
                           freshId now <> TextLayer.id layer)
            <-> ~ In (freshId now) (map TextLayer.id (textLayers st))).
  { split.
    - intros Hall Hin. apply in_map_iff in Hin.
      destruct Hin as (layer & Hid & Hl). apply (Hall layer Hl).
      symmetry. exact Hid.
    - intros Hfresh layer Hin Heq. apply Hfresh. rewrite Heq.
      apply in_map. exact Hin. }
  assert (Hsource : In selectedLayer (textLayers st)).
  { apply find_some in Hfind. apply Hfind. }
  destruct selectedLayer. cbn.
  split; [reflexivity|]. split; [reflexivity|]. split; [reflexivity|].
  split; [reflexivity|]. split; [repeat split; reflexivity|].
  split; [reflexivity|]. split; [exact Hdiffers|].
  intros Hearlier.
  assert (Hall := proj2 Hdiffers (later_reading_is_fresh now _ Hearlier)).
  split; [exact Hall | exact (Hall _ Hsource)].
Qed.

Lemma duplicateLayer_clone_witness :
  selectedIds oneLayerSelected = ["text-5"] /\
  find (idIs (Some "text-5")) (textLayers oneLayerSelected) = Some sampleLayer /\
  exists clone,
    textLayers (duplicateLayer 6 oneLayerSelected) = [sampleLayer; clone] /\
    TextLayer.id clone = "text-6" /\
    TextLayer.locked clone = false.
Proof.
  split; [reflexivity|]. split; [reflexivity|].
  destruct (duplicateLayer_clone 6 oneLayerSelected "text-5" sampleLayer
              eq_refl eq_refl)
    as (clone & Hl & Hid & _ & _ & Hlock & _).
  exists clone. split; [exact Hl|]. split; [exact Hid | exact Hlock].
Defined.

(** C5, as stated, fails on the id: duplicated at the clock reading that
    named its source, the clone carries the id of the source. *)
Lemma duplicateLayer_reuses_id :
  exists clone,
    textLayers (duplicateLayer 5 oneLayerSelected) = [sampleLayer; clone] /\
    TextLayer.id clone = TextLayer.id sampleLayer.
Proof.
  eexists. split; reflexivity.
Qed.

Lemma Forall2_map_r :
  forall (A B : Type) (R : A -> B -> Prop) (f : A -> B) (l : list A),
    (forall a, In a l -> R a (f a)) -> Forall2 R l (map f l).
Proof.
  induction l as [|a l IH]; intros H; simpl; constructor.
  - apply H. left. reflexivity.
  - apply IH. intros b Hb. apply H. right. exact Hb.
Qed.

Lemma Forall2_same :
  forall (A : Type) (R : A -> A -> Prop) (l : list A),
    (forall a, In a l -> R a a) -> Forall2 R l l.
Proof.
  intros A R l H. rewrite <- (map_id l) at 2.
  apply Forall2_map_r. exact H.
Qed.

(** C6.  With a non-empty selection, [toggleLock] keeps the order, the
    ids and the selection; when every selected layer is locked it sets
    [locked] to [false] on each of them; when one of them is unlocked it
    sets [locked] to [true] on each of them; a layer outside the selection
    is left as it is. *)
Theorem toggleLock_group :
  forall (st : EditorState),
    selectedIds st <> [] ->
    selectedIds (toggleLock st) = selectedIds st /\
    (Forall (fun layer => TextLayer.locked layer = true) (selectedLayers st) ->
     Forall2 (lockedTo false (selectedIds st))
             (textLayers st) (textLayers (toggleLock st))) /\
    (Exists (fun layer => TextLayer.locked layer = false) (selectedLayers st) ->
     Forall2 (lockedTo true (selectedIds st))
             (textLayers st) (textLayers (toggleLock st))).
Proof.
  intros st Hne.
  assert (Hhas : hasSelection st = true).
  { unfold hasSelection, JsSet.size.
    destruct (selectedIds st); [contradiction | reflexivity]. }
  unfold toggleLock. rewrite Hhas. fold (selectedLayers st).
  destruct (Nat.ltb_spec 0 (List.length (selectedLayers st))) as [Hpos | Hzero].
  - cbn [selectedIds textLayers setTextLayers].
    rewrite addToHistory_selectedIds, addToHistory_textLayers.
    cbn [selectedIds textLayers setTextLayers].
    split; [reflexivity|]. split.
    + intros Hall.
      assert (Hb : forallb TextLayer.locked (selectedLayers st) = true).
      { apply forallb_forall. rewrite Forall_forall in Hall. exact Hall. }
      rewrite Hb. unfold mapSelected. apply Forall2_map_r.
      intros layer _. unfold lockedTo.
      destruct (JsSet.has _ _); reflexivity.
    + intros Hex.
      assert (Hb : forallb TextLayer.locked (selectedLayers st) = false).
      { apply not_true_is_false. intros Hall.
        rewrite forallb_forall in Hall. apply Exists_exists in Hex.
        destruct Hex as (layer & Hin & Hl). rewrite (Hall _ Hin) in Hl.
        discriminate. }
      rewrite Hb. unfold mapSelected. apply Forall2_map_r.
      intros layer _. unfold lockedTo.
      destruct (JsSet.has _ _); reflexivity.
  - (* no selected id names a layer of the collection *)
    assert (Hnone : selectedLayers st = []).
    { destruct (selectedLayers st); [reflexivity | simpl in Hzero; lia]. }
    assert (Hout : forall layer, In layer (textLayers st) ->
                     JsSet.has (selectedIds st) (TextLayer.id layer) = false).
    { intros layer Hin. apply not_true_is_false. intros Hsel.
      assert (Hin' : In layer (selectedLayers st)).
      { unfold selectedLayers. apply filter_In. split; assumption. }
      rewrite Hnone in Hin'. contradiction. }
    split; [reflexivity|]. split; intros _; apply Forall2_same;
      intros layer Hin; unfold lockedTo; rewrite (Hout _ Hin); reflexivity.
Qed.

(** ** Reordering *)

Module JsArrayFacts.

Import JsArray.

Section Slots.
Context {A : Type}.

Lemma findIndexFrom_found :
  forall (p : A -> bool) (before : list A) (v : A) (after : list A) (k : Z),
    (forall w, In w before -> p w = false) ->
    p v = true ->
    findIndexFrom p (before ++ v :: after) k
    = (k + Z.of_nat (List.length before))%Z.
Proof.
  intros p before. induction before as [|w before IH]; intros v after k Hb Hv.
  - simpl. rewrite Hv. lia.
  - simpl. rewrite (Hb w (or_introl eq_refl)).
    rewrite IH by (auto; intros; apply Hb; right; assumption).
    lia.
Qed.

Lemma get_middle :
  forall (a : list (option A)) (w : option A) (rest : list (option A)),
    get (a ++ w :: rest) (Z.of_nat (List.length a)) = w.
Proof.
  intros a w rest. unfold get.
  destruct (Z.ltb_spec (Z.of_nat (List.length a)) 0); [lia|].
  rewrite Nat2Z.id, nth_error_app2, Nat.sub_diag by lia.
  simpl. destruct w; reflexivity.
Qed.

Lemma replace_middle :
  forall (a : list (option A)) (w v : option A) (rest : list (option A)),
    replace (a ++ w :: rest) (List.length a) v = a ++ v :: rest.
Proof.
  induction a as [|u a IH]; intros w v rest; simpl; [reflexivity|].
  rewrite IH. reflexivity.
Qed.

Lemma set_middle :
  forall (a : list (option A)) (w v : option A) (rest : list (option A)),
    set (a ++ w :: rest) (Z.of_nat (List.length a)) v = a ++ v :: rest.
Proof.
  intros a w v rest. unfold set.
  destruct (Z.ltb_spec (Z.of_nat (List.length a)) 0); [lia|].
  rewrite Nat2Z.id.
  destruct (Nat.ltb_spec (List.length a) (List.length (a ++ w :: rest)))
    as [_ | Hge].
  - apply replace_middle.
  - rewrite length_app in Hge. simpl in Hge. lia.
Qed.

Lemma typed_slots : forall (a : list A), typed (slots a) = Some a.
Proof.
  induction a as [|v a IH]; [reflexivity|].
  change (slots (v :: a)) with (Some v :: slots a).
  cbn [typed]. rewrite IH. reflexivity.
Qed.

Lemma slots_app :
  forall (a b : list A), slots (a ++ b) = slots a ++ slots b.
Proof. intros a b. apply map_app. Qed.

Lemma slots_length : forall (a : list A), List.length (slots a) = List.length a.
Proof. intros a. apply length_map. Qed.

(** The two assignments of a swap of neighbours, in either order. *)
Lemma swap_neighbours :
  forall (a : list A) (u v : A) (b : list A) (i : Z),
    i = Z.of_nat (List.length a) ->
    let arr := slots (a ++ u :: v :: b) in
    typed (set (set arr (i + 1)%Z (get arr i)) i (get arr (i + 1)%Z))
    = Some (a ++ v :: u :: b)
    /\
    typed (set (set arr i (get arr (i + 1)%Z)) (i + 1)%Z (get arr i))
    = Some (a ++ v :: u :: b).
Proof.
  intros a u v b i Hi arr.
  assert (Harr : arr = slots a ++ Some u :: Some v :: slots b).
  { unfold arr, slots. rewrite map_app. reflexivity. }
  assert (Hsplit : forall (w : option A) (tail : list (option A)),
            slots a ++ w :: tail = (slots a ++ [w]) ++ tail).
  { intros w tail. rewrite <- app_assoc. reflexivity. }
  assert (Hi0 : i = Z.of_nat (List.length (slots a))).
  { rewrite slots_length. exact Hi. }
  assert (Hi1 : forall w, (i + 1)%Z = Z.of_nat (List.length (slots a ++ [w]))).
  { intros w. rewrite length_app, slots_length. simpl. lia. }
  assert (Hg0 : get arr i = Some u).
  { rewrite Harr, Hi0. apply get_middle. }
  assert (Hg1 : get arr (i + 1)%Z = Some v).
  { rewrite Harr, (Hsplit (Some u)), (Hi1 (Some u)). apply get_middle. }
  assert (Hdone : slots a ++ Some v :: Some u :: slots b
                  = slots (a ++ v :: u :: b)).
  { unfold slots. rewrite map_app. reflexivity. }
  rewrite Hg0, Hg1. split.
  - rewrite Harr, (Hsplit (Some u)), (Hi1 (Some u)) at 1.
    rewrite set_middle, <- (Hsplit (Some u)), Hi0, set_middle.
    rewrite Hdone. apply typed_slots.
  - rewrite Harr, Hi0 at 1. rewrite set_middle.
    rewrite (Hsplit (Some v)), (Hi1 (Some v)), set_middle.
    rewrite <- (Hsplit (Some v)), Hdone. apply typed_slots.
Qed.

End Slots.

End JsArrayFacts.

Lemma find_first :
  forall (A : Type) (p : A -> bool) (before : list A) (v : A) (after : list A),
    (forall w, In w before -> p w = false) ->
    p v = true ->
    find p (before ++ v :: after) = Some v.
Proof.
  intros A p before. induction before as [|w before IH]; intros v after Hb Hv.
  - simpl. rewrite Hv. reflexivity.
  - simpl. rewrite (Hb w (or_introl eq_refl)).
    apply IH; auto. intros; apply Hb; right; assumption.
Qed.

Lemma filter_all :
  forall (A : Type) (p : A -> bool) (l : list A),
    (forall w, In w l -> p w = true) -> filter p l = l.
Proof.
  intros A p l. induction l as [|w l IH]; intros H; simpl; [reflexivity|].
  rewrite (H w (or_introl eq_refl)), IH; auto.
  intros; apply H; right; assumption.
Qed.

Lemma idIs_iff :
  forall (sid : string) (layer : TextLayer.t),
    idIs (Some sid) layer = true <-> TextLayer.id layer = sid.
Proof. intros sid layer. unfold idIs. apply String.eqb_eq. Qed.

Lemma idIs_false :
  forall (sid : string) (layer : TextLayer.t),
    TextLayer.id layer <> sid -> idIs (Some sid) layer = false.
Proof. intros sid layer H. unfold idIs. apply String.eqb_neq. exact H. Qed.

Lemma others_without_selected :
  forall (sid : string) (before : list TextLayer.t) (layer : TextLayer.t)
         (after : list TextLayer.t),
    TextLayer.id layer = sid ->
    (forall l, In l before -> TextLayer.id l <> sid) ->
    (forall l, In l after -> TextLayer.id l <> sid) ->
    filter (fun l => negb (idIs (Some sid) l)) (before ++ layer :: after)
    = before ++ after.
Proof.
  intros sid before layer after Hid Hb Ha.
  rewrite filter_app. cbn [filter].
  rewrite (proj2 (idIs_iff sid layer) Hid). cbn [negb].
  rewrite !filter_all; auto; intros l Hl; rewrite idIs_false; auto.
Qed.

Section Reorder.

Variable st : EditorState.
Variable sid : string.
Variables (before : list TextLayer.t) (layer : TextLayer.t)
          (after : list TextLayer.t).

Hypothesis Hsel : selectedIds st = [sid].
Hypothesis Hlayers : textLayers st = before ++ layer :: after.
Hypothesis Hid : TextLayer.id layer = sid.
Hypothesis Hfirst : forall l, In l before -> TextLayer.id l <> sid.

Lemma single_guard :
  (hasSelection st && (JsSet.size (selectedIds st) =? 1)%nat)%bool = true.
Proof. unfold hasSelection. rewrite Hsel. reflexivity. Qed.

Lemma selection_index :
  JsArray.findIndex (idIs (JsSet.first (selectedIds st))) (textLayers st)
  = Z.of_nat (List.length before).
Proof.
  rewrite Hsel, Hlayers. unfold JsArray.findIndex. cbn [JsSet.first hd_error].
  rewrite JsArrayFacts.findIndexFrom_found.
  - lia.
  - intros w Hw. apply idIs_false. auto.
  - apply idIs_iff. exact Hid.
Qed.

Lemma selection_find :
  find (idIs (JsSet.first (selectedIds st))) (textLayers st) = Some layer.
Proof.
  rewrite Hsel, Hlayers. cbn [JsSet.first hd_error].
  apply find_first.
  - intros w Hw. apply idIs_false. auto.
  - apply idIs_iff. exact Hid.
Qed.

Lemma moveLayerUp_first : before = [] -> moveLayerUp st = Some st.
Proof.
  intros Hb. unfold moveLayerUp.
  rewrite single_guard, selection_index, Hb. reflexivity.
Qed.

Lemma moveLayerUp_swaps :
  forall (rest : list TextLayer.t) (prev : TextLayer.t),
    before = rest ++ [prev] ->
    exists st',
      moveLayerUp st = Some st' /\
      textLayers st' = rest ++ layer :: prev :: after.
Proof.
  intros rest prev Hb. unfold moveLayerUp.
  rewrite single_guard, selection_index, Hlayers, Hb.
  rewrite length_app. cbn [List.length].
  destruct (Z.gtb_spec (Z.of_nat (List.length rest + 1)) 0) as [_|]; [|lia].
  replace (Z.of_nat (List.length rest + 1))
    with (Z.of_nat (List.length rest) + 1)%Z by lia.
  replace (Z.of_nat (List.length rest) + 1 - 1)%Z
    with (Z.of_nat (List.length rest)) by lia.
  rewrite <- app_assoc. cbn [app].
  destruct (JsArrayFacts.swap_neighbours rest prev layer after _ eq_refl)
    as [Hswap _].
  cbv zeta in Hswap. rewrite Hswap.
  eexists. split; [reflexivity|].
  cbn [textLayers setTextLayers]. rewrite addToHistory_textLayers. reflexivity.
Qed.

Lemma moveLayerDown_last : after = [] -> moveLayerDown st = Some st.
Proof.
  intros Ha. unfold moveLayerDown.
  rewrite single_guard, selection_index, Hlayers, Ha.
  rewrite length_app. cbn [List.length].
  destruct (Z.ltb_spec (Z.of_nat (List.length before))
                       (Z.of_nat (List.length before + 1) - 1)); [lia|].
  reflexivity.
Qed.

Lemma moveLayerDown_swaps :
  forall (next : TextLayer.t) (rest : list TextLayer.t),
    after = next :: rest ->
    exists st',
      moveLayerDown st = Some st' /\
      textLayers st' = before ++ next :: layer :: rest.
Proof.
  intros next rest Ha. unfold moveLayerDown.
  rewrite single_guard, selection_index, Hlayers, Ha.
  rewrite length_app. cbn [List.length].
  destruct (Z.ltb_spec (Z.of_nat (List.length before))
                       (Z.of_nat (List.length before + S (S (List.length rest)))
                        - 1)) as [_|]; [|lia].
  destruct (JsArrayFacts.swap_neighbours before layer next rest _ eq_refl)
    as [_ Hswap].
  cbv zeta in Hswap. rewrite Hswap.
  eexists. split; [reflexivity|].
  cbn [textLayers setTextLayers]. rewrite addToHistory_textLayers. reflexivity.
Qed.

Hypothesis Hlast : forall l, In l after -> TextLayer.id l <> sid.

Lemma bringToFront_moves :
  textLayers (bringToFront st) = before ++ after ++ [layer].
Proof.
  unfold bringToFront. rewrite single_guard, selection_find.
  cbn [textLayers setTextLayers]. rewrite addToHistory_textLayers.
  cbn [textLayers setTextLayers].
  rewrite Hsel, Hlayers. cbn [JsSet.first hd_error].
  rewrite others_without_selected by assumption.
  rewrite app_assoc. reflexivity.
Qed.

Lemma sendToBack_moves :
  textLayers (sendToBack st) = layer :: before ++ after.
Proof.
  unfold sendToBack. rewrite single_guard, selection_find.
  cbn [textLayers setTextLayers]. rewrite addToHistory_textLayers.
  cbn [textLayers setTextLayers].
  rewrite Hsel, Hlayers. cbn [JsSet.first hd_error].
  rewrite others_without_selected by assumption.
  reflexivity.
Qed.

End Reorder.

Lemma others_after_first :
  forall (sid : string) (before : list TextLayer.t) (layer : TextLayer.t)
         (after : list TextLayer.t),
    TextLayer.id layer = sid ->
    (forall l, In l before -> TextLayer.id l <> sid) ->
    filter (fun l => negb (idIs (Some sid) l)) (before ++ layer :: after)
    = before ++ filter (fun l => negb (idIs (Some sid) l)) after.
Proof.
  intros sid before layer after Hid Hb.
  rewrite filter_app. cbn [filter].
  rewrite (proj2 (idIs_iff sid layer) Hid). cbn [negb].
  rewrite filter_all; [reflexivity|].
  intros l Hl. rewrite idIs_false; auto.
Qed.

Lemma front_and_back :
  forall (st : EditorState) (sid : string) (before : list TextLayer.t)
         (layer : TextLayer.t) (after : list TextLayer.t),
    selectedIds st = [sid] ->
    textLayers st = before ++ layer :: after ->
    TextLayer.id layer = sid ->
    (forall l, In l before -> TextLayer.id l <> sid) ->
    textLayers (bringToFront st)
    = before ++ filter (fun l => negb (idIs (Some sid) l)) after ++ [layer]
    /\
    textLayers (sendToBack st)
    = layer :: before ++ filter (fun l => negb (idIs (Some sid) l)) after.
Proof.
  intros st sid before layer after Hsel Hlayers Hid Hfirst.
  unfold bringToFront, sendToBack.
  rewrite (single_guard st sid Hsel).
  rewrite (selection_find st sid before layer after Hsel Hlayers Hid Hfirst).
  cbn [textLayers setTextLayers]. rewrite !addToHistory_textLayers.
  cbn [textLayers setTextLayers].
  rewrite Hsel, Hlayers. cbn [JsSet.first hd_error].
  rewrite (others_after_first sid before layer after Hid Hfirst).
  rewrite <- app_assoc. split; reflexivity.
Qed.

(** C7, as amended.  The four reorder handlers leave the state as it is
    when the selection has not exactly one id.  With one selected id,
    whose first layer in the collection stands at some index, locked or
    not: [moveLayerUp] swaps it with the layer at the index before, and
    does nothing at index 0; [moveLayerDown] swaps it with the layer at
    the index after, and does nothing at the last index; [bringToFront]
    moves it to the end of the order and [sendToBack] to the start, and
    both drop the layers further on that carry the same id, of which
    there are none when the ids of the collection are distinct. *)
Theorem reorder_single_selection :
  forall (st : EditorState),
    (JsSet.size (selectedIds st) <> 1 ->
       moveLayerUp st = Some st /\
       moveLayerDown st = Some st /\
       bringToFront st = st /\
       sendToBack st = st)
    /\
    (forall (sid : string) (before : list TextLayer.t) (layer : TextLayer.t)
            (after : list TextLayer.t),
       selectedIds st = [sid] ->
       textLayers st = before ++ layer :: after ->
       TextLayer.id layer = sid ->
       (forall l, In l before -> TextLayer.id l <> sid) ->
       (before = [] -> moveLayerUp st = Some st) /\
       (forall rest prev,
          before = rest ++ [prev] ->
          exists st',
            moveLayerUp st = Some st' /\
            textLayers st' = rest ++ layer :: prev :: after) /\
       (after = [] -> moveLayerDown st = Some st) /\
       (forall next rest,
          after = next :: rest ->
          exists st',
            moveLayerDown st = Some st' /\
            textLayers st' = before ++ next :: layer :: rest) /\
       textLayers (bringToFront st)
       = before
         ++ filter (fun other => negb (TextLayer.id other =? sid)) after
         ++ [layer] /\
       textLayers (sendToBack st)
       = layer :: before
         ++ filter (fun other => negb (TextLayer.id other =? sid)) after /\
       ((forall l, In l after -> TextLayer.id l <> sid) ->
          textLayers (bringToFront st) = before ++ after ++ [layer] /\
          textLayers (sendToBack st) = layer :: before ++ after)).
Proof.
  intros st. split.
  - intros Hsize.
    assert (Hg : (hasSelection st
                  && (JsSet.size (selectedIds st) =? 1)%nat)%bool = false).
    { apply andb_false_iff. right. apply Nat.eqb_neq. exact Hsize. }
    unfold moveLayerUp, moveLayerDown, bringToFront, sendToBack.
    rewrite Hg. repeat split.
  - intros sid before layer after Hsel Hlayers Hid Hfirst.
    split; [apply (moveLayerUp_first st sid before layer after); assumption|].
    split; [apply (moveLayerUp_swaps st sid before layer after); assumption|].
    split; [apply (moveLayerDown_last st sid before layer after); assumption|].
    split; [apply (moveLayerDown_swaps st sid before layer after); assumption|].
    destruct (front_and_back st sid before layer after Hsel Hlayers Hid Hfirst)
      as [Hfront Hback].
    split; [exact Hfront|]. split; [exact Hback|].
    intros Hlast. split.
    + apply (bringToFront_moves st sid); assumption.
    + apply (sendToBack_moves st sid); assumption.
Qed.

Lemma reorder_single_selection_witness :
  JsSet.size (selectedIds (initialState None)) <> 1 /\
  moveLayerUp (initialState None) = Some (initialState None) /\
  selectedIds lockedLayerSelected = ["text-6"] /\
  textLayers (sendToBack lockedLayerSelected) = [lockedLayer; sampleLayer].
Proof.
  assert (Hsize : JsSet.size (selectedIds (initialState None)) <> 1)
    by (simpl; lia).
  destruct (reorder_single_selection (initialState None)) as [Hnone _].
  destruct (Hnone Hsize) as (Hup & _).
  destruct (reorder_single_selection lockedLayerSelected) as [_ Hone].
  destruct (Hone "text-6" [sampleLayer] lockedLayer [] eq_refl eq_refl eq_refl)
    as (_ & _ & _ & _ & _ & _ & Hends).
  { intros l [<- | []]. discriminate. }
  destruct Hends as [_ Hback].
  { intros l []. }
  split; [exact Hsize|]. split; [exact Hup|]. split; [reflexivity|].
  exact Hback.
Defined.

(** With two layers of one id, as [duplicateLayer] can leave them,
    [bringToFront] and [sendToBack] keep the first of them only. *)
Lemma front_and_back_drop_twin :
  List.length (textLayers (duplicateLayer 5 oneLayerSelected)) = 2 /\
  JsSet.size (selectedIds (duplicateLayer 5 oneLayerSelected)) = 1 /\
  textLayers (bringToFront (duplicateLayer 5 oneLayerSelected)) = [sampleLayer]
  /\
  textLayers (sendToBack (duplicateLayer 5 oneLayerSelected)) = [sampleLayer].
Proof. repeat split. Qed.

(** C7, as stated, fails on the lock: a single selected layer that is
    locked is moved all the same. *)
Lemma moveLayerUp_moves_locked_layer :
  TextLayer.locked lockedLayer = true /\
  selectedIds lockedLayerSelected = [TextLayer.id lockedLayer] /\
  option_map textLayers (moveLayerUp lockedLayerSelected)
  = Some [lockedLayer; sampleLayer] /\
  [lockedLayer; sampleLayer] <> textLayers lockedLayerSelected.
Proof.
  split; [reflexivity|]. split; [reflexivity|]. split; [reflexivity|].
  intros H. apply (f_equal (map TextLayer.id)) in H. discriminate H.
Qed.

(** ** Alignment *)

Lemma sumBy_fold_right :
  forall (key : TextLayer.t -> R) (a : list TextLayer.t),
    sumBy key a = fold_right Rplus 0%R (map key a).
Proof.
  intros key a. unfold sumBy.
  assert (Hgen : forall (acc : R),
            fold_left (fun sum layer => (sum + key layer)%R) a acc
            = (acc + fold_right Rplus 0 (map key a))%R).
  { induction a as [|v a IH]; intros acc; simpl.
    - lra.
    - rewrite IH. lra. }
  rewrite Hgen. lra.
Qed.

Lemma sum_permutation :
  forall (u v : list R),
    Permutation u v -> fold_right Rplus 0%R u = fold_right Rplus 0%R v.
Proof.
  intros u v H. induction H; simpl; lra.
Qed.

Lemma mean_10_20_30 :
  forall (values : list R),
    Permutation values [10; 20; 30]%R -> mean values = 20%R.
Proof.
  intros values H. unfold mean.
  rewrite (sum_permutation _ _ H), (Permutation_length H). simpl. lra.
Qed.

(** Both handlers set the coordinate of the selection to its mean. *)
Lemma align_to_mean :
  forall (st : EditorState),
    (2 <= JsSet.size (selectedIds st))%nat ->
    Forall2 (alignedTo TextLayer.set_y
                       (mean (map TextLayer.y (selectedLayers st)))
                       (selectedIds st))
            (textLayers st) (textLayers (alignLayersVertically st))
    /\
    Forall2 (alignedTo TextLayer.set_x
                       (mean (map TextLayer.x (selectedLayers st)))
                       (selectedIds st))
            (textLayers st) (textLayers (alignLayersHorizontally st)).
Proof.
  intros st Hsize.
  assert (Hg : (2 <=? JsSet.size (selectedIds st))%nat = true)
    by (apply Nat.leb_le; exact Hsize).
  unfold alignLayersVertically, alignLayersHorizontally. rewrite Hg.
  fold (selectedLayers st).
  cbn [textLayers setTextLayers]. rewrite !addToHistory_textLayers.
  cbn [textLayers setTextLayers]. unfold mapSelected, mean.
  rewrite !sumBy_fold_right, !length_map.
  split; apply Forall2_map_r; intros layer _; unfold alignedTo;
    destruct (JsSet.has _ _); reflexivity.
Qed.

(** C8, as amended.  On a selection of at least two ids:
    [alignLayersVertically] sets the y of every selected layer to 20 when
    the selected y are 10, 20 and 30; [alignLayersHorizontally] sets the x
    of every selected layer to 20 when the selected x are 10, 20 and 30,
    and leaves every y as it is; both leave the other layers unchanged. *)
Theorem align_10_20_30 :
  forall (st : EditorState),
    (2 <= JsSet.size (selectedIds st))%nat ->
    (Permutation (map TextLayer.y (selectedLayers st)) [10; 20; 30]%R ->
     Forall2 (alignedTo TextLayer.set_y 20 (selectedIds st))
             (textLayers st) (textLayers (alignLayersVertically st)))
    /\
    (Permutation (map TextLayer.x (selectedLayers st)) [10; 20; 30]%R ->
     Forall2 (alignedTo TextLayer.set_x 20 (selectedIds st))
             (textLayers st) (textLayers (alignLayersHorizontally st)))
    /\
    Forall2 (fun layer layer' => TextLayer.y layer' = TextLayer.y layer)
            (textLayers st) (textLayers (alignLayersHorizontally st)).
Proof.
  intros st Hsize.
  destruct (align_to_mean st Hsize) as [Hv Hh].
  split; [|split].
  - intros Hy. rewrite (mean_10_20_30 _ Hy) in Hv. exact Hv.
  - intros Hx. rewrite (mean_10_20_30 _ Hx) in Hh. exact Hh.
  - clear Hv. induction Hh as [|layer layer' ls ls' Hl _ IH]; constructor.
    + unfold alignedTo in Hl. destruct (JsSet.has _ _); subst layer'.
      * apply TextLayerFacts.y_set_x.
      * reflexivity.
    + exact IH.
Qed.

Lemma align_10_20_30_witness :
  (2 <= JsSet.size (selectedIds threeSelected))%nat /\
  Permutation (map TextLayer.y (selectedLayers threeSelected)) [10; 20; 30]%R /\
  Forall2 (alignedTo TextLayer.set_y 20 (selectedIds threeSelected))
          (textLayers threeSelected)
          (textLayers (alignLayersVertically threeSelected)).
Proof.
  assert (Hsize : (2 <= JsSet.size (selectedIds threeSelected))%nat)
    by (simpl; lia).
  assert (Hy : Permutation (map TextLayer.y (selectedLayers threeSelected))
                           [10; 20; 30]%R)
    by apply Permutation_refl.
  split; [exact Hsize|]. split; [exact Hy|].
  destruct (align_10_20_30 threeSelected Hsize) as [Hv _].
  exact (Hv Hy).
Defined.

(** C8, as stated, fails: on layers at y = 10, 20 and 30,
    [alignLayersHorizontally] keeps the three y. *)
Lemma alignLayersHorizontally_keeps_y :
  map TextLayer.y (selectedLayers threeSelected) = [10; 20; 30]%R /\
  map TextLayer.y (textLayers (alignLayersHorizontally threeSelected))
  = [10; 20; 30]%R /\
  ~ Forall (fun layer => TextLayer.y layer = 20%R)
           (textLayers (alignLayersHorizontally threeSelected)).
Proof.
  assert (Hy : map TextLayer.y
                 (textLayers (alignLayersHorizontally threeSelected))
               = [10; 20; 30]%R) by reflexivity.
  split; [reflexivity|]. split; [exact Hy|].
  intros Hall.
  assert (Hall' : Forall (fun v => v = 20%R)
                    (map TextLayer.y
                       (textLayers (alignLayersHorizontally threeSelected)))).
  { apply Forall_map. exact Hall. }
  rewrite Hy in Hall'. apply Forall_inv in Hall'. lra.
Qed.

(** ** Warp geometry *)

Section ArcPlacement.
Local Open Scope R_scope.

Variables centerX centerY radius angle : R.

Lemma arc_angle :
  forall progress,
    - ((angle * PI) / 180) / 2 + progress * ((angle * PI) / 180)
    = (- angle / 2 + progress * angle) * PI / 180.
Proof. intros progress. field. Qed.

Lemma arc_position :
  forall progress,
    position (arcPlacement centerX centerY radius angle progress)
    = pointAtAngle centerX centerY radius (- angle / 2 + progress * angle).
Proof.
  intros progress. unfold position, arcPlacement, pointAtAngle. simpl.
  rewrite arc_angle. reflexivity.
Qed.

Lemma arc_rotation :
  forall progress,
    protation (arcPlacement centerX centerY radius angle progress)
    = (- angle / 2 + progress * angle) + 90.
Proof.
  intros progress. unfold arcPlacement. simpl.
  rewrite arc_angle. field. apply PI_neq0.
Qed.

End ArcPlacement.

(** C9.  On the arc path with anchor [(centerX, centerY)], the placement
    at progress 0 is the point at [-angle/2] degrees from the anchor, at
    progress 1 the point at [+angle/2], at progress 1/2 the point at 0
    degrees, which is [(centerX + radius, centerY)]; at every progress
    the rotation is the angle of the placement in degrees plus 90. *)
Theorem arc_endpoints_and_midpoint :
  forall (centerX centerY radius angle : R),
    let at_ := placementAt "arc" centerX centerY radius angle in
    position (at_ 0%R)
    = pointAtAngle centerX centerY radius (- angle / 2)%R /\
    position (at_ 1%R)
    = pointAtAngle centerX centerY radius (angle / 2)%R /\
    position (at_ (1 / 2)%R) = pointAtAngle centerX centerY radius 0%R /\
    position (at_ (1 / 2)%R) = ((centerX + radius)%R, centerY) /\
    (forall progress : R,
       position (at_ progress)
       = pointAtAngle centerX centerY radius
                      (- angle / 2 + progress * angle)%R /\
       protation (at_ progress)
       = ((- angle / 2 + progress * angle) + 90)%R).
Proof.
  intros centerX centerY radius angle at_.
  assert (Harc : forall progress,
            at_ progress
            = arcPlacement centerX centerY radius angle progress)
    by reflexivity.
  assert (Hmid : position (at_ (1 / 2)%R)
                 = pointAtAngle centerX centerY radius 0%R).
  { rewrite Harc, arc_position. f_equal. lra. }
  repeat split.
  - rewrite Harc, arc_position. f_equal. lra.
  - rewrite Harc, arc_position. f_equal. lra.
  - exact Hmid.
  - rewrite Hmid. unfold pointAtAngle.
    replace (0 * PI / 180)%R with 0%R by lra.
    rewrite cos_0, sin_0. f_equal; lra.
  - rewrite Harc. apply arc_position.
  - rewrite Harc. apply arc_rotation.
Qed.

(** The progress of the first, the last and the middle character. *)
Lemma progressOf_first : forall totalChars, progressOf 0 totalChars = 0%R.
Proof. intros n. unfold progressOf. simpl. lra. Qed.

Lemma progressOf_last :
  forall totalChars,
    2 <= totalChars -> progressOf (totalChars - 1) totalChars = 1%R.
Proof.
  intros n Hn. unfold progressOf.
  rewrite minus_INR by lia. simpl (INR 1).
  assert (H1 : (1 <= INR n - 1)%R).
  { apply le_INR in Hn. simpl in Hn. lra. }
  rewrite Rmax_left by exact H1. field. lra.
Qed.

Lemma progressOf_middle_of_three : progressOf 1 3 = (1 / 2)%R.
Proof.
  unfold progressOf. simpl. rewrite Rmax_left by lra. lra.
Qed.

(** A layer whose stored path type is ["arc"], ["custom"], the empty
    string or a name the switch does not know is placed by the arc
    formula. *)
Lemma getPositionAndRotation_arc :
  forall (textLayer : TextLayer.t) (index totalChars : nat),
    TextLayer.warpPathType textLayer = "arc"
    \/ TextLayer.warpPathType textLayer = ""
    \/ TextLayer.warpPathType textLayer = "custom" ->
    getPositionAndRotation textLayer index totalChars
    = arcPlacement (TextLayer.x textLayer) (TextLayer.y textLayer)
                   (TextLayer.warpRadius textLayer)
                   (TextLayer.warpAngle textLayer)
                   (progressOf index totalChars).
Proof.
  intros textLayer index totalChars [H | [H | H]];
    unfold getPositionAndRotation; rewrite H; reflexivity.
Qed.

(** ** The history bounds hold throughout a session *)

Lemma initialState_bounded :
  forall store, historyBounded (initialState store).
Proof. intros store. unfold historyBounded. simpl. lia. Qed.

Lemma addToHistory_bounded :
  forall newLayers st,
    historyBounded st -> historyBounded (addToHistory newLayers st).
Proof.
  intros newLayers st [Hlen Hcur]. unfold historyBounded.
  destruct (isUndoRedoAction st) eqn:Hf.
  - rewrite addToHistory_replay by assumption. simpl. lia.
  - destruct (Nat.eq_dec (currentStep st) 19) as [H19 | H19].
    + destruct (addToHistory_evict newLayers st Hf H19 ltac:(lia)) as [Hh Hc].
      rewrite Hh, Hc, length_app. simpl.
      destruct (history st); simpl in *; lia.
    + destruct (addToHistory_push newLayers st Hf ltac:(lia) Hcur) as [Hh Hc].
      rewrite Hh, Hc, length_app, firstn_length_le; simpl; lia.
Qed.

Lemma bounded_by_view :
  forall st st',
    historyView st' = historyView st -> historyBounded st -> historyBounded st'.
Proof.
  unfold historyView, historyBounded. intros st st' H.
  injection H as -> -> _. auto.
Qed.

Lemma act_bounded :
  forall a st st',
    historyBounded st -> act a st = Some st' -> historyBounded st'.
Proof.
  intros [m | g] st st' Hb Hact; simpl in Hact.
  - destruct (perform m st) as [st0|] eqn:Hp; [|discriminate].
    injection Hact as <-.
    apply (bounded_by_view st0); [apply reconcileSelection_frame|].
    destruct (records m st) eqn:Hr.
    + pose proof (perform_records _ _ _ Hr Hp) as Hrec.
      apply (bounded_by_view (addToHistory (textLayers st0) st)); [exact Hrec|].
      apply addToHistory_bounded. exact Hb.
    + destruct (perform_skips _ _ _ Hr Hp) as [Hv _].
      apply (bounded_by_view st); assumption.
  - injection Hact as <-.
    apply (bounded_by_view (gesture g st)); [apply reconcileSelection_frame|].
    apply (bounded_by_view st); [apply gesture_frame | exact Hb].
Qed.

Lemma undo_bounded :
  forall st,
    historyBounded st ->
    exists st', undo st = Some st' /\ historyBounded st'.
Proof.
  intros st [Hlen Hcur]. unfold undo.
  destruct (Nat.ltb_spec 0 (currentStep st)).
  - destruct (nth_error (history st) (currentStep st - 1)) eqn:Hs.
    + eexists. split; [reflexivity|]. unfold historyBounded. simpl. lia.
    + apply nth_error_None in Hs. lia.
  - exists st. split; [reflexivity | split; assumption].
Qed.

Lemma redo_bounded :
  forall st,
    historyBounded st ->
    exists st', redo st = Some st' /\ historyBounded st'.
Proof.
  intros st [Hlen Hcur]. unfold redo.
  destruct (Nat.ltb_spec (currentStep st) (List.length (history st) - 1)).
  - destruct (nth_error (history st) (currentStep st + 1)) eqn:Hs.
    + eexists. split; [reflexivity|]. unfold historyBounded. simpl. lia.
    + apply nth_error_None in Hs. lia.
  - exists st. split; [reflexivity | split; assumption].
Qed.

Lemma resetDesign_bounded : forall st, historyBounded (resetDesign st).
Proof. intros st. unfold historyBounded. simpl. lia. Qed.

(** A record written from a state within the bounds loads into a state
    within the bounds. *)
Lemma load_saved_bounded :
  forall (stamp now : N) (props props' : Props) (saved session : EditorState),
    historyBounded saved ->
    historyBounded session ->
    localStorage session = localStorage (manualSave true stamp now props saved) ->
    historyBounded (snd (loadFromLocalStorage props' session)).
Proof.
  intros stamp now props props' saved session Hs Hb Hstore.
  unfold loadFromLocalStorage. rewrite Hstore.
  cbn [manualSave saveToLocalStorage localStorage setLocalStorage setLastSaved].
  destruct (_ && _)%bool; [|exact Hb].
  exact Hs.
Qed.

(** Undo does nothing at cursor 0, and redo nothing at the last
    snapshot. *)
Lemma undo_at_start :
  forall st, currentStep st = 0 -> undo st = Some st.
Proof. intros st H. unfold undo. rewrite H. reflexivity. Qed.

Lemma redo_at_end :
  forall st,
    S (currentStep st) = List.length (history st) -> redo st = Some st.
Proof.
  intros st H. unfold redo.
  destruct (Nat.ltb_spec (currentStep st) (List.length (history st) - 1));
    [lia | reflexivity].
Qed.

(** A second way to leave the premises of the undo theorem: with a replay
    pending, the operation is not recorded, and the undo that follows at
    cursor 0 has nothing to restore. *)
Lemma undo_after_swallowed_add :
  isUndoRedoAction afterUndo = true /\
  textLayers afterUndo = [] /\
  option_map (fun st'' => List.length (textLayers st''))
             (thenUndo [Mutate (AddText 2)] afterUndo) = Some 1.
Proof. repeat split. Qed.

(** A third way: a drag on the canvas moves a layer without a snapshot,
    so the cursor no longer addresses the live collection, and the undo
    of the next operation goes back to the position before the drag. *)
Lemma undo_after_drag :
  let dragged := onDragEnd sampleLayer 70 80 oneLayerSelected in
  isUndoRedoAction dragged = false /\
  map TextLayer.x (textLayers dragged) = [70%R] /\
  option_map (fun st'' => map TextLayer.x (textLayers st''))
             (thenUndo [Mutate ToggleLock] dragged) = Some [50%R].
Proof. repeat split. Qed.

Lemma addToHistory_cap_witness :
  historyBounded fullHistory /\
  List.length (history (addToHistory [sampleLayer] fullHistory)) <= 20 /\
  nth_error (history (addToHistory [sampleLayer] fullHistory)) 19
  = Some [sampleLayer] /\
  history (addToHistory [sampleLayer] fullHistory)
  = repeat [] 19 ++ [[sampleLayer]].
Proof.
  assert (Hb : historyBounded fullHistory)
    by (unfold historyBounded; simpl; lia).
  destruct (addToHistory_cap [sampleLayer] fullHistory Hb) as [Hlen Hrec].
  destruct (Hrec eq_refl) as (Hnth & _ & Hevict & _).
  destruct Hevict as (oldest & rest & Hold & Hnew); [simpl; lia|].
  injection Hold as _ <-.
  repeat split; assumption.
Defined.

Lemma toggleLock_group_witness :
  selectedIds oneLayerSelected <> [] /\
  Exists (fun layer => TextLayer.locked layer = false)
         (selectedLayers oneLayerSelected) /\
  Forall2 (lockedTo true (selectedIds oneLayerSelected))
          (textLayers oneLayerSelected)
          (textLayers (toggleLock oneLayerSelected)).
Proof.
  assert (Hne : selectedIds oneLayerSelected <> []) by discriminate.
  assert (Hex : Exists (fun layer => TextLayer.locked layer = false)
                       (selectedLayers oneLayerSelected)).
  { apply Exists_cons_hd. reflexivity. }
  destruct (toggleLock_group oneLayerSelected Hne) as (_ & _ & Hlock).
  split; [exact Hne|]. split; [exact Hex|]. exact (Hlock Hex).
Defined.

(** ** The bounds in every state of a session *)

Lemma addToHistory_localStorage :
  forall newLayers st,
    localStorage (addToHistory newLayers st) = localStorage st.
Proof.
  intros newLayers st. unfold addToHistory.
  destruct (isUndoRedoAction st); reflexivity.
Qed.

Lemma perform_localStorage :
  forall m st st',
    perform m st = Some st' -> localStorage st' = localStorage st.
Proof.
  intros m st st'.
  destruct m; unfold perform;
    unfold addText, updateTextStyle, updateTextShadow, onChangeField,
      deleteText, moveLayerUp, moveLayerDown, bringToFront, sendToBack,
      toggleLock, duplicateLayer, toggleWarp, updateWarpProperty, setWarpPath,
      toggleSpacingHints, updateSpacingHintColor, updateSpacingHintOpacity,
      distributeLayersEvenly, distributeLayersVertically, distributeBy,
      alignLayersVertically, alignLayersHorizontally, hasSelection,
      mapSelected;
    branches; intros H; try discriminate H; injection H as <-;
    cbn [localStorage setTextLayers setSelectedIds setTextStyle];
    rewrite ?addToHistory_localStorage;
    reflexivity.
Qed.

Lemma reconcileSelection_localStorage :
  forall st, localStorage (reconcileSelection st) = localStorage st.
Proof.
  intros st. unfold reconcileSelection. destruct (_ =? _)%nat; reflexivity.
Qed.

Lemma act_localStorage :
  forall a st st',
    act a st = Some st' -> localStorage st' = localStorage st.
Proof.
  intros [m | g] st st' Hact; simpl in Hact.
  - destruct (perform m st) as [st0|] eqn:Hp; [|discriminate].
    injection Hact as <-.
    rewrite reconcileSelection_localStorage.
    apply (perform_localStorage _ _ _ Hp).
  - injection Hact as <-. rewrite reconcileSelection_localStorage.
    destruct g as [id [|] | | layer [|]]; simpl;
      unfold selectLayer, clearSelection, canvasClick,
             addToSelection, removeFromSelection;
      branches; reflexivity.
Qed.

(** Every state of a session that starts at mount over an empty store is
    within the history bounds, and so is every record it leaves in the
    store. *)
Lemma handle_bounded :
  forall e st st',
    historyBounded st /\ storeBounded (localStorage st) ->
    handle e st = Some st' ->
    historyBounded st' /\ storeBounded (localStorage st').
Proof.
  intros e st st' [Hb Hs] He.
  destruct e; simpl in He.
  - split; [apply (act_bounded _ _ _ Hb He)|].
    rewrite (act_localStorage _ _ _ He). exact Hs.
  - destruct (undo_bounded st Hb) as (st0 & Hu & Hb0).
    rewrite Hu in He. injection He as <-.
    split.
    + apply (bounded_by_view st0); [apply reconcileSelection_frame | exact Hb0].
    + rewrite reconcileSelection_localStorage.
      unfold undo in Hu. destruct (_ <? _)%nat;
        [destruct (nth_error _ _); [|discriminate]|];
        injection Hu as <-; exact Hs.
  - destruct (redo_bounded st Hb) as (st0 & Hr & Hb0).
    rewrite Hr in He. injection He as <-.
    split.
    + apply (bounded_by_view st0); [apply reconcileSelection_frame | exact Hb0].
    + rewrite reconcileSelection_localStorage.
      unfold redo in Hr. destruct (_ <? _)%nat;
        [destruct (nth_error _ _); [|discriminate]|];
        injection Hr as <-; exact Hs.
  - injection He as <-. split.
    + apply (bounded_by_view (onDragEnd textLayer nodeX nodeY st));
        [apply reconcileSelection_frame | exact Hb].
    + rewrite reconcileSelection_localStorage. exact Hs.
  - injection He as <-. split.
    + apply (bounded_by_view
               (onTransformEnd textLayer nodeX nodeY nodeRotation
                               nodeScaleX nodeScaleY st));
        [apply reconcileSelection_frame | exact Hb].
    + rewrite reconcileSelection_localStorage. exact Hs.
  - injection He as <-. split; [apply resetDesign_bounded | exact I].
  - injection He as <-. unfold manualSave, saveToLocalStorage.
    destruct writable; [|split; assumption].
    split; [exact Hb | exact Hb].
  - injection He as <-. split; [exact Hb | exact I].
  - destruct (imageUrl props =? "").
    { injection He as <-. split; [apply initialState_bounded | exact Hs]. }
    injection He as <-. unfold loadFromLocalStorage.
    cbn [localStorage initialState].
    destruct (localStorage st) as [[|d]|] eqn:Hstore;
      try (split; [apply initialState_bounded | exact I]).
    destruct (_ && _)%bool.
    + split; [exact Hs | exact Hs].
    + split; [apply initialState_bounded | exact I].
Qed.

Lemma session_bounded :
  forall events st st',
    historyBounded st /\ storeBounded (localStorage st) ->
    session events st = Some st' ->
    historyBounded st' /\ storeBounded (localStorage st').
Proof.
  induction events as [|e rest IH]; intros st st' Hinv Hrun; simpl in Hrun.
  - injection Hrun as <-. exact Hinv.
  - destruct (handle e st) as [st1|] eqn:He; [|discriminate].
    apply (IH st1); [|exact Hrun].
    apply (handle_bounded e st); assumption.
Qed.

Lemma session_from_mount_bounded :
  forall events st,
    session events (initialState None) = Some st -> historyBounded st.
Proof.
  intros events st Hrun.
  apply (session_bounded events (initialState None) st); [|exact Hrun].
  split; [apply initialState_bounded | exact I].
Qed.

(** * Further properties of the engine *)

(** ** Undo, redo and recording together *)

(** X1.  Undo and redo are inverse on the cursor: within the history
    bounds, an undo that takes effect followed by redo (and a redo that
    takes effect followed by undo) comes back to the same cursor over the
    same history, and shows the snapshot at that cursor; the selection is
    empty and the replay flag set. *)
Theorem undo_redo_round_trip :
  forall (st : EditorState),
    historyBounded st ->
    (canUndo st = true ->
     exists st1 st2,
       undo st = Some st1 /\ redo st1 = Some st2 /\
       history st2 = history st /\
       currentStep st2 = currentStep st /\
       nth_error (history st) (currentStep st) = Some (textLayers st2) /\
       selectedIds st2 = [] /\ isUndoRedoAction st2 = true)
    /\
    (canRedo st = true ->
     exists st1 st2,
       redo st = Some st1 /\ undo st1 = Some st2 /\
       history st2 = history st /\
       currentStep st2 = currentStep st /\
       nth_error (history st) (currentStep st) = Some (textLayers st2) /\
       selectedIds st2 = [] /\ isUndoRedoAction st2 = true).
Proof.
  intros st [Hlen Hcur]. split.
  - intros Hcan. unfold canUndo in Hcan. apply Nat.ltb_lt in Hcan.
    destruct (nth_error (history st) (currentStep st - 1)) as [s1|] eqn:H1.
    2:{ apply nth_error_None in H1. lia. }
    destruct (nth_error (history st) (currentStep st)) as [s2|] eqn:H2.
    2:{ apply nth_error_None in H2. lia. }
    eexists. eexists. split.
    { unfold undo. destruct (Nat.ltb_spec 0 (currentStep st)); [|lia].
      rewrite H1. reflexivity. }
    split.
    { unfold redo. cbn [history currentStep setSelectedIds setTextLayers
                         setCurrentStep setIsUndoRedoAction].
      destruct (Nat.ltb_spec (currentStep st - 1)
                             (List.length (history st) - 1)); [|lia].
      replace (currentStep st - 1 + 1) with (currentStep st) by lia.
      rewrite H2. reflexivity. }
    cbn. repeat split; lia.
  - intros Hcan. unfold canRedo in Hcan. apply Nat.ltb_lt in Hcan.
    destruct (nth_error (history st) (currentStep st + 1)) as [s1|] eqn:H1.
    2:{ apply nth_error_None in H1. lia. }
    destruct (nth_error (history st) (currentStep st)) as [s2|] eqn:H2.
    2:{ apply nth_error_None in H2. lia. }
    eexists. eexists. split.
    { unfold redo.
      destruct (Nat.ltb_spec (currentStep st) (List.length (history st) - 1));
        [|lia].
      rewrite H1. reflexivity. }
    split.
    { unfold undo. cbn [history currentStep setSelectedIds setTextLayers
                         setCurrentStep setIsUndoRedoAction].
      destruct (Nat.ltb_spec 0 (currentStep st + 1)); [|lia].
      replace (currentStep st + 1 - 1) with (currentStep st) by lia.
      rewrite H2. reflexivity. }
    cbn. repeat split; lia.
Qed.

Lemma undo_redo_round_trip_witness :
  historyBounded oneLayerAdded /\
  canUndo oneLayerAdded = true /\
  exists st1 st2,
    undo oneLayerAdded = Some st1 /\ redo st1 = Some st2 /\
    currentStep st2 = 1 /\
    textLayers st2 = textLayers oneLayerAdded.
Proof.
  assert (Hb : historyBounded oneLayerAdded)
    by (unfold historyBounded; simpl; lia).
  destruct (undo_redo_round_trip oneLayerAdded Hb) as [Hu _].
  destruct (Hu eq_refl) as (st1 & st2 & H1 & H2 & _ & Hc & Hs & _).
  split; [exact Hb|]. split; [reflexivity|].
  exists st1, st2. repeat split; try assumption.
  simpl in Hs. injection Hs as Hs. symmetry. exact Hs.
Defined.

(** X2.  After an operation that records, from a state within the bounds
    with no replay pending: the cursor addresses the live collection on
    the last snapshot, undo is available and redo is not (the snapshots
    above the old cursor are gone), and no replay is pending. *)
Theorem record_drops_redo :
  forall (m : Mutation) (st st' : EditorState),
    historyBounded st ->
    isUndoRedoAction st = false ->
    records m st = true ->
    perform m st = Some st' ->
    settled st' /\
    S (currentStep st') = List.length (history st') /\
    canUndo st' = true /\
    canRedo st' = false.
Proof.
  intros m st st' [Hlen Hcur] Hf Hrec Hp.
  pose proof (perform_records _ _ _ Hrec Hp) as Hr.
  unfold recorded, historyView in Hr. injection Hr as Hh Hc Hflag.
  assert (Hshape :
            nth_error (history st') (currentStep st') = Some (textLayers st')
            /\ S (currentStep st') = List.length (history st')
            /\ 0 < currentStep st').
  { destruct (Nat.eq_dec (currentStep st) 19) as [H19 | H19].
    - destruct (addToHistory_evict (textLayers st') st Hf H19 ltac:(lia))
        as [Hh' Hc'].
      rewrite Hh, Hc, Hh', Hc'.
      destruct (history st) as [|oldest rest] eqn:Hhist; [simpl in *; lia|].
      simpl in Hlen, Hcur. cbn [tl].
      assert (Hrest : List.length rest = 19) by lia.
      rewrite nth_error_app2, length_app, Hrest by lia.
      repeat split; simpl; lia.
    - destruct (addToHistory_push (textLayers st') st Hf ltac:(lia) Hcur)
        as [Hh' Hc'].
      rewrite Hh, Hc, Hh', Hc'.
      rewrite nth_error_app2, length_app, firstn_length_le by
          (rewrite ?firstn_length_le; lia).
      replace (currentStep st + 1 - (currentStep st + 1)) with 0 by lia.
      simpl. repeat split; lia. }
  destruct Hshape as (Hnth & Hlast & Hpos).
  split.
  { split; [|exact Hnth]. rewrite Hflag. apply addToHistory_clears_flag. }
  split; [exact Hlast|]. split.
  - unfold canUndo. apply Nat.ltb_lt. exact Hpos.
  - unfold canRedo. apply Nat.ltb_ge. lia.
Qed.

Lemma record_drops_redo_witness :
  historyBounded afterUndoAndAdd /\
  canRedo afterUndoAndAdd = true /\
  canRedo (toggleLock afterUndoAndAdd) = false.
Proof.
  assert (Hb : historyBounded afterUndoAndAdd)
    by (unfold historyBounded; simpl; lia).
  destruct (record_drops_redo ToggleLock afterUndoAndAdd
              (toggleLock afterUndoAndAdd) Hb eq_refl eq_refl eq_refl)
    as (_ & _ & _ & Hredo).
  split; [exact Hb|]. split; [reflexivity | exact Hredo].
Defined.

(** X3.  The operation that follows an undo is lost by a redo: after an
    undo that takes effect and one operation (which the replay flag keeps
    out of the history), redo is still available and shows the snapshot
    that was undone, whatever the operation installed. *)
Theorem redo_discards_swallowed_operation :
  forall (st st1 : EditorState) (gestures : list Gesture)
         (m : Mutation) (st2 : EditorState),
    historyBounded st ->
    canUndo st = true ->
    undo st = Some st1 ->
    records m (picks gestures st1) = true ->
    perform m (picks gestures st1) = Some st2 ->
    exists st3,
      redo st2 = Some st3 /\
      nth_error (history st) (currentStep st) = Some (textLayers st3) /\
      history st3 = history st /\
      currentStep st3 = currentStep st.
Proof.
  intros st st1 gestures m st2 [Hlen Hcur] Hcan Hu Hrec Hp.
  unfold canUndo in Hcan. apply Nat.ltb_lt in Hcan.
  unfold undo in Hu. destruct (Nat.ltb_spec 0 (currentStep st)); [|lia].
  destruct (nth_error (history st) (currentStep st - 1)); [|discriminate].
  injection Hu as <-.
  destruct (picks_frame gestures
              (st |> setIsUndoRedoAction true
                  |> setCurrentStep (currentStep st - 1)
                  |> setTextLayers l |> setSelectedIds [])) as [Hv _].
  pose proof (perform_records _ _ _ Hrec Hp) as Hr.
  unfold recorded in Hr.
  unfold historyView in Hv. cbn in Hv. injection Hv as Hh1 Hc1 Hf1.
  rewrite (addToHistory_replay _ _ Hf1) in Hr.
  unfold historyView in Hr. cbn in Hr. injection Hr as Hh2 Hc2 _.
  rewrite Hh1 in Hh2. rewrite Hc1 in Hc2.
  destruct (nth_error (history st) (currentStep st)) as [s|] eqn:Hs.
  2:{ apply nth_error_None in Hs. lia. }
  unfold redo. rewrite Hh2, Hc2.
  destruct (Nat.ltb_spec (currentStep st - 1) (List.length (history st) - 1));
    [|lia].
  replace (currentStep st - 1 + 1) with (currentStep st) by lia.
  rewrite Hs. eexists. split; [reflexivity|].
  cbn. rewrite Hh2. repeat split; lia.
Qed.

Lemma redo_discards_swallowed_operation_witness :
  historyBounded oneLayerAdded /\
  canUndo oneLayerAdded = true /\
  exists st3,
    redo (addText 2 afterUndo) = Some st3 /\
    textLayers st3 = textLayers oneLayerAdded.
Proof.
  assert (Hb : historyBounded oneLayerAdded)
    by (unfold historyBounded; simpl; lia).
  destruct (redo_discards_swallowed_operation
              oneLayerAdded afterUndo [] (AddText 2) (addText 2 afterUndo)
              Hb eq_refl eq_refl eq_refl eq_refl)
    as (st3 & Hr & Hs & _).
  split; [exact Hb|]. split; [reflexivity|].
  exists st3. split; [exact Hr|].
  simpl in Hs. injection Hs as Hs. symmetry. exact Hs.
Defined.

(** ** The selection set *)

Module JsSetFacts.

Import JsSet.

Lemma has_In : forall (s : t) (v : string), has s v = true <-> In v s.
Proof.
  intros s v. unfold has. rewrite existsb_exists. split.
  - intros (w & Hw & He). apply String.eqb_eq in He. subst. exact Hw.
  - intros H. exists v. split; [exact H | apply String.eqb_refl].
Qed.

Lemma has_false : forall (s : t) (v : string), has s v = false <-> ~ In v s.
Proof.
  intros s v. rewrite <- has_In. destruct (has s v); split; intros H;
    try reflexivity; try discriminate; try (intros H'; discriminate).
  exfalso. apply H. reflexivity.
Qed.

Lemma add_In :
  forall (v w : string) (s : t), In w (add v s) <-> w = v \/ In w s.
Proof.
  intros v w s. unfold add. destruct (has s v) eqn:Hh.
  - apply has_In in Hh. split; [auto|]. intros [-> | H]; assumption.
  - rewrite in_app_iff. simpl. split.
    + intros [H | [H | []]]; auto.
    + intros [H | H]; auto.
Qed.

Lemma add_NoDup : forall (v : string) (s : t), NoDup s -> NoDup (add v s).
Proof.
  intros v s Hs. unfold add. destruct (has s v) eqn:Hh; [exact Hs|].
  apply has_false in Hh. apply NoDup_app; [exact Hs | repeat constructor; auto|].
  intros w Hw [<- | []]. contradiction.
Qed.

Lemma delete_In :
  forall (v w : string) (s : t), In w (delete v s) <-> In w s /\ w <> v.
Proof.
  intros v w s. unfold delete. rewrite filter_In.
  rewrite negb_true_iff, String.eqb_neq. reflexivity.
Qed.

Lemma delete_NoDup : forall (v : string) (s : t), NoDup s -> NoDup (delete v s).
Proof. intros v s Hs. unfold delete. apply NoDup_filter. exact Hs. Qed.

Lemma ofList_from :
  forall (l : list string) (acc : t),
    NoDup acc ->
    NoDup (fold_left (fun a v => add v a) l acc) /\
    (forall w, In w (fold_left (fun a v => add v a) l acc)
               <-> In w acc \/ In w l).
Proof.
  induction l as [|v l IH]; intros acc Hacc; simpl.
  - split; [exact Hacc|]. intros w. split; [auto | intros [H | []]; exact H].
  - destruct (IH (add v acc) (add_NoDup v acc Hacc)) as [Hnd Hin].
    split; [exact Hnd|]. intros w. rewrite Hin, add_In. split.
    + intros [[-> | H] | H]; auto.
    + intros [H | [-> | H]]; auto.
Qed.

Lemma ofList_NoDup : forall (l : list string), NoDup (ofList l).
Proof. intros l. apply (ofList_from l []). constructor. Qed.

Lemma ofList_In : forall (l : list string) (w : string), In w (ofList l) <-> In w l.
Proof.
  intros l w. destruct (ofList_from l [] (NoDup_nil _)) as [_ H].
  unfold ofList. rewrite H. split; [intros [[] | H']; exact H' | auto].
Qed.

End JsSetFacts.

Lemma filter_length_same :
  forall (A : Type) (p : A -> bool) (l : list A),
    List.length (filter p l) = List.length l -> filter p l = l.
Proof.
  intros A p l. induction l as [|a l IH]; simpl; [reflexivity|].
  destruct (p a); simpl; intros H.
  - f_equal. apply IH. lia.
  - pose proof (filter_length_le p l). lia.
Qed.

Lemma reconcileSelection_selectedIds :
  forall st,
    selectedIds (reconcileSelection st)
    = filter (JsSet.has (JsSet.ofList (map TextLayer.id (textLayers st))))
             (selectedIds st).
Proof.
  intros st. unfold reconcileSelection.
  destruct (Nat.eqb_spec
              (JsSet.size
                 (filter (JsSet.has
                            (JsSet.ofList (map TextLayer.id (textLayers st))))
                         (selectedIds st)))
              (JsSet.size (selectedIds st))) as [He | Hne].
  - symmetry. apply filter_length_same. exact He.
  - reflexivity.
Qed.

(** X4.  The effect that reconciles the selection keeps, in their order,
    exactly the selected ids that name a layer of the collection; it
    changes nothing else, and running it again changes nothing. *)
Theorem reconcileSelection_keeps_valid_ids :
  forall (st : EditorState),
    (forall id,
       In id (selectedIds (reconcileSelection st))
       <-> In id (selectedIds st)
           /\ In id (map TextLayer.id (textLayers st))) /\
    (NoDup (selectedIds st) -> NoDup (selectedIds (reconcileSelection st))) /\
    textLayers (reconcileSelection st) = textLayers st /\
    historyView (reconcileSelection st) = historyView st /\
    reconcileSelection (reconcileSelection st) = reconcileSelection st.
Proof.
  intros st.
  assert (Hin : forall id,
             In id (selectedIds (reconcileSelection st))
             <-> In id (selectedIds st)
                 /\ In id (map TextLayer.id (textLayers st))).
  { intros id. rewrite reconcileSelection_selectedIds, filter_In.
    rewrite JsSetFacts.has_In, JsSetFacts.ofList_In. reflexivity. }
  destruct (reconcileSelection_frame st) as [Hv Hl].
  split; [exact Hin|]. split; [|split; [exact Hl|split; [exact Hv|]]].
  - intros Hnd. rewrite reconcileSelection_selectedIds.
    apply NoDup_filter. exact Hnd.
  - unfold reconcileSelection at 1. rewrite Hl.
    replace (filter _ (selectedIds (reconcileSelection st)))
      with (selectedIds (reconcileSelection st)).
    + rewrite Nat.eqb_refl. reflexivity.
    + symmetry. rewrite reconcileSelection_selectedIds.
      rewrite filter_all; [reflexivity|].
      intros id Hid. apply filter_In in Hid. apply Hid.
Qed.

Lemma reconcileSelection_keeps_valid_ids_witness :
  NoDup (selectedIds (setSelectedIds ["text-5"; "text-0"] oneLayerSelected)) /\
  selectedIds
    (reconcileSelection (setSelectedIds ["text-5"; "text-0"] oneLayerSelected))
  = ["text-5"] /\
  NoDup (selectedIds
           (reconcileSelection
              (setSelectedIds ["text-5"; "text-0"] oneLayerSelected))).
Proof.
  assert (Hnd : NoDup (selectedIds
                         (setSelectedIds ["text-5"; "text-0"] oneLayerSelected))).
  { simpl. repeat constructor; simpl; intuition discriminate. }
  destruct (reconcileSelection_keeps_valid_ids
              (setSelectedIds ["text-5"; "text-0"] oneLayerSelected))
    as (_ & Hkeeps & _).
  split; [exact Hnd|]. split; [reflexivity | exact (Hkeeps Hnd)].
Defined.

(** X5.  [selectLayer] without the modifier makes [id] the whole
    selection; with the modifier it flips the membership of [id] and of
    no other id, and keeps the set free of duplicates. *)
Theorem selectLayer_toggles :
  forall (id : string) (st : EditorState),
    selectedIds (selectLayer id false st) = [id] /\
    (forall other,
       In other (selectedIds (selectLayer id true st))
       <-> (other = id /\ ~ In id (selectedIds st))
           \/ (other <> id /\ In other (selectedIds st))) /\
    (NoDup (selectedIds st) -> NoDup (selectedIds (selectLayer id true st))).
Proof.
  intros id st. split; [reflexivity|].
  unfold selectLayer, addToSelection, removeFromSelection.
  destruct (JsSet.has (selectedIds st) id) eqn:Hh; cbn [selectedIds setSelectedIds].
  - apply JsSetFacts.has_In in Hh. split.
    + intros other. rewrite JsSetFacts.delete_In. split.
      * intros [Hin Hne]. right. auto.
      * intros [[-> Hn] | [Hne Hin]]; [contradiction | auto].
    + apply JsSetFacts.delete_NoDup.
  - apply JsSetFacts.has_false in Hh. split.
    + intros other. rewrite JsSetFacts.ofList_In, in_app_iff. simpl.
      destruct (string_dec other id) as [-> | Hne].
      * split; [intros _; left; auto | intros _; right; left; reflexivity].
      * split.
        -- intros [Hin | [He | []]]; [right; auto | congruence].
        -- intros [[He _] | [_ Hin]]; [congruence | left; exact Hin].
    + intros _. apply JsSetFacts.ofList_NoDup.
Qed.

Lemma selectLayer_toggles_witness :
  NoDup (selectedIds oneLayerSelected) /\
  selectedIds (selectLayer "text-7" true oneLayerSelected)
  = ["text-5"; "text-7"] /\
  NoDup (selectedIds (selectLayer "text-7" true oneLayerSelected)).
Proof.
  assert (Hnd : NoDup (selectedIds oneLayerSelected)).
  { simpl. repeat constructor; simpl; intuition discriminate. }
  destruct (selectLayer_toggles "text-7" oneLayerSelected) as (_ & _ & Hkeeps).
  split; [exact Hnd|]. split; [reflexivity | exact (Hkeeps Hnd)].
Defined.

(** The selection that a handler leaves: the one it found, one id, or
    none. *)
Lemma perform_selectedIds :
  forall m st st',
    perform m st = Some st' ->
    selectedIds st' = selectedIds st
    \/ (exists id, selectedIds st' = [id])
    \/ selectedIds st' = [].
Proof.
  intros m st st'.
  destruct m; unfold perform;
    unfold addText, updateTextStyle, updateTextShadow, onChangeField,
      deleteText, moveLayerUp, moveLayerDown, bringToFront, sendToBack,
      toggleLock, duplicateLayer, toggleWarp, updateWarpProperty, setWarpPath,
      toggleSpacingHints, updateSpacingHintColor, updateSpacingHintOpacity,
      distributeLayersEvenly, distributeLayersVertically, distributeBy,
      alignLayersVertically, alignLayersHorizontally, hasSelection,
      mapSelected;
    branches; intros H; try discriminate H; injection H as <-;
    cbn [selectedIds setTextLayers setSelectedIds setTextStyle];
    rewrite ?addToHistory_selectedIds;
    first [ left; reflexivity
          | right; left; eexists; reflexivity
          | right; right; reflexivity ].
Qed.

Lemma gesture_NoDup :
  forall g st, NoDup (selectedIds st) -> NoDup (selectedIds (gesture g st)).
Proof.
  intros [id [|] | | layer [|]] st Hnd; simpl;
    unfold selectLayer, clearSelection, canvasClick,
           addToSelection, removeFromSelection;
    branches; cbn [selectedIds setSelectedIds];
    auto using JsSetFacts.ofList_NoDup, JsSetFacts.delete_NoDup,
               JsSetFacts.add_NoDup, NoDup_nil;
    repeat constructor; auto.
Qed.

Lemma reconcileSelection_valid :
  forall st,
    NoDup (selectedIds st) -> selectionValid (reconcileSelection st).
Proof.
  intros st Hnd. unfold selectionValid.
  rewrite reconcileSelection_selectedIds. split.
  - apply NoDup_filter. exact Hnd.
  - intros id Hid. apply filter_In in Hid. destruct Hid as [_ Hh].
    apply JsSetFacts.has_In in Hh.
    apply (proj1 (JsSetFacts.ofList_In _ _)) in Hh.
    destruct (reconcileSelection_frame st) as [_ Hl].
    rewrite Hl. exact Hh.
Qed.

Lemma empty_selection_valid :
  forall st, selectedIds st = [] -> selectionValid st.
Proof.
  intros st H. unfold selectionValid. rewrite H.
  split; [constructor | intros id []].
Qed.

Lemma handle_selectionValid :
  forall e st st',
    selectionValid st -> handle e st = Some st' -> selectionValid st'.
Proof.
  intros e st st' [Hnd Hin] He.
  destruct e; simpl in He.
  - destruct a as [m | g]; simpl in He.
    + destruct (perform m st) as [st0|] eqn:Hp; [|discriminate].
      injection He as <-. apply reconcileSelection_valid.
      destruct (perform_selectedIds _ _ _ Hp) as [H | [[id H] | H]];
        rewrite H; auto; repeat constructor; auto.
    + injection He as <-. apply reconcileSelection_valid.
      apply gesture_NoDup. exact Hnd.
  - destruct (undo st) as [st0|] eqn:Hu; [|discriminate].
    injection He as <-. apply reconcileSelection_valid.
    unfold undo in Hu. destruct (_ <? _)%nat;
      [destruct (nth_error _ _); [|discriminate]|];
      injection Hu as <-; [constructor | exact Hnd].
  - destruct (redo st) as [st0|] eqn:Hr; [|discriminate].
    injection He as <-. apply reconcileSelection_valid.
    unfold redo in Hr. destruct (_ <? _)%nat;
      [destruct (nth_error _ _); [|discriminate]|];
      injection Hr as <-; [constructor | exact Hnd].
  - injection He as <-. apply reconcileSelection_valid. exact Hnd.
  - injection He as <-. apply reconcileSelection_valid. exact Hnd.
  - injection He as <-. apply empty_selection_valid. reflexivity.
  - injection He as <-. unfold manualSave, saveToLocalStorage.
    destruct writable; split; assumption.
  - injection He as <-. split; assumption.
  - destruct (imageUrl props =? "");
      injection He as <-; apply empty_selection_valid; [reflexivity|].
    unfold loadFromLocalStorage. cbn [localStorage initialState].
    destruct (localStorage st) as [[|d]|]; try reflexivity.
    destruct (_ && _)%bool; reflexivity.
Qed.

(** X6.  In every state of a session that starts at mount, the selection
    holds no id twice and every selected id names a layer of the
    collection. *)
Theorem session_selection_valid :
  forall (events : list Event) (store : option StoredItem)
         (st : EditorState),
    session events (initialState store) = Some st ->
    selectionValid st.
Proof.
  intros events store.
  assert (Hgen : forall st0 st,
             selectionValid st0 -> session events st0 = Some st ->
             selectionValid st).
  { induction events as [|e rest IH]; intros st0 st Hv Hrun; simpl in Hrun.
    - injection Hrun as <-. exact Hv.
    - destruct (handle e st0) as [st1|] eqn:He; [|discriminate].
      apply (IH st1); [|exact Hrun].
      apply (handle_selectionValid e st0); assumption. }
  intros st Hrun. apply (Hgen (initialState store)); [|exact Hrun].
  apply empty_selection_valid. reflexivity.
Qed.

Lemma session_selection_valid_witness :
  exists st,
    session [Do (Mutate (AddText 1)); Do (Mutate (DuplicateLayer 2));
             Do (Pick (SelectLayer "text-1" true)); Do (Mutate DeleteText)]
            (initialState None) = Some st /\
    selectionValid st.
Proof.
  eexists. split; [reflexivity|].
  apply (session_selection_valid
           [Do (Mutate (AddText 1)); Do (Mutate (DuplicateLayer 2));
            Do (Pick (SelectLayer "text-1" true)); Do (Mutate DeleteText)]
           None).
  reflexivity.
Defined.

(** X7.  In every state of a session that starts at mount over an empty
    store, the history holds between 1 and 20 snapshots and the cursor is
    inside it. *)
Theorem session_history_bounded :
  forall (events : list Event) (st : EditorState),
    session events (initialState None) = Some st ->
    1 <= List.length (history st) <= 20 /\
    currentStep st < List.length (history st).
Proof.
  intros events st Hrun.
  destruct (session_bounded events (initialState None) st) as [[Hl Hc] _];
    [|exact Hrun|lia].
  split; [apply initialState_bounded | exact I].
Qed.

Lemma session_history_bounded_witness :
  exists st,
    session (map (fun n => Do (Mutate (AddText (N.of_nat n)))) (seq 1 25)
             ++ [Undo; Undo; Redo])
            (initialState None) = Some st /\
    List.length (history st) <= 20 /\
    currentStep st < List.length (history st).
Proof.
  destruct (session (map (fun n => Do (Mutate (AddText (N.of_nat n))))
                         (seq 1 25) ++ [Undo; Undo; Redo])
                    (initialState None)) as [st|] eqn:Hrun.
  - exists st. split; [reflexivity|].
    destruct (session_history_bounded _ _ Hrun) as [[_ Hl] Hc].
    split; assumption.
  - exfalso. vm_compute in Hrun. discriminate Hrun.
Defined.

(** ** Reordering, again *)

Lemma exists_last_or_nil :
  forall (A : Type) (l : list A),
    l = [] \/ exists rest last, l = rest ++ [last].
Proof.
  intros A l. destruct l as [|a l]; [left; reflexivity|].
  right. destruct (exists_last (l:=a :: l)) as (rest & last & H);
    [discriminate|]. exists rest, last. exact H.
Qed.

Lemma findIndexFrom_cases :
  forall (A : Type) (p : A -> bool) (l : list A) (k : Z),
    (JsArray.findIndexFrom p l k = (-1)%Z /\ forall v, In v l -> p v = false)
    \/
    (exists before v after,
        l = before ++ v :: after /\ p v = true /\
        (forall w, In w before -> p w = false) /\
        JsArray.findIndexFrom p l k = (k + Z.of_nat (List.length before))%Z).
Proof.
  intros A p l. induction l as [|a l IH]; intros k.
  - left. split; [reflexivity | intros v []].
  - simpl. destruct (p a) eqn:Ha.
    + right. exists [], a, l. simpl.
      repeat split; auto; try lia; try (intros w []).
    + destruct (IH (k + 1)%Z) as [[Hi Hall] | (before & v & after & Hl & Hv & Hb & Hi)].
      * left. split; [exact Hi|]. intros v [<- | Hv]; auto.
      * right. exists (a :: before), v, after. subst l. simpl.
        repeat split; auto.
        -- intros w [<- | Hw]; auto.
        -- rewrite Hi. lia.
Qed.

Lemma find_cases :
  forall (A : Type) (p : A -> bool) (l : list A) (v : A),
    find p l = Some v ->
    exists before after,
      l = before ++ v :: after /\ p v = true /\
      (forall w, In w before -> p w = false).
Proof.
  intros A p l. induction l as [|a l IH]; intros v H; simpl in H.
  - discriminate.
  - destruct (p a) eqn:Ha.
    + injection H as <-. exists [], l.
      repeat split; auto; try (intros w []).
    + destruct (IH v H) as (before & after & Hl & Hv & Hb).
      exists (a :: before), after. subst l. repeat split; auto.
      intros w [<- | Hw]; auto.
Qed.

Lemma single_selection :
  forall st,
    (hasSelection st && (JsSet.size (selectedIds st) =? 1)%nat)%bool = true ->
    exists sid, selectedIds st = [sid].
Proof.
  intros st H. apply andb_true_iff in H. destruct H as [_ H].
  apply Nat.eqb_eq in H. unfold JsSet.size in H.
  destruct (selectedIds st) as [|sid [|? ?]]; try discriminate.
  exists sid. reflexivity.
Qed.

Lemma moveLayerUp_selectedIds :
  forall st st', moveLayerUp st = Some st' -> selectedIds st' = selectedIds st.
Proof.
  intros st st'. unfold moveLayerUp. branches; intros H;
    try discriminate H; injection H as <-;
    cbn [selectedIds setTextLayers]; rewrite ?addToHistory_selectedIds;
    reflexivity.
Qed.

Lemma moveLayerDown_selectedIds :
  forall st st', moveLayerDown st = Some st' -> selectedIds st' = selectedIds st.
Proof.
  intros st st'. unfold moveLayerDown. branches; intros H;
    try discriminate H; injection H as <-;
    cbn [selectedIds setTextLayers]; rewrite ?addToHistory_selectedIds;
    reflexivity.
Qed.

(** X8.  [moveLayerUp] and [moveLayerDown] undo each other: for a single
    selected layer that is not at index 0, up then down gives back the
    order of the collection; for one that is not at the last index, and
    whose neighbour above carries another id, down then up does. *)
Theorem move_up_and_down_cancel :
  forall (st : EditorState) (sid : string) (layer : TextLayer.t),
    selectedIds st = [sid] ->
    TextLayer.id layer = sid ->
    (forall rest prev after,
       textLayers st = rest ++ prev :: layer :: after ->
       (forall l, In l (rest ++ [prev]) -> TextLayer.id l <> sid) ->
       exists st1 st2,
         moveLayerUp st = Some st1 /\
         textLayers st1 = rest ++ layer :: prev :: after /\
         moveLayerDown st1 = Some st2 /\
         textLayers st2 = textLayers st)
    /\
    (forall before next rest,
       textLayers st = before ++ layer :: next :: rest ->
       (forall l, In l (before ++ [next]) -> TextLayer.id l <> sid) ->
       exists st1 st2,
         moveLayerDown st = Some st1 /\
         textLayers st1 = before ++ next :: layer :: rest /\
         moveLayerUp st1 = Some st2 /\
         textLayers st2 = textLayers st).
Proof.
  intros st sid layer Hsel Hid. split.
  - intros rest prev after Hl Hids.
    assert (Hl' : textLayers st = (rest ++ [prev]) ++ layer :: after).
    { rewrite <- app_assoc. exact Hl. }
    destruct (moveLayerUp_swaps st sid (rest ++ [prev]) layer after
                Hsel Hl' Hid Hids rest prev eq_refl)
      as (st1 & Hup & Hl1).
    assert (Hsel1 : selectedIds st1 = [sid]).
    { rewrite (moveLayerUp_selectedIds _ _ Hup). exact Hsel. }
    assert (Hrest : forall l, In l rest -> TextLayer.id l <> sid).
    { intros l Hin. apply Hids. apply in_or_app. left. exact Hin. }
    destruct (moveLayerDown_swaps st1 sid rest layer (prev :: after)
                Hsel1 Hl1 Hid Hrest prev after eq_refl)
      as (st2 & Hdown & Hl2).
    exists st1, st2. repeat split; try assumption.
    rewrite Hl2, Hl. reflexivity.
  - intros before next rest Hl Hids.
    assert (Hbefore : forall l, In l before -> TextLayer.id l <> sid).
    { intros l Hin. apply Hids. apply in_or_app. left. exact Hin. }
    destruct (moveLayerDown_swaps st sid before layer (next :: rest)
                Hsel Hl Hid Hbefore next rest eq_refl)
      as (st1 & Hdown & Hl1).
    assert (Hsel1 : selectedIds st1 = [sid]).
    { rewrite (moveLayerDown_selectedIds _ _ Hdown). exact Hsel. }
    assert (Hl1' : textLayers st1 = (before ++ [next]) ++ layer :: rest).
    { rewrite <- app_assoc. exact Hl1. }
    destruct (moveLayerUp_swaps st1 sid (before ++ [next]) layer rest
                Hsel1 Hl1' Hid Hids before next eq_refl)
      as (st2 & Hup & Hl2).
    exists st1, st2. repeat split; try assumption.
    rewrite Hl2, Hl. reflexivity.
Qed.

Lemma move_up_and_down_cancel_witness :
  exists st1 st2,
    moveLayerUp lockedLayerSelected = Some st1 /\
    textLayers st1 = [lockedLayer; sampleLayer] /\
    moveLayerDown st1 = Some st2 /\
    textLayers st2 = [sampleLayer; lockedLayer].
Proof.
  destruct (move_up_and_down_cancel lockedLayerSelected "text-6" lockedLayer
              eq_refl eq_refl) as [Hup _].
  destruct (Hup [] sampleLayer [] eq_refl) as (st1 & st2 & H1 & H2 & H3 & H4).
  { intros l [<- | []]. discriminate. }
  exists st1, st2. repeat split; assumption.
Defined.

Lemma moveLayerDown_missing :
  forall st v rest,
    (hasSelection st && (JsSet.size (selectedIds st) =? 1)%nat)%bool = true ->
    textLayers st = v :: rest ->
    JsArray.findIndex (idIs (JsSet.first (selectedIds st))) (textLayers st)
    = (-1)%Z ->
    moveLayerDown st = None.
Proof.
  intros st v rest Hg Hl Hi. unfold moveLayerDown. rewrite Hg, Hi, Hl.
  cbn [List.length].
  destruct (Z.ltb_spec (-1) (Z.of_nat (S (List.length rest)) - 1)); [|lia].
  reflexivity.
Qed.

(** X9.  Reordering neither drops nor adds a layer: whenever
    [moveLayerUp] or [moveLayerDown] completes, and, the ids of the
    collection being distinct, after [bringToFront] and [sendToBack], the
    collection is a permutation of what it was. *)
Theorem reorder_keeps_layers :
  forall (st : EditorState),
    (forall st', moveLayerUp st = Some st' ->
                 Permutation (textLayers st) (textLayers st')) /\
    (forall st', moveLayerDown st = Some st' ->
                 Permutation (textLayers st) (textLayers st')) /\
    (NoDup (map TextLayer.id (textLayers st)) ->
     Permutation (textLayers st) (textLayers (bringToFront st)) /\
     Permutation (textLayers st) (textLayers (sendToBack st))).
Proof.
  intros st.
  destruct (hasSelection st && (JsSet.size (selectedIds st) =? 1)%nat)%bool
    eqn:Hg.
  2:{ unfold moveLayerUp, moveLayerDown, bringToFront, sendToBack.
      rewrite Hg. repeat split; try (intros st' [= <-]); reflexivity. }
  destruct (single_selection st Hg) as [sid Hsel].
  destruct (findIndexFrom_cases _ (idIs (JsSet.first (selectedIds st)))
              (textLayers st) 0)
    as [[Hi Hall] | (before & layer & after & Hl & Hv & Hb & Hi)].
  - (* the selected id names no layer *)
    split; [|split].
    + intros st'. unfold moveLayerUp. rewrite Hg.
      unfold JsArray.findIndex. rewrite Hi. intros [= <-]. reflexivity.
    + intros st' Hd. destruct (textLayers st) as [|v rest] eqn:Hl.
      * revert Hd. unfold moveLayerDown. rewrite Hg, Hl.
        intros [= <-]. rewrite Hl. reflexivity.
      * rewrite <- Hl in Hi.
        rewrite (moveLayerDown_missing st v rest Hg Hl Hi) in Hd.
        discriminate Hd.
    + intros _. unfold bringToFront, sendToBack. rewrite Hg.
      destruct (find _ _) as [found|] eqn:Hf.
      * apply find_some in Hf. destruct Hf as [Hin Hp].
        rewrite (Hall _ Hin) in Hp. discriminate Hp.
      * split; reflexivity.
  - rewrite Hsel in Hv, Hb. cbn [JsSet.first hd_error] in Hv, Hb.
    assert (Hid : TextLayer.id layer = sid) by (apply idIs_iff; exact Hv).
    assert (Hfirst : forall l, In l before -> TextLayer.id l <> sid).
    { intros l Hin He. apply idIs_iff in He. rewrite (Hb l Hin) in He.
      discriminate He. }
    split; [|split].
    + intros st' Hup.
      destruct (exists_last_or_nil _ before) as [-> | (rest & prev & ->)].
      * rewrite (moveLayerUp_first st sid [] layer after Hsel Hl Hid Hfirst
                   eq_refl) in Hup.
        injection Hup as <-. reflexivity.
      * destruct (moveLayerUp_swaps st sid _ layer after Hsel Hl Hid Hfirst
                    rest prev eq_refl) as (st1 & Hup1 & Hl1).
        rewrite Hup1 in Hup. injection Hup as <-.
        rewrite Hl, Hl1, <- app_assoc. cbn [app].
        apply Permutation_app_head. apply perm_swap.
    + intros st' Hdown. destruct after as [|next rest].
      * rewrite (moveLayerDown_last st sid before layer [] Hsel Hl Hid Hfirst
                   eq_refl) in Hdown.
        injection Hdown as <-. reflexivity.
      * destruct (moveLayerDown_swaps st sid before layer _ Hsel Hl Hid Hfirst
                    next rest eq_refl) as (st1 & Hd1 & Hl1).
        rewrite Hd1 in Hdown. injection Hdown as <-.
        rewrite Hl, Hl1. apply Permutation_app_head. apply perm_swap.
    + intros Hnd.
      assert (Hlast : forall l, In l after -> TextLayer.id l <> sid).
      { intros l Hin He. rewrite Hl, map_app in Hnd. cbn [map] in Hnd.
        apply NoDup_remove_2 in Hnd. apply Hnd. apply in_or_app. right.
        rewrite Hid, <- He. apply in_map. exact Hin. }
      rewrite (bringToFront_moves st sid before layer after Hsel Hl Hid Hfirst
                 Hlast).
      rewrite (sendToBack_moves st sid before layer after Hsel Hl Hid Hfirst
                 Hlast).
      rewrite Hl. split.
      * apply Permutation_app_head.
        change (layer :: after) with ([layer] ++ after).
        apply Permutation_app_comm.
      * apply Permutation_sym. apply Permutation_middle.
Qed.

Lemma reorder_keeps_layers_witness :
  NoDup (map TextLayer.id (textLayers lockedLayerSelected)) /\
  Permutation (textLayers lockedLayerSelected)
              (textLayers (sendToBack lockedLayerSelected)).
Proof.
  assert (Hnd : NoDup (map TextLayer.id (textLayers lockedLayerSelected))).
  { simpl. repeat constructor; simpl; intuition discriminate. }
  destruct (reorder_keeps_layers lockedLayerSelected) as (_ & _ & Hends).
  destruct (Hends Hnd) as [_ Hback].
  split; [exact Hnd | exact Hback].
Defined.

(** ** Locking twice *)

Lemma set_locked_twice :
  forall b c l, TextLayer.set_locked c (TextLayer.set_locked b l)
                = TextLayer.set_locked c l.
Proof. intros b c []; reflexivity. Qed.

Lemma set_locked_same :
  forall b l, TextLayer.locked l = b -> TextLayer.set_locked b l = l.
Proof. intros b [] H; simpl in H; subst; reflexivity. Qed.

Lemma filter_map_selected :
  forall (sel : JsSet.t) (g : TextLayer.t -> TextLayer.t)
         (layers : list TextLayer.t),
    (forall l, TextLayer.id (g l) = TextLayer.id l) ->
    filter (fun layer => JsSet.has sel (TextLayer.id layer))
           (map (fun layer =>
                   if JsSet.has sel (TextLayer.id layer) then g layer
                   else layer) layers)
    = map g (filter (fun layer => JsSet.has sel (TextLayer.id layer)) layers).
Proof.
  intros sel g layers Hg. induction layers as [|l layers IH]; [reflexivity|].
  cbn [map filter]. destruct (JsSet.has sel (TextLayer.id l)) eqn:Hh.
  - rewrite Hg, Hh. cbn [map]. rewrite IH. reflexivity.
  - rewrite Hh. exact IH.
Qed.

Lemma forallb_locked_set :
  forall (c : bool) (layers : list TextLayer.t),
    layers <> [] ->
    forallb TextLayer.locked (map (TextLayer.set_locked c) layers) = c.
Proof.
  intros c layers Hne. destruct layers as [|l layers]; [contradiction|].
  clear Hne. revert l. induction layers as [|l' layers IH]; intros l.
  - simpl. rewrite TextLayerFacts.locked_set_locked. apply andb_true_r.
  - change (forallb TextLayer.locked
              (map (TextLayer.set_locked c) (l :: l' :: layers)))
      with (TextLayer.locked (TextLayer.set_locked c l)
            && forallb TextLayer.locked
                 (map (TextLayer.set_locked c) (l' :: layers)))%bool.
    rewrite IH, TextLayerFacts.locked_set_locked. destruct c; reflexivity.
Qed.

Lemma Forall2_eq_in :
  forall (A : Type) (R : A -> A -> Prop) (l l' : list A),
    (forall a b, In a l -> R a b -> b = a) ->
    Forall2 R l l' -> l' = l.
Proof.
  intros A R l l' Heq H. induction H as [|a b l l' Hab _ IH]; [reflexivity|].
  rewrite (Heq a b (or_introl eq_refl) Hab). f_equal.
  apply IH. intros a' b' Hin. apply Heq. right. exact Hin.
Qed.

(** X10.  Two presses of [toggleLock] on a non-empty selection leave every
    selected layer with the lock all of them had in common at the start
    (locked if all were locked, unlocked otherwise), and the other layers
    as they were; so on a selection that was all locked, or all unlocked,
    the collection is back to what it was. *)
Theorem toggleLock_twice :
  forall (st : EditorState),
    selectedIds st <> [] ->
    Forall2 (lockedTo (forallb TextLayer.locked (selectedLayers st))
                      (selectedIds st))
            (textLayers st) (textLayers (toggleLock (toggleLock st)))
    /\
    (Forall (fun layer => TextLayer.locked layer = true) (selectedLayers st)
     \/ Forall (fun layer => TextLayer.locked layer = false)
               (selectedLayers st) ->
     textLayers (toggleLock (toggleLock st)) = textLayers st).
Proof.
  intros st Hne.
  assert (Hhas : hasSelection st = true).
  { unfold hasSelection, JsSet.size.
    destruct (selectedIds st); [contradiction | reflexivity]. }
  set (b0 := forallb TextLayer.locked (selectedLayers st)).
  assert (Hmain : Forall2 (lockedTo b0 (selectedIds st))
                    (textLayers st) (textLayers (toggleLock (toggleLock st)))).
  { destruct (selectedLayers st) as [|s0 srest] eqn:Hsl.
    - (* no selected id names a layer: both presses do nothing *)
      assert (Hnoop : toggleLock st = st).
      { unfold toggleLock. rewrite Hhas. fold (selectedLayers st).
        rewrite Hsl. reflexivity. }
      rewrite !Hnoop. apply Forall2_same. intros layer Hin.
      unfold lockedTo.
      destruct (JsSet.has (selectedIds st) (TextLayer.id layer)) eqn:Hh;
        [|reflexivity].
      assert (Hin' : In layer (selectedLayers st)).
      { unfold selectedLayers. apply filter_In. split; assumption. }
      rewrite Hsl in Hin'. contradiction.
    - assert (Hfirst : toggleLock st
                       = st |> setTextLayers
                                 (mapSelected (TextLayer.set_locked (negb b0)) st)
                            |> addToHistory
                                 (mapSelected (TextLayer.set_locked (negb b0)) st)).
      { unfold toggleLock. rewrite Hhas. fold (selectedLayers st).
        fold b0. rewrite Hsl. reflexivity. }
      set (st1 := toggleLock st) in *.
      assert (Hsel1 : selectedIds st1 = selectedIds st).
      { rewrite Hfirst. cbn. rewrite addToHistory_selectedIds. reflexivity. }
      assert (Hl1 : textLayers st1
                    = mapSelected (TextLayer.set_locked (negb b0)) st).
      { rewrite Hfirst. cbn. rewrite addToHistory_textLayers. reflexivity. }
      assert (Hsl1 : selectedLayers st1
                     = map (TextLayer.set_locked (negb b0)) (selectedLayers st)).
      { unfold selectedLayers. rewrite Hsel1, Hl1. unfold mapSelected.
        apply filter_map_selected. apply TextLayerFacts.id_set_locked. }
      assert (Hb1 : forallb TextLayer.locked (selectedLayers st1) = negb b0).
      { rewrite Hsl1. apply forallb_locked_set. rewrite Hsl. discriminate. }
      assert (Hsecond : textLayers (toggleLock st1)
                        = mapSelected (TextLayer.set_locked b0) st1).
      { unfold toggleLock. unfold hasSelection. rewrite Hsel1.
        fold (hasSelection st). rewrite Hhas.
        rewrite <- Hsel1. fold (selectedLayers st1).
        rewrite Hb1, negb_involutive, Hsl1, length_map, Hsl.
        cbn. rewrite addToHistory_textLayers. reflexivity. }
      rewrite Hsecond. unfold mapSelected. rewrite Hsel1, Hl1.
      unfold mapSelected. rewrite map_map. apply Forall2_map_r.
      intros layer _. unfold lockedTo.
      destruct (JsSet.has (selectedIds st) (TextLayer.id layer)) eqn:Hh.
      + rewrite TextLayerFacts.id_set_locked, Hh. apply set_locked_twice.
      + rewrite Hh. reflexivity. }
  split; [exact Hmain|].
  intros Huniform.
  apply (Forall2_eq_in _ (lockedTo b0 (selectedIds st))); [|exact Hmain].
  intros layer layer' Hinl Hlt. unfold lockedTo in Hlt.
  destruct (JsSet.has (selectedIds st) (TextLayer.id layer)) eqn:Hh;
    [|exact Hlt].
  rewrite Hlt. apply set_locked_same.
  assert (Hin : In layer (selectedLayers st)).
  { unfold selectedLayers. apply filter_In. split; assumption. }
  unfold b0. destruct Huniform as [Hall | Hnone].
  - rewrite Forall_forall in Hall. rewrite (Hall _ Hin).
    symmetry. apply forallb_forall. exact Hall.
  - rewrite Forall_forall in Hnone. rewrite (Hnone _ Hin).
    symmetry. apply not_true_is_false. intros Hb.
    rewrite forallb_forall in Hb.
    pose proof (Hnone _ Hin) as H1. pose proof (Hb _ Hin) as H2.
    congruence.
Qed.

Lemma toggleLock_twice_witness :
  selectedIds oneLayerSelected <> [] /\
  Forall (fun layer => TextLayer.locked layer = false)
         (selectedLayers oneLayerSelected) /\
  textLayers (toggleLock (toggleLock oneLayerSelected))
  = textLayers oneLayerSelected.
Proof.
  assert (Hne : selectedIds oneLayerSelected <> []) by discriminate.
  assert (Hun : Forall (fun layer => TextLayer.locked layer = false)
                       (selectedLayers oneLayerSelected)).
  { repeat constructor. }
  destruct (toggleLock_twice oneLayerSelected Hne) as [_ Hback].
  split; [exact Hne|]. split; [exact Hun|]. apply Hback. right. exact Hun.
Defined.


(** ** Alignment and distribution *)


Section AlignOnce.

Variable key : TextLayer.t -> R.
Variable setKey : R -> TextLayer.t -> TextLayer.t.
Hypothesis key_set : forall v l, key (setKey v l) = v.
Hypothesis id_set : forall v l, TextLayer.id (setKey v l) = TextLayer.id l.
Hypothesis set_set : forall v w l, setKey w (setKey v l) = setKey w l.

Variable st : EditorState.




End AlignOnce.









Lemma insertBy_permutation :
  forall (key : TextLayer.t -> R) (a : TextLayer.t) (l : list TextLayer.t),
    Permutation (insertBy key a l) (a :: l).
Proof.
  intros key a l. induction l as [|b l IH]; simpl.
  - apply Permutation_refl.
  - destruct (Rle_dec (key a) (key b)).
    + apply Permutation_refl.
    + eapply perm_trans; [apply perm_skip, IH | apply perm_swap].
Qed.

Lemma sortBy_permutation :
  forall (key : TextLayer.t -> R) (l : list TextLayer.t),
    Permutation (sortBy key l) l.
Proof.
  intros key l. induction l as [|a l IH]; simpl.
  - apply perm_nil.
  - eapply perm_trans; [apply insertBy_permutation | apply perm_skip, IH].
Qed.

Lemma insertBy_sorted :
  forall (key : TextLayer.t -> R) (a : TextLayer.t) (l : list TextLayer.t),
    StronglySorted (fun u v => (key u <= key v)%R) l ->
    StronglySorted (fun u v => (key u <= key v)%R) (insertBy key a l).
Proof.
  intros key a l H. induction H as [|b l Hs IH Hb]; simpl.
  - constructor; constructor.
  - destruct (Rle_dec (key a) (key b)) as [Hle | Hgt].
    + constructor; [constructor; assumption|].
      constructor; [exact Hle|].
      rewrite Forall_forall in Hb |- *. intros v Hv.
      specialize (Hb v Hv). lra.
    + constructor; [exact IH|].
      rewrite Forall_forall in Hb |- *. intros v Hv.
      apply (Permutation_in _ (insertBy_permutation key a l)) in Hv.
      destruct Hv as [<- | Hv]; [lra | auto].
Qed.

Lemma sortBy_sorted :
  forall (key : TextLayer.t -> R) (l : list TextLayer.t),
    StronglySorted (fun u v => (key u <= key v)%R) (sortBy key l).
Proof.
  intros key l. induction l as [|a l IH]; simpl.
  - constructor.
  - apply insertBy_sorted, IH.
Qed.

Lemma findIndexFrom_position :
  forall (l : list TextLayer.t) (i : nat) (v : TextLayer.t) (k : Z),
    NoDup (map TextLayer.id l) ->
    nth_error l i = Some v ->
    JsArray.findIndexFrom (fun w => TextLayer.id w =? TextLayer.id v) l k
    = (k + Z.of_nat i)%Z.
Proof.
  induction l as [|a l IH]; intros i v k Hnd Hi.
  - destruct i; discriminate.
  - inversion Hnd as [|? ? Hnotin Hnd']; subst. destruct i as [|i].
    + injection Hi as ->. simpl. rewrite String.eqb_refl. lia.
    + simpl in Hi. simpl.
      destruct (TextLayer.id a =? TextLayer.id v) eqn:Heq.
      * apply String.eqb_eq in Heq. exfalso. apply Hnotin. rewrite Heq.
        apply in_map. eapply nth_error_In. exact Hi.
      * rewrite (IH i v (k + 1)%Z Hnd' Hi). lia.
Qed.

(** X12.  In exact arithmetic (the coordinates are real numbers, the
    step is not rounded), distributing spreads the selected layers in equal
    steps between the two extreme ones.  With at least three selected ids,
    at least two selected layers in the collection and no id shared by two
    of them, [distributeBy] (the body of [distributeLayersEvenly] for x and
    of [distributeLayersVertically] for y) returns a state in which the
    selected layer at position [i] of the selected layers sorted by the
    coordinate is written the coordinate [first + i * step], where [step]
    is [(last - first) / (n - 1)]; the value written at the last position
    is [last], the layers outside the selection are untouched and the
    selection is kept. *)
Theorem distribute_even_steps :
  forall (key : TextLayer.t -> R) (setKey : R -> TextLayer.t -> TextLayer.t)
         (st : EditorState),
    (3 <= JsSet.size (selectedIds st))%nat ->
    (2 <= List.length (selectedLayers st))%nat ->
    NoDup (map TextLayer.id (selectedLayers st)) ->
    let sorted := sortBy key (selectedLayers st) in
    let n := List.length sorted in
    Permutation sorted (selectedLayers st) /\
    StronglySorted (fun u v => (key u <= key v)%R) sorted /\
    exists (firstLayer lastLayer : TextLayer.t) (st' : EditorState),
      hd_error sorted = Some firstLayer /\
      nth_error sorted (n - 1) = Some lastLayer /\
      distributeBy key setKey st = Some st' /\
      let step := ((key lastLayer - key firstLayer) / (INR n - 1))%R in
      Forall2 (spreadTo setKey sorted (key firstLayer) step (selectedIds st))
              (textLayers st) (textLayers st') /\
      (key firstLayer + INR (n - 1) * step)%R = key lastLayer /\
      selectedIds st' = selectedIds st.
Proof.
  intros key setKey st Hsize Hlen Hnd. cbv zeta.
  assert (Hperm := sortBy_permutation key (selectedLayers st)).
  assert (Hnd' := Permutation_NoDup
                    (Permutation_map TextLayer.id (Permutation_sym Hperm)) Hnd).
  split; [exact Hperm|]. split; [apply sortBy_sorted|].
  unfold distributeBy.
  destruct (Nat.leb_spec 3 (JsSet.size (selectedIds st))); [|lia].
  cbv zeta. fold (selectedLayers st).
  assert (Hn := Permutation_length Hperm).
  remember (sortBy key (selectedLayers st)) as sorted eqn:Hsorted.
  remember (List.length sorted) as n eqn:Hlength.
  destruct sorted as [|firstLayer rest]; [simpl in Hlength; lia|].
  destruct (nth_error (firstLayer :: rest) (n - 1)) as [lastLayer|] eqn:Hlast.
  2:{ apply nth_error_None in Hlast. lia. }
  cbn [hd_error].
  destruct (Nat.eqb_spec n 1); [lia|].
  eexists firstLayer, lastLayer, _.
  split; [reflexivity|]. split; [reflexivity|]. split; [reflexivity|].
  cbv zeta. split; [|split].
  - rewrite addToHistory_textLayers. unfold setTextLayers.
    cbn [textLayers]. unfold mapSelected.
    apply Forall2_map_r. intros layer Hin. unfold spreadTo.
    destruct (JsSet.has (selectedIds st) (TextLayer.id layer)) eqn:Hh;
      [|reflexivity].
    assert (Hsel : In layer (firstLayer :: rest)).
    { apply (Permutation_in _ (Permutation_sym Hperm)).
      unfold selectedLayers. apply filter_In. split; assumption. }
    destruct (In_nth_error _ _ Hsel) as [i Hi].
    exists i. split; [exact Hi|].
    unfold JsArray.findIndex.
    rewrite (findIndexFrom_position (firstLayer :: rest) i layer 0 Hnd' Hi).
    rewrite Z.add_0_l, <- INR_IZR_INZ. reflexivity.
  - rewrite minus_INR by lia. simpl (INR 1). field.
    assert (H2 : (2 <= INR n)%R) by (apply (le_INR 2); lia). lra.
  - cbn. rewrite addToHistory_selectedIds. reflexivity.
Qed.

Lemma distribute_even_steps_witness :
  (3 <= JsSet.size (selectedIds threeSelected))%nat /\
  (2 <= List.length (selectedLayers threeSelected))%nat /\
  NoDup (map TextLayer.id (selectedLayers threeSelected)) /\
  Permutation (sortBy TextLayer.x (selectedLayers threeSelected))
              (selectedLayers threeSelected).
Proof.
  assert (Hsize : (3 <= JsSet.size (selectedIds threeSelected))%nat)
    by (simpl; lia).
  assert (Hlen : (2 <= List.length (selectedLayers threeSelected))%nat)
    by (simpl; lia).
  assert (Hnd : NoDup (map TextLayer.id (selectedLayers threeSelected))).
  { simpl. repeat constructor; simpl; intuition discriminate. }
  destruct (distribute_even_steps TextLayer.x TextLayer.set_x threeSelected
              Hsize Hlen Hnd) as [Hperm _].
  repeat split; assumption.
Defined.

(** ** Where warped characters are placed *)

Section PlacementBounds.
Local Open Scope R_scope.

Lemma scaled_bound :
  forall (r u : R), -1 <= u <= 1 -> Rabs (r * u) <= Rabs r.
Proof.
  intros r u Hu. rewrite Rabs_mult.
  assert (Hr := Rabs_pos r).
  assert (Habs : Rabs u <= 1) by (apply Rabs_le; exact Hu).
  assert (Hpos := Rabs_pos u). nra.
Qed.

Ltac scaled u :=
  match goal with
  | |- Rabs ?e <= Rabs ?r =>
      replace e with (r * u); [apply scaled_bound | try field; try ring]
  end.

Lemma fraction_bound : forall (x : R), 0 <= x - IZR (Zfloor x) < 1.
Proof. intros x. destruct (Zfloor_bound x). lra. Qed.

Lemma progressOf_bound :
  forall (index totalChars : nat),
    (index < totalChars)%nat -> 0 <= progressOf index totalChars <= 1.
Proof.
  intros index totalChars Hlt. unfold progressOf.
  assert (Hi : 0 <= INR index) by apply pos_INR.
  assert (Hle : INR index <= INR totalChars - 1).
  { replace (INR totalChars - 1) with (INR (totalChars - 1)).
    - apply le_INR. lia.
    - rewrite minus_INR by lia. reflexivity. }
  assert (Hmax : 1 <= Rmax (INR totalChars - 1) 1) by apply Rmax_r.
  assert (Hmax' : INR totalChars - 1 <= Rmax (INR totalChars - 1) 1)
    by apply Rmax_l.
  split.
  - apply Rmult_le_pos; [exact Hi|].
    apply Rlt_le, Rinv_0_lt_compat. lra.
  - apply (Rmult_le_reg_r (Rmax (INR totalChars - 1) 1)); [lra|].
    unfold Rdiv. rewrite Rmult_assoc, Rinv_l by lra. lra.
Qed.

Lemma arcPlacement_within :
  forall (centerX centerY radius angle progress : R),
    withinRadius centerX centerY radius
                 (arcPlacement centerX centerY radius angle progress).
Proof.
  intros. unfold withinRadius, arcPlacement. cbn [px py]. split.
  - scaled (cos (- (angle * PI / 180) / 2 + progress * (angle * PI / 180))).
    apply COS_bound.
  - scaled (sin (- (angle * PI / 180) / 2 + progress * (angle * PI / 180))).
    apply SIN_bound.
Qed.

Lemma circle_within :
  forall (centerX centerY radius a : R),
    withinRadius centerX centerY radius
                 (mkPlacement (centerX + radius * cos a)
                              (centerY + radius * sin a)
                              (a * 180 / PI + 90)).
Proof.
  intros. unfold withinRadius. cbn [px py]. split.
  - scaled (cos a). apply COS_bound.
  - scaled (sin a). apply SIN_bound.
Qed.

Lemma wave_within :
  forall (centerX centerY radius progress waveCount waveIndex rot : R),
    0 <= progress <= 1 ->
    1 <= waveCount ->
    let waveFraction := progress * waveCount - waveIndex in
    let waveX :=
      centerX + (waveIndex - waveCount / 2) * (radius * 2 / waveCount) in
    let nextWaveX :=
      centerX + (waveIndex + 1 - waveCount / 2) * (radius * 2 / waveCount) in
    withinRadius centerX centerY radius
                 (mkPlacement (waveX + waveFraction * (nextWaveX - waveX))
                              (centerY + sin (waveFraction * PI) * (radius * 0.3))
                              rot).
Proof.
  intros centerX centerY radius progress waveCount waveIndex rot Hp Hc.
  cbv zeta. unfold withinRadius. cbn [px py]. split.
  - scaled (2 * progress - 1); [lra | lra].
  - scaled (0.3 * sin ((progress * waveCount - waveIndex) * PI)).
    assert (Hs := SIN_bound ((progress * waveCount - waveIndex) * PI)). lra.
Qed.

Lemma spiral_within :
  forall (centerX centerY radius progress a rot : R),
    0 <= progress <= 1 ->
    withinRadius centerX centerY radius
                 (mkPlacement (centerX + radius * 0.8 * progress * cos a)
                              (centerY + radius * 0.8 * progress * sin a)
                              rot).
Proof.
  intros centerX centerY radius progress a rot Hp.
  unfold withinRadius. cbn [px py].
  assert (Hc := COS_bound a). assert (Hs := SIN_bound a). split.
  - scaled (0.8 * progress * cos a). nra.
  - scaled (0.8 * progress * sin a). nra.
Qed.

Lemma zigzag_within :
  forall (centerX centerY radius progress zigzagProgress : R) (even : bool),
    0 <= progress <= 1 ->
    let zigzagFraction := zigzagProgress - IZR (Zfloor zigzagProgress) in
    withinRadius centerX centerY radius
                 (mkPlacement
                    (centerX - radius
                     + progress * (centerX + radius - (centerX - radius)))
                    (centerY
                     + (if even then - (radius * 0.4) else radius * 0.4)
                       * (1 - zigzagFraction))
                    0).
Proof.
  intros centerX centerY radius progress zigzagProgress even Hp.
  cbv zeta. unfold withinRadius. cbn [px py].
  assert (Hf := fraction_bound zigzagProgress). split.
  - scaled (2 * progress - 1). lra.
  - destruct even.
    + scaled (- (0.4 * (1 - (zigzagProgress - IZR (Zfloor zigzagProgress))))).
      lra.
    + scaled (0.4 * (1 - (zigzagProgress - IZR (Zfloor zigzagProgress)))).
      lra.
Qed.

Lemma cube_bound : forall (s : R), -1 <= s <= 1 -> -1 <= s ^ 3 <= 1.
Proof.
  intros s Hs. simpl. assert (H2 : 0 <= s * s <= 1) by nra. nra.
Qed.

Lemma heart_within :
  forall (centerX centerY radius a rot : R),
    withinRadius centerX centerY radius
                 (mkPlacement
                    (centerX + 16 * sin a ^ 3 * (radius / 50))
                    (centerY
                     + - (13 * cos a - 5 * cos (2 * a) - 2 * cos (3 * a)
                          - cos (4 * a)) * (radius / 50))
                    rot).
Proof.
  intros centerX centerY radius a rot. unfold withinRadius. cbn [px py].
  split.
  - scaled (16 * sin a ^ 3 / 50).
    assert (Hs := cube_bound (sin a) (SIN_bound a)). lra.
  - scaled (- (13 * cos a - 5 * cos (2 * a) - 2 * cos (3 * a)
               - cos (4 * a)) / 50).
    assert (H1 := COS_bound a). assert (H2 := COS_bound (2 * a)).
    assert (H3 := COS_bound (3 * a)). assert (H4 := COS_bound (4 * a)). lra.
Qed.

Lemma jsRem_fraction :
  forall (a b : R), 0 <= a -> 0 < b -> 0 <= jsRem a b / b < 1.
Proof.
  intros a b Ha Hb. unfold jsRem.
  assert (Hq : 0 <= a / b).
  { apply Rmult_le_pos; [exact Ha | apply Rlt_le, Rinv_0_lt_compat, Hb]. }
  destruct (Rle_dec 0 (a / b)) as [_ | Hn]; [|contradiction].
  replace ((a - b * IZR (Zfloor (a / b))) / b)
    with (a / b - IZR (Zfloor (a / b))) by (field; lra).
  apply fraction_bound.
Qed.

Lemma star_within :
  forall (centerX centerY radius starFraction a rot : R) (even : bool),
    0 <= starFraction < 1 ->
    let radius1 := if even then radius else radius * 0.4 in
    let radius2 := if even then radius * 0.4 else radius in
    let interpolatedRadius := radius1 + starFraction * (radius2 - radius1) in
    withinRadius centerX centerY radius
                 (mkPlacement (centerX + interpolatedRadius * cos a)
                              (centerY + interpolatedRadius * sin a)
                              rot).
Proof.
  intros centerX centerY radius starFraction a rot even Hf.
  cbv zeta. unfold withinRadius. cbn [px py].
  assert (Hc := COS_bound a). assert (Hs := SIN_bound a).
  destruct even; split.
  - scaled ((1 - (1 - 0.4) * starFraction) * cos a). nra.
  - scaled ((1 - (1 - 0.4) * starFraction) * sin a). nra.
  - scaled ((0.4 + (1 - 0.4) * starFraction) * cos a). nra.
  - scaled ((0.4 + (1 - 0.4) * starFraction) * sin a). nra.
Qed.

Lemma placementAt_within :
  forall (pathType : string) (centerX centerY radius angle progress : R),
    0 <= progress <= 1 ->
    withinRadius centerX centerY radius
                 (placementAt pathType centerX centerY radius angle progress).
Proof.
  intros pathType centerX centerY radius angle progress Hp.
  unfold placementAt.
  destruct (pathType =? "arc")%string; [apply arcPlacement_within|].
  destruct (pathType =? "circle")%string; [apply circle_within|].
  destruct (pathType =? "wave")%string.
  { apply wave_within; [exact Hp|].
    apply (IZR_le 1). apply Z.le_max_l. }
  destruct (pathType =? "spiral")%string.
  { cbv zeta. apply spiral_within. exact Hp. }
  destruct (pathType =? "zigzag")%string.
  { apply zigzag_within. exact Hp. }
  destruct (pathType =? "heart")%string; [apply heart_within|].
  destruct (pathType =? "star")%string; [|apply arcPlacement_within].
  apply star_within. apply jsRem_fraction.
  - assert (Hpi := PI_RGT_0). nra.
  - assert (Hpi := PI_RGT_0). lra.
Qed.

End PlacementBounds.

(** X13.  Warped text stays by its anchor: whatever the path type, every
    character that [renderWarpedText] draws is placed no further than
    [warpRadius] from the layer's [x] and from its [y]. *)
Theorem warped_text_within_radius :
  forall (textLayer : TextLayer.t) (drawn : list (ascii * Placement)),
    renderWarpedText textLayer = Some drawn ->
    Forall (fun charAt =>
              withinRadius (TextLayer.x textLayer) (TextLayer.y textLayer)
                           (TextLayer.warpRadius textLayer) (snd charAt))
           drawn.
Proof.
  intros textLayer drawn Hdrawn. unfold renderWarpedText in Hdrawn.
  destruct (negb (TextLayer.isWarped textLayer)
            || noPath (TextLayer.warpPath textLayer)); [discriminate|].
  injection Hdrawn as <-. apply Forall_map. apply Forall_forall.
  intros [index char] Hin. cbn [fst snd].
  apply in_combine_l in Hin. apply in_seq in Hin.
  unfold getPositionAndRotation. apply placementAt_within.
  apply progressOf_bound. lia.
Qed.

Lemma warped_text_within_radius_witness :
  exists drawn,
    renderWarpedText warpedLayer = Some drawn /\
    Forall (fun charAt => withinRadius 50 50 100 (snd charAt)) drawn.
Proof.
  eexists. split; [reflexivity|].
  apply (warped_text_within_radius warpedLayer). reflexivity.
Defined.

Lemma find_replace :
  forall (A : Type) (p : A -> bool) (l : list A) (v w : A),
    find p l = Some v ->
    p w = true ->
    find p (map (fun x => if p x then w else x) l) = Some w.
Proof.
  intros A p l v w. induction l as [|a l IH]; intros Hfind Hw.
  - discriminate.
  - simpl in Hfind. cbn [map]. destruct (p a) eqn:Ha.
    + simpl. rewrite Hw. reflexivity.
    + simpl. rewrite Ha. apply IH; assumption.
Qed.

Lemma snd_combine_seq :
  forall (A : Type) (l : list A) (k : nat),
    map snd (combine (seq k (List.length l)) l) = l.
Proof.
  intros A l. induction l as [|a l IH]; intros k; [reflexivity|].
  simpl. rewrite IH. reflexivity.
Qed.

(** X14.  [toggleWarp] switches a single selected layer between straight
    and warped drawing: pressed on a layer that is not warped it leaves a
    layer for which [renderWarpedText] draws the characters of the text, one
    by one and in order (a default arc is written when the layer had no
    path); pressed on a warped layer it leaves one for which
    [renderWarpedText] draws nothing. *)
Theorem toggleWarp_switches_rendering :
  forall (st : EditorState) (sid : string) (layer : TextLayer.t),
    selectedIds st = [sid] ->
    find (idIs (Some sid)) (textLayers st) = Some layer ->
    exists (layer' : TextLayer.t),
      find (idIs (Some sid)) (textLayers (toggleWarp st)) = Some layer' /\
      TextLayer.isWarped layer' = negb (TextLayer.isWarped layer) /\
      (TextLayer.isWarped layer = false ->
       exists drawn,
         renderWarpedText layer' = Some drawn /\
         map fst drawn = list_ascii_of_string (TextLayer.text layer)) /\
      (TextLayer.isWarped layer = true -> renderWarpedText layer' = None).
Proof.
  intros st sid layer Hsel Hfind.
  assert (Hid : idIs (Some sid) layer = true).
  { apply find_some in Hfind. apply Hfind. }
  unfold toggleWarp.
  assert (Hg : (hasSelection st && (JsSet.size (selectedIds st) =? 1)%nat)%bool
               = true)
    by (unfold hasSelection; rewrite Hsel; reflexivity).
  rewrite Hg, Hsel. cbn [JsSet.first hd_error]. rewrite Hfind. cbv zeta.
  rewrite addToHistory_textLayers. unfold setTextLayers. cbn [textLayers].
  eexists. split.
  - apply (find_replace _ _ _ layer); [exact Hfind|].
    destruct layer as [i x y t s r sx sy lk w p pt wr wa ws sh shc sho cf].
    unfold idIs in *. cbn in Hid.
    destruct w, p; cbn; exact Hid.
  - destruct layer as [i x y t s r sx sy lk w p pt wr wa ws sh shc sho cf].
    cbn [TextLayer.isWarped TextLayer.warpPath TextLayer.text
         TextLayer.set_isWarped TextLayer.set_warpPath].
    split; [|split].
    + destruct w, p; reflexivity.
    + intros ->. unfold renderWarpedText.
      destruct p as [|c p]; cbn [negb andb noPath orb TextLayer.isWarped
                                 TextLayer.warpPath TextLayer.text
                                 TextLayer.set_isWarped TextLayer.set_warpPath
                                 arcPath];
        (eexists; split; [reflexivity|]);
        rewrite map_map; cbn [fst]; apply snd_combine_seq.
    + intros ->. reflexivity.
Qed.

Lemma toggleWarp_switches_rendering_witness :
  exists layer' drawn,
    find (idIs (Some "text-5")) (textLayers (toggleWarp oneLayerSelected))
    = Some layer' /\
    renderWarpedText layer' = Some drawn /\
    map fst drawn = list_ascii_of_string "Double click to edit".
Proof.
  destruct (toggleWarp_switches_rendering oneLayerSelected "text-5" sampleLayer
              eq_refl eq_refl) as (layer' & Hfind & _ & Hon & _).
  destruct (Hon eq_refl) as (drawn & Hdrawn & Hchars).
  exists layer', drawn. repeat split; assumption.
Defined.

Lemma placementAt_circle :
  forall (centerX centerY radius angle progress : R),
    placementAt "circle" centerX centerY radius angle progress
    = mkPlacement (centerX + radius * cos (progress * 2 * PI))%R
                  (centerY + radius * sin (progress * 2 * PI))%R
                  (progress * 2 * PI * 180 / PI + 90)%R.
Proof. reflexivity. Qed.

Lemma placementAt_heart :
  forall (centerX centerY radius angle progress : R),
    placementAt "heart" centerX centerY radius angle progress
    = let heartAngle := (progress * 2 * PI)%R in
      mkPlacement
        (centerX + 16 * sin heartAngle ^ 3 * (radius / 50))%R
        (centerY
         + - (13 * cos heartAngle - 5 * cos (2 * heartAngle)
              - 2 * cos (3 * heartAngle) - cos (4 * heartAngle))
           * (radius / 50))%R
        (atan2 (cos heartAngle) (- sin heartAngle) * 180 / PI)%R.
Proof. reflexivity. Qed.

Lemma cos_turns : forall (k : nat), cos (INR k * (1 * 2 * PI)) = 1%R.
Proof.
  intros k.
  replace (INR k * (1 * 2 * PI))%R with (0 + 2 * INR k * PI)%R by ring.
  rewrite cos_period. apply cos_0.
Qed.

Lemma sin_turn : sin (1 * 2 * PI) = 0%R.
Proof.
  replace (1 * 2 * PI)%R with (2 * PI)%R by ring. apply sin_2PI.
Qed.

(** X15.  On the closed shapes the text bites its tail: for a layer of
    path type circle or heart and a text of at least two characters, the
    last character is placed exactly where the first one is. *)
Theorem closed_path_overlaps_ends :
  forall (textLayer : TextLayer.t) (totalChars : nat),
    2 <= totalChars ->
    TextLayer.warpPathType textLayer = "circle"
    \/ TextLayer.warpPathType textLayer = "heart" ->
    position (getPositionAndRotation textLayer (totalChars - 1) totalChars)
    = position (getPositionAndRotation textLayer 0 totalChars).
Proof.
  intros textLayer totalChars Hn Htype.
  unfold getPositionAndRotation.
  rewrite progressOf_first, (progressOf_last _ Hn).
  assert (H1 := cos_turns 1). assert (H2 := cos_turns 2).
  assert (H3 := cos_turns 3). assert (H4 := cos_turns 4).
  simpl INR in H1, H2, H3, H4.
  replace (1 * (1 * 2 * PI))%R with (1 * 2 * PI)%R in H1 by ring.
  replace ((1 + 1) * (1 * 2 * PI))%R with (2 * (1 * 2 * PI))%R in H2 by ring.
  replace ((1 + 1 + 1) * (1 * 2 * PI))%R with (3 * (1 * 2 * PI))%R in H3
    by ring.
  replace ((1 + 1 + 1 + 1) * (1 * 2 * PI))%R with (4 * (1 * 2 * PI))%R in H4
    by ring.
  assert (Hzero : forall c : R, (c * (0 * 2 * PI) = 0)%R) by (intros; ring).
  destruct Htype as [-> | ->].
  - change (if ("circle" =? "")%string then "arc"%string else "circle"%string)
      with "circle"%string.
    rewrite !placementAt_circle. unfold position. cbn [px py].
    rewrite H1, sin_turn.
    replace (0 * 2 * PI)%R with 0%R by ring. rewrite cos_0, sin_0.
    reflexivity.
  - change (if ("heart" =? "")%string then "arc"%string else "heart"%string)
      with "heart"%string.
    rewrite !placementAt_heart. cbv zeta. unfold position. cbn [px py].
    rewrite H1, H2, H3, H4, sin_turn, !Hzero.
    replace (0 * 2 * PI)%R with 0%R by ring. rewrite cos_0, sin_0.
    reflexivity.
Qed.

Lemma closed_path_overlaps_ends_witness :
  2 <= 3 /\
  position (getPositionAndRotation warpedLayer 2 3)
  = position (getPositionAndRotation warpedLayer 0 3).
Proof.
  split; [lia|].
  apply (closed_path_overlaps_ends warpedLayer 3); [lia|].
  left. reflexivity.
Defined.

(** ** The store across images and reloads *)

(** X16.  A design saved for another image is thrown away: when the stored
    record differs from the props in its url, width or height,
    [loadFromLocalStorage] returns [false], leaves the layers, the history
    and the cursor as they are, and removes the record, so that no later
    load, for whatever image, finds it. *)
Theorem load_discards_other_image :
  forall (props : Props) (st : EditorState) (d : SaveData.t),
    localStorage st = Some (Parsed d) ->
    SaveData.imageUrl d <> imageUrl props
    \/ SaveData.imageWidth d <> imageWidth props
    \/ SaveData.imageHeight d <> imageHeight props ->
    exists (st' : EditorState),
      loadFromLocalStorage props st = (false, st') /\
      textLayers st' = textLayers st /\
      history st' = history st /\
      currentStep st' = currentStep st /\
      localStorage st' = None /\
      forall props', loadFromLocalStorage props' st' = (false, st').
Proof.
  intros props st d Hstore Hdiff.
  unfold loadFromLocalStorage at 1. rewrite Hstore.
  assert (Hcheck : ((SaveData.imageUrl d =? imageUrl props)
                    && (SaveData.imageWidth d =? imageWidth props)%Z
                    && (SaveData.imageHeight d =? imageHeight props)%Z)%bool
                   = false).
  { destruct Hdiff as [H | [H | H]].
    - apply String.eqb_neq in H. rewrite H. reflexivity.
    - apply Z.eqb_neq in H. rewrite H. apply andb_false_iff. left.
      apply andb_false_r.
    - apply Z.eqb_neq in H. rewrite H. apply andb_false_r. }
  rewrite Hcheck. eexists. split; [reflexivity|].
  repeat split.
Qed.

Lemma load_discards_other_image_witness :
  exists st',
    loadFromLocalStorage otherImage mountedOverSaved = (false, st') /\
    localStorage st' = None /\
    loadFromLocalStorage sampleProps st' = (false, st').
Proof.
  destruct (load_discards_other_image otherImage mountedOverSaved futureRecord
              eq_refl) as (st' & Hload & _ & _ & _ & Hstore & Hlater).
  { left. discriminate. }
  exists st'. split; [exact Hload|]. split; [exact Hstore | apply Hlater].
Defined.

(** X17.  Undo and redo work across a reload: a design saved with
    [manualSave] and loaded at the next mount for the same image shows the
    layers it had, and undo and redo then lead to the same layers, over the
    same history and at the same cursor, as they did before the save. *)
Theorem undo_survives_reload :
  forall (props : Props) (stamp now : N) (st : EditorState),
    let saved := manualSave true stamp now props st in
    let mounted := loadFromLocalStorage props (initialState (localStorage saved)) in
    let view := fun s : EditorState => (textLayers s, history s, currentStep s) in
    fst mounted = true /\
    view (snd mounted) = view st /\
    option_map view (undo (snd mounted)) = option_map view (undo st) /\
    option_map view (redo (snd mounted)) = option_map view (redo st).
Proof.
  intros props stamp now st. cbv zeta.
  unfold manualSave, saveToLocalStorage, currentSaveRequest,
         loadFromLocalStorage.
  cbn [localStorage setLocalStorage setLastSaved initialState
       req_imageUrl req_imageWidth req_imageHeight req_textLayers
       req_history req_currentStep
       SaveData.imageUrl SaveData.imageWidth SaveData.imageHeight
       SaveData.textLayers SaveData.history SaveData.currentStep
       SaveData.timestamp orElse].
  rewrite String.eqb_refl, !Z.eqb_refl. cbn [andb fst snd].
  split; [reflexivity|]. split; [reflexivity|].
  unfold undo, redo.
  cbn [currentStep history setTextLayers setHistory setCurrentStep setLastSaved
       textLayers].
  split.
  - destruct (0 <? currentStep st)%nat; [|reflexivity].
    destruct (nth_error (history st) (currentStep st - 1)); reflexivity.
  - destruct (currentStep st <? List.length (history st) - 1)%nat;
      [|reflexivity].
    destruct (nth_error (history st) (currentStep st + 1)); reflexivity.
Qed.

(** X18.  A move on the canvas is not an undo step: [onDragEnd] and
    [onTransformEnd] leave the history, the cursor and the replay flag as
    they are, so that, away from cursor 0, the undo that follows shows the
    same layers as an undo without the move would have. *)
Theorem canvas_move_is_not_recorded :
  forall (textLayer : TextLayer.t)
         (nodeX nodeY nodeRotation nodeScaleX nodeScaleY : R)
         (st : EditorState),
    let dragged := onDragEnd textLayer nodeX nodeY st in
    let transformed :=
      onTransformEnd textLayer nodeX nodeY nodeRotation nodeScaleX nodeScaleY
                     st in
    historyView dragged = historyView st /\
    historyView transformed = historyView st /\
    (0 < currentStep st ->
     option_map textLayers (undo dragged) = option_map textLayers (undo st) /\
     option_map textLayers (undo transformed)
     = option_map textLayers (undo st)).
Proof.
  intros textLayer nodeX nodeY nodeRotation nodeScaleX nodeScaleY st.
  cbv zeta. split; [reflexivity|]. split; [reflexivity|].
  intros Hstep. unfold undo, onDragEnd, onTransformEnd.
  cbn [currentStep history setTextLayers].
  destruct (Nat.ltb_spec 0 (currentStep st)); [|lia].
  destruct (nth_error (history st) (currentStep st - 1)); split; reflexivity.
Qed.

Lemma canvas_move_is_not_recorded_witness :
  0 < currentStep oneLayerSelected /\
  map TextLayer.x (textLayers (onDragEnd sampleLayer 70 80 oneLayerSelected))
  = [70%R] /\
  option_map textLayers (undo (onDragEnd sampleLayer 70 80 oneLayerSelected))
  = option_map textLayers (undo oneLayerSelected).
Proof.
  assert (Hstep : 0 < currentStep oneLayerSelected) by (simpl; lia).
  destruct (canvas_move_is_not_recorded sampleLayer 70 80 0 1 1
              oneLayerSelected) as (_ & _ & Hundo).
  destruct (Hundo Hstep) as [Hdrag _].
  split; [exact Hstep|]. split; [reflexivity | exact Hdrag].
Defined.

(** ** No handler throws in a session *)

Lemma first_occurrence :
  forall (sid : string) (layers : list TextLayer.t),
    In sid (map TextLayer.id layers) ->
    exists before layer after,
      layers = before ++ layer :: after /\
      TextLayer.id layer = sid /\
      forall l, In l before -> TextLayer.id l <> sid.
Proof.
  intros sid layers. induction layers as [|a layers IH]; intros Hin.
  - destruct Hin.
  - destruct (string_dec (TextLayer.id a) sid) as [Heq | Hneq].
    + exists [], a, layers. repeat split; [exact Heq | intros l []].
    + destruct Hin as [Heq | Hin]; [contradiction|].
      destruct (IH Hin) as (before & layer & after & Hl & Hid & Hb).
      exists (a :: before), layer, after. subst layers.
      repeat split; [exact Hid|].
      intros l [<- | Hl]; auto.
Qed.

Lemma single_selection_splits :
  forall st,
    selectionValid st ->
    (hasSelection st && (JsSet.size (selectedIds st) =? 1)%nat)%bool = true ->
    exists sid before layer after,
      selectedIds st = [sid] /\
      textLayers st = before ++ layer :: after /\
      TextLayer.id layer = sid /\
      forall l, In l before -> TextLayer.id l <> sid.
Proof.
  intros st [_ Hin] Hg.
  destruct (single_selection st Hg) as [sid Hsel].
  destruct (first_occurrence sid (textLayers st))
    as (before & layer & after & Hl & Hid & Hb).
  { apply Hin. rewrite Hsel. left. reflexivity. }
  exists sid, before, layer, after. repeat split; assumption.
Qed.

Lemma moveLayerUp_runs :
  forall st, selectionValid st -> exists st', moveLayerUp st = Some st'.
Proof.
  intros st Hv.
  destruct (hasSelection st && (JsSet.size (selectedIds st) =? 1)%nat)%bool
    eqn:Hg.
  - destruct (single_selection_splits st Hv Hg)
      as (sid & before & layer & after & Hsel & Hl & Hid & Hb).
    destruct (exists_last_or_nil _ before) as [-> | (rest & prev & ->)].
    + exists st. apply (moveLayerUp_first st sid [] layer after); auto.
    + destruct (moveLayerUp_swaps st sid (rest ++ [prev]) layer after
                  Hsel Hl Hid Hb rest prev eq_refl) as (st' & Hup & _).
      exists st'. exact Hup.
  - exists st. unfold moveLayerUp. rewrite Hg. reflexivity.
Qed.

Lemma moveLayerDown_runs :
  forall st, selectionValid st -> exists st', moveLayerDown st = Some st'.
Proof.
  intros st Hv.
  destruct (hasSelection st && (JsSet.size (selectedIds st) =? 1)%nat)%bool
    eqn:Hg.
  - destruct (single_selection_splits st Hv Hg)
      as (sid & before & layer & after & Hsel & Hl & Hid & Hb).
    destruct after as [|next rest].
    + exists st. apply (moveLayerDown_last st sid before layer []); auto.
    + destruct (moveLayerDown_swaps st sid before layer (next :: rest)
                  Hsel Hl Hid Hb next rest eq_refl) as (st' & Hdown & _).
      exists st'. exact Hdown.
  - exists st. unfold moveLayerDown. rewrite Hg. reflexivity.
Qed.

Lemma selected_layers_cover :
  forall st,
    selectionValid st ->
    JsSet.size (selectedIds st) <= List.length (selectedLayers st).
Proof.
  intros st [Hnd Hin]. unfold JsSet.size.
  rewrite <- (length_map TextLayer.id (selectedLayers st)).
  apply NoDup_incl_length; [exact Hnd|].
  intros sid Hsid. specialize (Hin sid Hsid).
  apply in_map_iff in Hin. destruct Hin as (layer & Hid & Hlayer).
  apply in_map_iff. exists layer. split; [exact Hid|].
  unfold selectedLayers. apply filter_In. split; [exact Hlayer|].
  rewrite Hid. apply JsSetFacts.has_In. exact Hsid.
Qed.

Lemma distributeBy_runs :
  forall key setKey st,
    selectionValid st -> exists st', distributeBy key setKey st = Some st'.
Proof.
  intros key setKey st Hv. unfold distributeBy.
  destruct (Nat.leb_spec 3 (JsSet.size (selectedIds st))) as [Hsize|];
    [|exists st; reflexivity].
  cbv zeta. fold (selectedLayers st).
  assert (Hcover := selected_layers_cover st Hv).
  assert (Hn := Permutation_length (sortBy_permutation key (selectedLayers st))).
  remember (sortBy key (selectedLayers st)) as sorted eqn:Hsorted.
  remember (List.length sorted) as n eqn:Hlength.
  destruct sorted as [|firstLayer rest]; [simpl in Hlength; lia|].
  destruct (nth_error (firstLayer :: rest) (n - 1)) as [lastLayer|] eqn:Hlast.
  2:{ apply nth_error_None in Hlast. lia. }
  cbn [hd_error].
  destruct (Nat.eqb_spec n 1); [lia|].
  eexists. reflexivity.
Qed.

Lemma perform_runs :
  forall m st, selectionValid st -> exists st', perform m st = Some st'.
Proof.
  intros m st Hv.
  destruct m; cbn [perform];
    try (eexists; reflexivity);
    auto using moveLayerUp_runs, moveLayerDown_runs.
  - apply distributeBy_runs. exact Hv.
  - apply distributeBy_runs. exact Hv.
Qed.

Lemma handle_runs :
  forall e st,
    selectionValid st -> historyBounded st ->
    exists st', handle e st = Some st'.
Proof.
  intros e st Hv Hb. destruct e; cbn [handle]; try (eexists; reflexivity).
  - destruct a as [m | g]; cbn [act]; [|eexists; reflexivity].
    destruct (perform_runs m st Hv) as [st' ->]. eexists. reflexivity.
  - destruct (undo_bounded st Hb) as (st' & -> & _). eexists. reflexivity.
  - destruct (redo_bounded st Hb) as (st' & -> & _). eexists. reflexivity.
  - cbv zeta. destruct (imageUrl props =? ""); eexists; reflexivity.
Qed.

Lemma session_runs :
  forall events st,
    selectionValid st ->
    historyBounded st /\ storeBounded (localStorage st) ->
    exists st', session events st = Some st'.
Proof.
  induction events as [|e rest IH]; intros st Hv Hb.
  - exists st. reflexivity.
  - cbn [session].
    destruct (handle_runs e st Hv (proj1 Hb)) as [st1 He]. rewrite He.
    apply IH.
    + apply (handle_selectionValid e st); assumption.
    + apply (handle_bounded e st); assumption.
Qed.

(** X19.  No handler throws in a session: from a mount over an empty
    store, every sequence of events (operations on the layers, gestures on
    the selection, undo, redo, moves on the canvas, reset, saves, clearing
    the store and new mounts) runs to its end; no undo or redo reads a
    snapshot outside the history, and no reordering or distribution reads a
    layer that is not there. *)
Theorem session_never_throws :
  forall (events : list Event),
    exists (st : EditorState),
      session events (initialState None) = Some st.
Proof.
  intros events. apply session_runs.
  - apply empty_selection_valid. reflexivity.
  - split; [apply initialState_bounded | exact I].
Qed.

(** ** Adding, deleting and the lock *)

Lemma filter_other_ids :
  forall (sid : string) (layers : list TextLayer.t),
    ~ In sid (map TextLayer.id layers) ->
    filter (fun layer => negb (TextLayer.id layer =? sid)) layers = layers.
Proof.
  intros sid layers Hfresh. apply filter_all. intros layer Hin.
  apply negb_true_iff, String.eqb_neq. intros Heq. apply Hfresh.
  rewrite <- Heq. apply in_map. exact Hin.
Qed.

Lemma deleteText_single :
  forall (sid : string) (st : EditorState),
    selectedIds st = [sid] ->
    textLayers (deleteText st)
    = filter (fun layer => negb (TextLayer.id layer =? sid)) (textLayers st)
    /\ selectedIds (deleteText st) = [].
Proof.
  intros sid st Hsel. unfold deleteText, hasSelection. rewrite Hsel.
  cbn [JsSet.size List.length Nat.ltb Nat.leb].
  unfold setSelectedIds. cbn [textLayers selectedIds].
  rewrite addToHistory_textLayers. unfold setTextLayers. cbn [textLayers].
  split; [|reflexivity].
  apply filter_ext. intros layer. unfold JsSet.has. cbn [existsb].
  rewrite orb_false_r. reflexivity.
Qed.

(** X20.  Adding a layer and deleting it again: [addText] selects the new
    layer alone, and the [deleteText] that follows removes it together with
    every layer that carries the same id; when the id is new to the
    collection, the collection is back to what it was, and the selection is
    empty. *)
Theorem add_then_delete :
  forall (now : N) (st : EditorState),
    let st' := deleteText (addText now st) in
    textLayers st'
    = filter (fun layer => negb (TextLayer.id layer =? freshId now))
             (textLayers st) /\
    selectedIds st' = [] /\
    (~ In (freshId now) (map TextLayer.id (textLayers st)) ->
     textLayers st' = textLayers st).
Proof.
  intros now st. cbv zeta.
  destruct (deleteText_single (freshId now) (addText now st) eq_refl)
    as [Hlayers Hsel].
  assert (Hadded : textLayers (addText now st)
                   = textLayers st
                     ++ [TextLayer.mk (freshId now) 50 50 "Double click to edit"
                                      (textStyle st) 0 1 1 false false []
                                      "arc" 100 180 1 false "#3B82F6" 0.6 []]).
  { unfold addText. cbv zeta. unfold setSelectedIds. cbn [textLayers].
    rewrite addToHistory_textLayers. reflexivity. }
  rewrite Hadded, filter_app in Hlayers. cbn [filter TextLayer.id] in Hlayers.
  rewrite String.eqb_refl in Hlayers. cbn [negb] in Hlayers.
  rewrite app_nil_r in Hlayers.
  split; [exact Hlayers|]. split; [exact Hsel|].
  intros Hfresh. rewrite Hlayers. apply filter_other_ids. exact Hfresh.
Qed.

Lemma add_then_delete_witness :
  ~ In (freshId 9) (map TextLayer.id (textLayers oneLayerSelected)) /\
  textLayers (deleteText (addText 9 oneLayerSelected))
  = textLayers oneLayerSelected.
Proof.
  assert (Hfresh : ~ In (freshId 9)
                        (map TextLayer.id (textLayers oneLayerSelected))).
  { simpl. intros [H | []]. discriminate H. }
  destruct (add_then_delete 9 oneLayerSelected) as (_ & _ & Hback).
  split; [exact Hfresh | exact (Hback Hfresh)].
Defined.

(** X21.  The lock guards the canvas, not the panel: a click on a locked
    layer on the canvas changes nothing, but [selectLayer] from the layer
    list selects the layer, and [deleteText] then removes it like any
    other, leaving the layers of other ids in their order. *)
Theorem lock_does_not_prevent_delete :
  forall (st : EditorState) (layer : TextLayer.t),
    TextLayer.locked layer = true ->
    In layer (textLayers st) ->
    (forall isMultiSelect, canvasClick layer isMultiSelect st = st) /\
    let st' := deleteText (selectLayer (TextLayer.id layer) false st) in
    ~ In layer (textLayers st') /\
    textLayers st'
    = filter (fun other => negb (TextLayer.id other =? TextLayer.id layer))
             (textLayers st).
Proof.
  intros st layer Hlocked Hin. split.
  - intros isMultiSelect. unfold canvasClick. rewrite Hlocked. reflexivity.
  - cbv zeta.
    destruct (deleteText_single (TextLayer.id layer)
                (selectLayer (TextLayer.id layer) false st) eq_refl)
      as [Hlayers _].
    change (textLayers (selectLayer (TextLayer.id layer) false st))
      with (textLayers st) in Hlayers.
    split; [|exact Hlayers].
    rewrite Hlayers. intros Hstill. apply filter_In in Hstill.
    destruct Hstill as [_ Hneq]. rewrite String.eqb_refl in Hneq.
    discriminate Hneq.
Qed.

Lemma lock_does_not_prevent_delete_witness :
  TextLayer.locked lockedLayer = true /\
  In lockedLayer (textLayers lockedLayerSelected) /\
  textLayers (deleteText (selectLayer "text-6" false lockedLayerSelected))
  = [sampleLayer].
Proof.
  assert (Hin : In lockedLayer (textLayers lockedLayerSelected))
    by (right; left; reflexivity).
  destruct (lock_does_not_prevent_delete lockedLayerSelected lockedLayer
              eq_refl Hin) as [_ [_ Hlayers]].
  split; [reflexivity|]. split; [exact Hin|].
  eapply eq_trans; [exact Hlayers | reflexivity].
Defined.

(** ** The style of the next layer *)

Lemma addToHistory_textStyle :
  forall newLayers st, textStyle (addToHistory newLayers st) = textStyle st.
Proof.
  intros newLayers st. unfold addToHistory.
  destruct (isUndoRedoAction st); reflexivity.
Qed.

Lemma updateTextStyle_textStyle :
  forall p st,
    textStyle (updateTextStyle p st) = StylePatch.apply p (textStyle st).
Proof.
  intros p st. unfold updateTextStyle. cbv zeta.
  unfold setTextStyle. cbn [textStyle].
  destruct (hasSelection st); [|reflexivity].
  rewrite addToHistory_textStyle. reflexivity.
Qed.

Lemma undo_textStyle :
  forall st st', undo st = Some st' -> textStyle st' = textStyle st.
Proof.
  intros st st'. unfold undo.
  destruct (0 <? currentStep st)%nat;
    [destruct (nth_error (history st) (currentStep st - 1))|];
    intros H; try discriminate H; injection H as <-; reflexivity.
Qed.

(** X22.  Undo does not reach the style of the next layer: a style change
    made with [updateTextStyle] is also written to the template for new
    layers, and after the undo that takes the change back from the layers,
    the template still carries it, so that the layer that [addText] adds
    next is styled with it. *)
Theorem style_template_outlives_undo :
  forall (p : StylePatch.t) (now : N) (st st' : EditorState),
    undo (updateTextStyle p st) = Some st' ->
    textStyle st' = StylePatch.apply p (textStyle st) /\
    exists (newText : TextLayer.t),
      textLayers (addText now st') = textLayers st' ++ [newText] /\
      TextLayer.id newText = freshId now /\
      TextLayer.style newText = StylePatch.apply p (textStyle st).
Proof.
  intros p now st st' Hundo.
  assert (Hstyle : textStyle st' = StylePatch.apply p (textStyle st)).
  { rewrite (undo_textStyle _ _ Hundo). apply updateTextStyle_textStyle. }
  split; [exact Hstyle|].
  eexists. split; [|split].
  - unfold addText. cbv zeta. unfold setSelectedIds. cbn [textLayers].
    rewrite addToHistory_textLayers. reflexivity.
  - reflexivity.
  - cbn [TextLayer.style]. exact Hstyle.
Qed.

Lemma style_template_outlives_undo_witness :
  exists st' newText,
    undo (updateTextStyle (StylePatch.fill "#FF0000") oneLayerSelected)
    = Some st' /\
    textLayers st' = [sampleLayer] /\
    textLayers (addText 9 st') = [sampleLayer; newText] /\
    TextStyle.fill (TextLayer.style newText) = "#FF0000".
Proof.
  destruct (style_template_outlives_undo (StylePatch.fill "#FF0000") 9
              oneLayerSelected _ eq_refl)
    as (_ & newText & Hadded & _ & Hstyle).
  eexists _, newText. split; [reflexivity|]. split; [reflexivity|].
  split; [exact Hadded|]. rewrite Hstyle. reflexivity.
Defined.

(** ** The stage *)

(** X23.  The canvas fits the stage and keeps the shape of the image: for
    an image of positive width and height, the canvas is at most 800 wide
    and 600 high, reaches one of the two bounds (a small image is scaled
    up), and its width is to its height as the width of the image is to
    its height. *)
Theorem canvas_fits_stage :
  forall (props : Props),
    (0 < imageWidth props)%Z ->
    (0 < imageHeight props)%Z ->
    (canvasWidth props <= 800)%R /\
    (canvasHeight props <= 600)%R /\
    (canvasWidth props = 800%R \/ canvasHeight props = 600%R) /\
    (canvasWidth props * IZR (imageHeight props)
     = canvasHeight props * IZR (imageWidth props))%R.
Proof.
  intros props Hw Hh.
  apply (IZR_lt 0) in Hw. apply (IZR_lt 0) in Hh.
  unfold canvasWidth, canvasHeight, scale, maxWidth, maxHeight. cbv zeta.
  set (w := IZR (imageWidth props)) in *.
  set (h := IZR (imageHeight props)) in *.
  assert (Hwx : (w * (800 / w) = 800)%R) by (field; lra).
  assert (Hhy : (h * (600 / h) = 600)%R) by (field; lra).
  unfold Rmin. destruct (Rle_dec (800 / w) (600 / h)) as [Hle | Hgt].
  - assert (Hbound : (h * (800 / w) <= h * (600 / h))%R)
      by (apply Rmult_le_compat_l; lra).
    repeat split; lra.
  - assert (Hbound : (w * (600 / h) <= w * (800 / w))%R)
      by (apply Rmult_le_compat_l; lra).
    repeat split; lra.
Qed.

Lemma canvas_fits_stage_witness :
  (0 < imageWidth sampleProps)%Z /\
  (0 < imageHeight sampleProps)%Z /\
  (canvasWidth sampleProps <= 800)%R.
Proof.
  assert (Hw : (0 < imageWidth sampleProps)%Z) by (simpl; lia).
  assert (Hh : (0 < imageHeight sampleProps)%Z) by (simpl; lia).
  destruct (canvas_fits_stage sampleProps Hw Hh) as [Hfit _].
  repeat split; assumption.
Defined.

(** ** Spacing hints *)

Lemma neighbours_length :
  forall (a : list TextLayer.t),
    List.length (neighbours a) = List.length a - 1.
Proof.
  intros a. unfold neighbours. rewrite length_combine.
  destruct a as [|v a]; [reflexivity|]. cbn [tl List.length]. lia.
Qed.

Lemma neighbours_sorted :
  forall (key : TextLayer.t -> R) (a : list TextLayer.t),
    StronglySorted (fun u v => (key u <= key v)%R) a ->
    Forall (fun pair => (key (fst pair) <= key (snd pair))%R) (neighbours a).
Proof.
  intros key a Hs. unfold neighbours.
  induction Hs as [|u a Hs IH Hu]; [constructor|].
  destruct a as [|v a]; [constructor|].
  cbn [tl combine]. constructor.
  - cbn [fst snd]. inversion Hu; assumption.
  - exact IH.
Qed.

Lemma flat_map_pairs_length :
  forall (A B : Type) (f : A -> list B) (l : list A),
    (forall a, List.length (f a) = 2) ->
    List.length (flat_map f l) = 2 * List.length l.
Proof.
  intros A B f l Hf. induction l as [|a l IH]; [reflexivity|].
  cbn [flat_map]. rewrite length_app, Hf, IH. cbn [List.length]. lia.
Qed.

Lemma round_not_negative : forall (v : R), (0 <= v)%R -> (0 <= round v)%Z.
Proof.
  intros v Hv. unfold round. apply Zfloor_lub. simpl. lra.
Qed.

Lemma nth_error_combine :
  forall (A B : Type) (l : list A) (l' : list B) (i : nat) (u : A) (v : B),
    nth_error l i = Some u ->
    nth_error l' i = Some v ->
    nth_error (combine l l') i = Some (u, v).
Proof.
  intros A B l. induction l as [|a l IH]; intros l' i u v Hu Hv.
  - destruct i; discriminate Hu.
  - destruct l' as [|b l']; [destruct i; discriminate Hv|].
    destruct i as [|i]; cbn in *.
    + congruence.
    + apply IH; assumption.
Qed.

Lemma neighbours_nth :
  forall (a : list TextLayer.t) (i : nat) (current next : TextLayer.t),
    nth_error a i = Some current ->
    nth_error a (S i) = Some next ->
    nth_error (neighbours a) i = Some (current, next).
Proof.
  intros a i current next Hcurrent Hnext. unfold neighbours.
  apply nth_error_combine; [exact Hcurrent|].
  rewrite nth_error_tl. exact Hnext.
Qed.

Lemma flat_map_pairs_nth :
  forall (A B : Type) (h : A -> list B) (f g : A -> B) (l : list A)
         (i : nat) (a : A),
    (forall v, h v = [f v; g v]) ->
    nth_error l i = Some a ->
    nth_error (flat_map h l) (2 * i) = Some (f a) /\
    nth_error (flat_map h l) (2 * i + 1) = Some (g a).
Proof.
  intros A B h f g l. induction l as [|v l IH]; intros i a Hh Hi.
  - destruct i; discriminate Hi.
  - cbn [flat_map]. rewrite Hh. destruct i as [|i].
    + injection Hi as ->. split; reflexivity.
    + replace (2 * S i) with (S (S (2 * i))) by lia.
      replace (S (S (2 * i)) + 1) with (S (S (2 * i + 1))) by lia.
      cbn [app nth_error]. apply IH; assumption.
Qed.

Lemma nth_error_app_l :
  forall (A : Type) (l l' : list A) (i : nat) (v : A),
    nth_error l i = Some v -> nth_error (l ++ l') i = Some v.
Proof.
  intros A l l' i v H. rewrite nth_error_app1; [exact H|].
  apply nth_error_Some. rewrite H. discriminate.
Qed.

Lemma nth_error_app_r :
  forall (A : Type) (l l' : list A) (i : nat) (v : A),
    nth_error l' i = Some v ->
    nth_error (l ++ l') (List.length l + i) = Some v.
Proof.
  intros A l l' i v H. rewrite nth_error_app2 by lia.
  replace (List.length l + i - List.length l) with i by lia. exact H.
Qed.

Lemma neighbours_in_order :
  forall (key : TextLayer.t -> R) (a : list TextLayer.t) (i : nat)
         (current next : TextLayer.t),
    StronglySorted (fun u v => (key u <= key v)%R) a ->
    nth_error a i = Some current ->
    nth_error a (S i) = Some next ->
    (0 <= key next - key current)%R.
Proof.
  intros key a i current next Hs Hcurrent Hnext.
  pose proof (neighbours_sorted key a Hs) as Hall.
  rewrite Forall_forall in Hall.
  specialize (Hall (current, next)
                   (nth_error_In _ _ (neighbours_nth a i _ _ Hcurrent Hnext))).
  cbn [fst snd] in Hall. lra.
Qed.

(** X24.  Spacing hints measure the gaps between neighbours: with fewer
    than two layers that show hints, [renderSpacingHints] draws nothing;
    with [n >= 2] of them it draws [4 (n - 1)] elements: for the layers in
    the order of their x, and for each layer and the next one in this
    order, a dashed line of length 40 centred between the two and a label
    with the rounded difference of their x, which is not negative; then
    the same for the order of their y, with vertical lines and the
    difference of their y. *)
Theorem spacing_hints_between_neighbours :
  forall (textLayers : list TextLayer.t),
    let hinted := filter TextLayer.showSpacingHints textLayers in
    let n := List.length hinted in
    (n < 2 -> renderSpacingHints textLayers = None) /\
    (2 <= n ->
     exists hints sortedByX sortedByY,
       renderSpacingHints textLayers = Some hints /\
       List.length hints = 4 * (n - 1) /\
       Permutation sortedByX hinted /\
       StronglySorted (fun u v => (TextLayer.x u <= TextLayer.x v)%R)
                      sortedByX /\
       Permutation sortedByY hinted /\
       StronglySorted (fun u v => (TextLayer.y u <= TextLayer.y v)%R)
                      sortedByY /\
       (forall i currentLayer nextLayer,
          nth_error sortedByX i = Some currentLayer ->
          nth_error sortedByX (S i) = Some nextLayer ->
          let spacing :=
            (TextLayer.x nextLayer - TextLayer.x currentLayer)%R in
          let centerX := (TextLayer.x currentLayer + spacing / 2)%R in
          let centerY :=
            ((TextLayer.y currentLayer + TextLayer.y nextLayer) / 2)%R in
          nth_error hints (2 * i)
          = Some (HintLine [centerX - 20; centerY; centerX + 20; centerY]%R
                           (hintColor currentLayer)
                           (hintOpacity currentLayer)) /\
          nth_error hints (2 * i + 1)
          = Some (HintText centerX (centerY - 15)%R (round spacing)
                           (hintColor currentLayer)
                           (hintOpacity currentLayer)) /\
          (0 <= spacing)%R /\ (0 <= round spacing)%Z) /\
       (forall i currentLayer nextLayer,
          nth_error sortedByY i = Some currentLayer ->
          nth_error sortedByY (S i) = Some nextLayer ->
          let spacing :=
            (TextLayer.y nextLayer - TextLayer.y currentLayer)%R in
          let centerX :=
            ((TextLayer.x currentLayer + TextLayer.x nextLayer) / 2)%R in
          let centerY := (TextLayer.y currentLayer + spacing / 2)%R in
          nth_error hints (2 * (n - 1) + 2 * i)
          = Some (HintLine [centerX; centerY - 20; centerX; centerY + 20]%R
                           (hintColor currentLayer)
                           (hintOpacity currentLayer)) /\
          nth_error hints (2 * (n - 1) + (2 * i + 1))
          = Some (HintText (centerX + 15)%R centerY (round spacing)
                           (hintColor currentLayer)
                           (hintOpacity currentLayer)) /\
          (0 <= spacing)%R /\ (0 <= round spacing)%Z)).
Proof.
  intros textLayers hinted n. unfold renderSpacingHints. cbv zeta.
  fold hinted. fold n.
  destruct (Nat.ltb_spec n 2) as [Hlt | Hge]; [split; [reflexivity | lia]|].
  split; [lia|]. intros _.
  assert (HpermX := sortBy_permutation TextLayer.x hinted).
  assert (HpermY := sortBy_permutation TextLayer.y hinted).
  assert (HsortX := sortBy_sorted TextLayer.x hinted).
  assert (HsortY := sortBy_sorted TextLayer.y hinted).
  assert (HlenX : List.length
                    (flat_map horizontalHint
                              (neighbours (sortBy TextLayer.x hinted)))
                  = 2 * (n - 1)).
  { rewrite flat_map_pairs_length by reflexivity.
    rewrite neighbours_length, (Permutation_length HpermX). reflexivity. }
  assert (HlenY : List.length
                    (flat_map verticalHint
                              (neighbours (sortBy TextLayer.y hinted)))
                  = 2 * (n - 1)).
  { rewrite flat_map_pairs_length by reflexivity.
    rewrite neighbours_length, (Permutation_length HpermY). reflexivity. }
  exists (flat_map horizontalHint (neighbours (sortBy TextLayer.x hinted))
          ++ flat_map verticalHint (neighbours (sortBy TextLayer.y hinted))),
         (sortBy TextLayer.x hinted), (sortBy TextLayer.y hinted).
  split; [reflexivity|].
  split; [rewrite length_app, HlenX, HlenY; lia|].
  split; [exact HpermX|]. split; [exact HsortX|].
  split; [exact HpermY|]. split; [exact HsortY|].
  split.
  - intros i currentLayer nextLayer Hcurrent Hnext. cbv zeta.
    pose proof (neighbours_in_order TextLayer.x _ i _ _ HsortX Hcurrent Hnext)
      as Hgap.
    destruct (flat_map_pairs_nth _ _ horizontalHint _ _
                (neighbours (sortBy TextLayer.x hinted)) i
                (currentLayer, nextLayer) (fun pair => eq_refl)
                (neighbours_nth _ i _ _ Hcurrent Hnext))
      as [Hline Hlabel].
    split; [apply nth_error_app_l; exact Hline|].
    split; [apply nth_error_app_l; exact Hlabel|].
    split; [exact Hgap | apply round_not_negative; exact Hgap].
  - intros i currentLayer nextLayer Hcurrent Hnext. cbv zeta.
    pose proof (neighbours_in_order TextLayer.y _ i _ _ HsortY Hcurrent Hnext)
      as Hgap.
    destruct (flat_map_pairs_nth _ _ verticalHint _ _
                (neighbours (sortBy TextLayer.y hinted)) i
                (currentLayer, nextLayer) (fun pair => eq_refl)
                (neighbours_nth _ i _ _ Hcurrent Hnext))
      as [Hline Hlabel].
    rewrite <- HlenX.
    split; [apply nth_error_app_r; exact Hline|].
    split; [apply nth_error_app_r; exact Hlabel|].
    split; [exact Hgap | apply round_not_negative; exact Hgap].
Qed.

Lemma spacing_hints_between_neighbours_witness :
  2 <= List.length
         (filter TextLayer.showSpacingHints
                 (map (TextLayer.set_showSpacingHints true) threeLayers)) /\
  exists hints,
    renderSpacingHints
      (map (TextLayer.set_showSpacingHints true) threeLayers) = Some hints /\
    List.length hints = 8.
Proof.
  assert (Hn : 2 <= List.length
                      (filter TextLayer.showSpacingHints
                         (map (TextLayer.set_showSpacingHints true)
                              threeLayers)))
    by (simpl; lia).
  split; [exact Hn|].
  destruct (spacing_hints_between_neighbours
              (map (TextLayer.set_showSpacingHints true) threeLayers))
    as [_ Hdrawn].
  destruct (Hdrawn Hn) as (hints & _ & _ & Hrender & Hlength & _).
  exists hints. split; [exact Hrender | exact Hlength].
Defined.

(** ** Custom fonts *)

Lemma toLowerCaseChar_dot :
  forall c, (toLowerCaseChar c =? ".")%char = (c =? ".")%char.
Proof.
  intros [[] [] [] [] [] [] [] []]; reflexivity.
Qed.

Lemma toLowerCaseChar_slash :
  forall c, (toLowerCaseChar c =? "/")%char = (c =? "/")%char.
Proof.
  intros [[] [] [] [] [] [] [] []]; reflexivity.
Qed.

Lemma toLowerCase_app :
  forall a b, toLowerCase (a ++ b) = (toLowerCase a ++ toLowerCase b)%string.
Proof.
  intros a b. induction a as [|c a IH]; [reflexivity|].
  simpl. rewrite IH. reflexivity.
Qed.

Lemma noSlashOrDot_toLowerCase :
  forall s, noSlashOrDot (toLowerCase s) = noSlashOrDot s.
Proof.
  induction s as [|c s IH]; [reflexivity|].
  cbn [toLowerCase noSlashOrDot].
  rewrite toLowerCaseChar_dot, toLowerCaseChar_slash, IH. reflexivity.
Qed.

Lemma noSlashOrDot_with_dot :
  forall a b, noSlashOrDot (a ++ String "." b) = false.
Proof.
  intros a b. induction a as [|c a IH].
  - reflexivity.
  - cbn [append noSlashOrDot]. rewrite IH. apply andb_false_r.
Qed.

Lemma split_whole :
  forall s, noSlashOrDot s = true -> split "." s = [s].
Proof.
  induction s as [|c s IH]; intros Hs; [reflexivity|].
  cbn [noSlashOrDot] in Hs.
  apply andb_true_iff in Hs. destruct Hs as [Hc Hs].
  apply andb_true_iff in Hc. destruct Hc as [_ Hdot].
  apply negb_true_iff in Hdot.
  cbn [split]. rewrite Hdot, (IH Hs). reflexivity.
Qed.

Lemma pop_split_extension :
  forall base ext,
    noSlashOrDot ext = true ->
    exists segment segments,
      split "." (base ++ String "." ext) = segment :: segments /\
      pop segments = Some ext.
Proof.
  intros base ext Hext. induction base as [|c base IH].
  - exists EmptyString, [ext]. cbn [append split].
    rewrite Ascii.eqb_refl, (split_whole _ Hext). split; reflexivity.
  - destruct IH as (segment & segments & Hsplit & Hpop).
    cbn [append split]. rewrite Hsplit.
    destruct (c =? ".")%char.
    + exists EmptyString, (segment :: segments). split; [reflexivity|].
      destruct segments as [|s segments]; [discriminate Hpop | exact Hpop].
    + exists (String c segment), segments. split; [reflexivity | exact Hpop].
Qed.

Lemma removeExtension_extension :
  forall base c ext,
    noSlashOrDot (String c ext) = true ->
    removeExtension (base ++ String "." (String c ext)) = base.
Proof.
  intros base c ext Hext. induction base as [|b base IH].
  - cbn [append removeExtension matchesExtension].
    rewrite Ascii.eqb_refl, Hext. reflexivity.
  - cbn [append removeExtension]. rewrite IH.
    assert (Hno : matchesExtension
                    (String b (base ++ String "." (String c ext))) = false).
    { unfold matchesExtension.
      destruct (base ++ String "." (String c ext))%string eqn:Htail;
        [reflexivity|].
      rewrite <- Htail, noSlashOrDot_with_dot. apply andb_false_r. }
    rewrite Hno. reflexivity.
Qed.

Lemma known_extension :
  forall ext,
    includes ["ttf"; "otf"; "woff"; "woff2"] (toLowerCase ext) = true ->
    noSlashOrDot ext = true /\
    exists c rest, ext = String c rest.
Proof.
  intros ext Hin. split.
  - rewrite <- noSlashOrDot_toLowerCase.
    unfold includes in Hin. cbn [existsb] in Hin.
    repeat (apply orb_true_iff in Hin; destruct Hin as [Hin | Hin]);
      try discriminate Hin;
      apply String.eqb_eq in Hin; rewrite Hin; reflexivity.
  - destruct ext as [|c rest]; [discriminate Hin|].
    exists c, rest. reflexivity.
Qed.

(** X25.  A font file is named by what stands before its last dot: for a
    file [base.ext] whose extension is ttf, otf, woff or woff2 in any
    letter case, of at most 10 MB, that is read and loads,
    [uploadCustomFont] resolves, whatever the MIME type, with a font named
    [base] (dots inside [base] are kept) of type [ext] in lower case, and
    appends it to the custom fonts. *)
Theorem font_named_by_file :
  forall (base ext type fontUrl : string) (size : N)
         (customFonts : list CustomFont.t),
    includes ["ttf"; "otf"; "woff"; "woff2"] (toLowerCase ext) = true ->
    (size <= 10 * 1024 * 1024)%N ->
    let file := File.mk (base ++ "." ++ ext) type size in
    let newFont := CustomFont.mk base fontUrl (toLowerCase ext) in
    uploadCustomFont file (Some fontUrl) Loads customFonts
    = (Resolved newFont, customFonts ++ [newFont]).
Proof.
  intros base ext type fontUrl size customFonts Hknown Hsize. cbv zeta.
  destruct (known_extension ext Hknown) as [Hext (c & rest & Hshape)].
  unfold uploadCustomFont. cbn [File.name File.type File.size].
  change (base ++ "." ++ ext)%string with (base ++ String "." ext)%string.
  rewrite toLowerCase_app.
  change (toLowerCase (String "." ext)) with (String "." (toLowerCase ext)).
  destruct (pop_split_extension (toLowerCase base) (toLowerCase ext))
    as (segment & segments & Hsplit & Hpop).
  { rewrite noSlashOrDot_toLowerCase. exact Hext. }
  assert (Hlast : pop (split "." (toLowerCase base
                                   ++ String "." (toLowerCase ext)))
                  = Some (toLowerCase ext)).
  { rewrite Hsplit. destruct segments as [|s segments];
      [discriminate Hpop | exact Hpop]. }
  rewrite Hlast.
  assert (Hor : forall fallback,
             orString (Some (toLowerCase ext)) fallback = toLowerCase ext).
  { intros fallback. rewrite Hshape. reflexivity. }
  rewrite !Hor, Hknown, orb_true_r. cbn [negb].
  destruct (N.ltb_spec (10 * 1024 * 1024) size) as [Hbig|_]; [lia|].
  assert (Hname : removeExtension (base ++ String "." ext) = base).
  { rewrite Hshape. apply removeExtension_extension.
    rewrite <- Hshape. exact Hext. }
  rewrite Hname. reflexivity.
Qed.

Lemma font_named_by_file_witness :
  uploadCustomFont (File.mk "Brand.Bold.TTF" "" 2048) (Some "data:font") Loads []
  = (Resolved (CustomFont.mk "Brand.Bold" "data:font" "ttf"),
     [CustomFont.mk "Brand.Bold" "data:font" "ttf"]).
Proof.
  apply (font_named_by_file "Brand.Bold" "TTF" "" "data:font" 2048 []).
  - reflexivity.
  - vm_compute. discriminate.
Defined.

(** X26.  Uploading and removing fonts: an upload that is rejected leaves
    the custom fonts as they are, and one that resolves appends its font
    and nothing else; [removeCustomFont] then removes this font together
    with every font of the same name, so that the custom fonts are back to
    what they were when the name was new. *)
Theorem upload_then_remove :
  forall (file : File.t) (read : option string) (fontFace : FontFaceResult)
         (customFonts : list CustomFont.t),
    match uploadCustomFont file read fontFace customFonts with
    | (Rejected _, fonts) => fonts = customFonts
    | (Resolved newFont, fonts) =>
        fonts = customFonts ++ [newFont] /\
        removeCustomFont (CustomFont.name newFont) fonts
        = removeCustomFont (CustomFont.name newFont) customFonts /\
        (~ In (CustomFont.name newFont) (map CustomFont.name customFonts) ->
         removeCustomFont (CustomFont.name newFont) fonts = customFonts)
    end.
Proof.
  intros file read fontFace customFonts. unfold uploadCustomFont. cbv zeta.
  destruct (negb _); [reflexivity|].
  destruct (_ <? _)%N; [reflexivity|].
  destruct read as [fontUrl|]; [|reflexivity].
  destruct fontFace; try reflexivity.
  cbn [CustomFont.name].
  set (fontName := removeExtension (File.name file)).
  assert (Hremoved :
            removeCustomFont fontName
              (customFonts
               ++ [CustomFont.mk fontName fontUrl
                     (orString (pop (split "." (toLowerCase (File.name file))))
                               "ttf")])
            = removeCustomFont fontName customFonts).
  { unfold removeCustomFont. rewrite filter_app.
    cbn [filter CustomFont.name]. rewrite String.eqb_refl.
    cbn [negb]. apply app_nil_r. }
  split; [reflexivity|]. split; [exact Hremoved|].
  intros Hnew. rewrite Hremoved. unfold removeCustomFont.
  apply filter_all. intros font Hin.
  apply negb_true_iff, String.eqb_neq. intros Heq. apply Hnew.
  rewrite <- Heq. apply in_map. exact Hin.
Qed.

Lemma upload_then_remove_witness :
  ~ In "Brand.Bold" (map CustomFont.name [CustomFont.mk "Mono" "data:m" "otf"])
  /\
  removeCustomFont "Brand.Bold"
    (snd (uploadCustomFont (File.mk "Brand.Bold.TTF" "" 2048)
                           (Some "data:font") Loads
                           [CustomFont.mk "Mono" "data:m" "otf"]))
  = [CustomFont.mk "Mono" "data:m" "otf"].
Proof.
  assert (Hnew : ~ In "Brand.Bold"
                      (map CustomFont.name [CustomFont.mk "Mono" "data:m" "otf"])).
  { simpl. intros [H | []]. discriminate H. }
  split; [exact Hnew|].
  pose proof (upload_then_remove (File.mk "Brand.Bold.TTF" "" 2048)
                (Some "data:font") Loads
                [CustomFont.mk "Mono" "data:m" "otf"]) as H.
  cbv beta iota in H. destruct H as (_ & _ & Hback).
  exact (Hback Hnew).
Defined.

(** ** The stored path and the drawing *)

(** X27.  The stored path is only a flag for the drawing:
    [renderWarpedText] places the characters from the path type, the
    anchor, the radius and the angle of the layer, and for two layers that
    differ only in their non-empty [warpPath] it draws the same. *)
Theorem drawing_ignores_path_shape :
  forall (textLayer : TextLayer.t) (path path' : SvgPath),
    path <> [] ->
    path' <> [] ->
    renderWarpedText (TextLayer.set_warpPath path textLayer)
    = renderWarpedText (TextLayer.set_warpPath path' textLayer).
Proof.
  intros textLayer path path' Hpath Hpath'.
  destruct textLayer as [i x y t s r sx sy lk w p pt wr wa ws sh shc sho cf].
  destruct path as [|c path]; [contradiction|].
  destruct path' as [|c' path']; [contradiction|].
  unfold renderWarpedText.
  cbn [TextLayer.set_warpPath TextLayer.isWarped TextLayer.warpPath
       TextLayer.text noPath].
  destruct w; reflexivity.
Qed.

Lemma drawing_ignores_path_shape_witness :
  warpPathFor circle 50 50 100 180 <> [] /\
  warpPathFor heart 0 0 1 0 <> [] /\
  renderWarpedText warpedLayer
  = renderWarpedText
      (TextLayer.set_warpPath (warpPathFor heart 0 0 1 0) warpedLayer).
Proof.
  assert (Hcircle : warpPathFor circle 50 50 100 180 <> []) by discriminate.
  assert (Hheart : warpPathFor heart 0 0 1 0 <> []) by discriminate.
  split; [exact Hcircle|]. split; [exact Hheart|].
  apply (drawing_ignores_path_shape
           (sampleLayer |> TextLayer.set_text "abc"
                        |> TextLayer.set_isWarped true
                        |> TextLayer.set_warpPathType "circle")
           (warpPathFor circle 50 50 100 180) (warpPathFor heart 0 0 1 0));
    assumption.
Defined.

(** ** Reset *)

Lemma session_app :
  forall (before after : list Event) (st : EditorState),
    session (before ++ after) st
    = match session before st with
      | Some st' => session after st'
      | None => None
      end.
Proof.
  induction before as [|e before IH]; intros after st; [reflexivity|].
  cbn [app session]. destruct (handle e st); [apply IH | reflexivity].
Qed.

Lemma resetDesign_initial :
  forall st, resetDesign st = initialState None.
Proof. intros st. reflexivity. Qed.

(** X28.  Reset forgets the session: whatever events came before it,
    [resetDesign] leaves the editor in the state of a first mount over an
    empty store (no layer, no selection, the default style, one empty
    snapshot, no pending replay, nothing stored), so the events that
    follow run as in a new session. *)
Theorem reset_forgets_the_session :
  forall (before after : list Event),
    session (before ++ Reset :: after) (initialState None)
    = session after (initialState None).
Proof.
  intros before after. rewrite session_app.
  destruct (session_runs before (initialState None)) as [st Hrun].
  - apply empty_selection_valid. reflexivity.
  - split; [apply initialState_bounded | exact I].
  - rewrite Hrun. cbn [session handle].
    rewrite resetDesign_initial. reflexivity.
Qed.
